(** * gedis: consistent-hash ring, AOF rewrite and TCC transactions

    A shallow embedding of
      - lib/consistenthash/consistenthash.go   (the hash ring),
      - aof/rewrite.go                         (AOF compaction),
      - cluster/tcc.go                         (participant side of the
                                                try-commit-cancel protocol),
    followed by the properties proved about them.

    Go values are represented as follows.  A [string] and a [[]byte] are both
    byte sequences and are written as Rocq [string]s (keys, addresses,
    command arguments) or [list byte] (file contents).  An [int] is a [Z];
    a [uint32] is a [Z] reduced modulo [2^32].  A [map[K]V] is a [gmap K V].
    A run-time panic is the result [None] of an [option]-valued function. *)

From Stdlib Require Import ZArith Ascii List Lia DecimalString.
From stdpp Require Import gmap strings list sorting.

Local Open Scope Z_scope.

(* ===================================================================== *)
(** * Go run-time library functions the sources call *)
(* ===================================================================== *)

Module GoLib.

(** [strconv.Itoa]: the decimal representation of an [int]. *)
Definition Itoa (i : Z) : string := NilZero.string_of_int (Z.to_int i).

(** [len(s)] as an [int]. *)
Definition len (s : string) : Z := Z.of_nat (String.length s).

(** [strings.Index(s, substr)]: the index of the first instance of
    [substr] in [s], or [-1] if [substr] is not present in [s].
    [Index_from i] scans a suffix of [s] that starts at offset [i]. *)
Fixpoint Index_from (i : Z) (s substr : string) : Z :=
  if String.prefix substr s then i
  else match s with
       | EmptyString => -1
       | String _ s' => Index_from (i + 1) s' substr
       end.

Definition Index (s substr : string) : Z := Index_from 0 s substr.

(** The slice expression [s[lo:hi]].  It panics ("slice bounds out of
    range") unless [0 <= lo <= hi <= len(s)]. *)
Definition slice (s : string) (lo hi : Z) : option string :=
  if (0 <=? lo) && (lo <=? hi) && (hi <=? len s)
  then Some (String.substring (Z.to_nat lo) (Z.to_nat (hi - lo)) s)
  else None.

(** [strings.ToLower] on the ASCII letters; the other bytes are kept. *)
Definition lower_byte (c : ascii) : ascii :=
  let n := nat_of_ascii c in
  if ((65 <=? n) && (n <=? 90))%nat then ascii_of_nat (n + 32) else c.

Fixpoint ToLower (s : string) : string :=
  match s with
  | EmptyString => EmptyString
  | String c s' => String (lower_byte c) (ToLower s')
  end.

(** Conversion to [uint32]: wrap-around modulo [2^32].  The conversion
    [int(h)] of a [uint32] to the 64-bit [int] changes nothing. *)
Definition uint32 (z : Z) : Z := z mod 2 ^ 32.

(** [sort.Ints]: sorts a slice of ints in increasing order. *)
Definition sort_Ints (a : list Z) : list Z := merge_sort Z.le a.

(** [sort.Search(n, f)]: binary search for the smallest index [i] in
    [[0, n)] at which [f(i)] is true, assuming [f] is monotone; [n] when
    there is none.  The loop of the library function is

      i, j := 0, n
      for i < j { h := int(uint(i+j) >> 1)
                  if !f(h) { i = h + 1 } else { j = h } }
      return i

    [j - i] decreases at every iteration, so [n] units of fuel are
    enough (see [search_loop_least]). *)
Fixpoint search_loop (fuel : nat) (f : Z → bool) (i j : Z) : Z :=
  match fuel with
  | O => i
  | S fuel' =>
      if i <? j then
        let h := Z.shiftr (i + j) 1 in
        if negb (f h) then search_loop fuel' f (h + 1) j
        else search_loop fuel' f i h
      else i
  end.

Definition Search (n : Z) (f : Z → bool) : Z :=
  search_loop (Z.to_nat n) f 0 n.

(** [hash/crc32.ChecksumIEEE]: the CRC-32 checksum with the IEEE
    polynomial (reflected form 0xEDB88320), bit by bit. *)
Definition crc32_bit (crc : Z) : Z :=
  if Z.testbit crc 0
  then Z.lxor (Z.shiftr crc 1) 3988292384
  else Z.shiftr crc 1.

Definition crc32_byte (crc : Z) (b : ascii) : Z :=
  Nat.iter 8 crc32_bit (Z.lxor crc (Z.of_N (N_of_ascii b))).

Fixpoint crc32_update (crc : Z) (data : string) : Z :=
  match data with
  | EmptyString => crc
  | String b data' => crc32_update (crc32_byte crc b) data'
  end.

Definition ChecksumIEEE (data : string) : Z :=
  Z.lxor (crc32_update 4294967295 data) 4294967295.

End GoLib.

(* ===================================================================== *)
(** * lib/consistenthash/consistenthash.go *)
(* ===================================================================== *)

Module consistenthash.
Import GoLib.

(** [type HashFunc func(data []byte) uint32] *)
Definition HashFunc : Type := string → Z.

(** [type Map struct] *)
Record Map : Type := mkMap {
  hashFunc : HashFunc;
  replicas : Z;
  keys : list Z;
  hashMap : gmap Z string
}.

(** [func New(replicas int, fn HashFunc) *Map]; a nil [fn] is [None]. *)
Definition New (replicas : Z) (fn : option HashFunc) : Map :=
  {| replicas := replicas;
     hashFunc := match fn with Some f => f | None => ChecksumIEEE end;
     keys := [];
     hashMap := ∅ |}.

(** [func (m *Map) IsEmpty() bool] *)
Definition IsEmpty (m : Map) : bool :=
  Z.of_nat (length (keys m)) =? 0.

(** The body of the inner loop of [AddNode] for the virtual node [i] of
    the address [key]:
      hash := int(m.hashFunc([]byte(strconv.Itoa(i) + key)))
      m.keys = append(m.keys, hash)
      m.hashMap[hash] = key *)
Definition addVirtualNode (key : string) (m : Map) (i : Z) : Map :=
  let hash := uint32 (hashFunc m (Itoa i +:+ key)) in
  {| hashFunc := hashFunc m;
     replicas := replicas m;
     keys := keys m ++ [hash];
     hashMap := <[hash := key]> (hashMap m) |}.

(** The body of the outer loop of [AddNode]: the empty address is
    skipped, any other gets [for i := 0; i < m.replicas; i++]. *)
Definition addOneNode (m : Map) (key : string) : Map :=
  if String.eqb key "" then m
  else fold_left (addVirtualNode key) (seqZ 0 (replicas m)) m.

(** [func (m *Map) AddNode(keys ...string)] *)
Definition AddNode (m : Map) (addrs : list string) : Map :=
  let m' := fold_left addOneNode addrs m in
  {| hashFunc := hashFunc m';
     replicas := replicas m';
     keys := sort_Ints (keys m');
     hashMap := hashMap m' |}.

(** [func getPartitionKey(key string) string]; [None] is the panic of
    the slice expression [key[beg+1 : end]]. *)
Definition getPartitionKey (key : string) : option string :=
  let beg := Index key "{" in
  if beg =? -1 then Some key
  else
    let end_ := Index key "}" in
    if (end_ =? -1) || (end_ =? beg + 1) then Some key
    else slice key (beg + 1) end_.

(** The index expression [m.keys[i]]; [None] is the index-out-of-range
    panic. *)
Definition keys_at (m : Map) (i : Z) : option Z :=
  if 0 <=? i then keys m !! Z.to_nat i else None.

(** The closure passed to [sort.Search]:
    [func(i int) bool { return m.keys[i] >= hash }].
    [Search] only calls it with [0 <= i < len(m.keys)]. *)
Definition keyAtLeast (m : Map) (hash : Z) (i : Z) : bool :=
  match keys_at m i with
  | Some k => hash <=? k
  | None => false
  end.

(** [func (m *Map) PickNode(key string) string] *)
Definition PickNode (m : Map) (key : string) : option string :=
  if IsEmpty m then Some ""
  else
    match getPartitionKey key with
    | None => None
    | Some partitionKey =>
        let hash := uint32 (hashFunc m partitionKey) in
        let n := Z.of_nat (length (keys m)) in
        let idx := Search n (keyAtLeast m hash) in
        let idx := if idx =? n then 0 else idx in
        match keys_at m idx with
        | None => None
        | Some k => Some (default "" (hashMap m !! k))
        end
    end.

(** *** The partition key as the specification words it

    "The substring strictly between the first [{] and the first
    subsequent [}]; if either brace is missing, or the braces are
    adjacent, use the full key."  [afterOpen] is what follows the first
    [{]; the closing brace is looked for there. *)
Fixpoint skip (n : nat) (s : string) : string :=
  match n, s with
  | O, _ => s
  | S _, EmptyString => EmptyString
  | S n', String _ s' => skip n' s'
  end.

Definition partitionKey_spec (key : string) : string :=
  let beg := Index key "{" in
  if beg =? -1 then key
  else
    let afterOpen := skip (Z.to_nat (beg + 1)) key in
    let off := Index afterOpen "}" in
    if (off =? -1) || (off =? 0) then key
    else String.substring 0 (Z.to_nat off) afterOpen.

(** The characters of [s] that come before its first [}] (all of [s]
    when it has none). *)
Fixpoint untilClose (s : string) : string :=
  match s with
  | EmptyString => EmptyString
  | String c s' =>
      if Ascii.eqb c "}" then EmptyString else String c (untilClose s')
  end.

(** The addresses that [AddNode] puts on the ring: the empty address is
    skipped. *)
Definition realAddrs (addrs : list string) : list string :=
  filter (λ a, a ≠ "") addrs.

(** The number of distinct physical nodes among the addresses. *)
Definition distinctNodes (addrs : list string) : nat :=
  length (remove_dups (realAddrs addrs)).

(** Every position on the ring has an owner. *)
Definition owned (m : Map) : Prop :=
  ∀ h : Z, h ∈ keys m → is_Some (hashMap m !! h).

(** A ring after a sequence of [AddNode] calls, one per element of
    [calls]. *)
Definition addAll (m : Map) (calls : list (list string)) : Map :=
  fold_left AddNode calls m.

(** The positions [AddNode] computes for the addresses [addrs], in the
    order in which it appends them to [m.keys]: for each address that is
    not empty, one position per replica. *)
Definition virtualHashes (m : Map) (addrs : list string) : list Z :=
  flat_map
    (λ a, map (λ i, uint32 (hashFunc m (Itoa i +:+ a)))
              (seqZ 0 (replicas m)))
    (realAddrs addrs).

(** Two rings that differ at most in their positions. *)
Definition sameOwners (m1 m2 : Map) : Prop :=
  hashFunc m1 = hashFunc m2 ∧ replicas m1 = replicas m2 ∧
  hashMap m1 = hashMap m2.

(** Every owner of a position is one of the addresses [A]. *)
Definition ownersIn (A : list string) (m : Map) : Prop :=
  ∀ (h : Z) (v : string), hashMap m !! h = Some v → v ∈ A.

End consistenthash.

(* ===================================================================== *)
(** * aof/rewrite.go *)
(* ===================================================================== *)

Module aof.
Import GoLib.

(** ** The operating-system interface ([os], [io], [io/ioutil])

    The file system is a table of inodes and a directory that maps
    paths to inodes.  Every system call first asks an oracle whether it
    fails: [oracle k] is the fate of the [k]-th call of a run, and
    [ticks] counts the calls made so far.  A failed write may have
    written a part of its data. *)

Inductive outcome : Type :=
| IoOk
| IoErr (partial : nat).

Definition Oracle : Type := nat → outcome.

Inductive error : Type :=
| EIO | ENOENT | EINVAL | EEXIST | ErrClosed.

Record Disk : Type := mkDisk {
  inodes : gmap nat (list Byte.byte);
  names : gmap string nat;
  ticks : nat
}.

(** [*os.File]: an open file, with the name it was opened under. *)
Record OsFile : Type := mkOsFile {
  fd_ino : nat;
  fd_name : string;
  fd_pos : nat;
  fd_append : bool;
  fd_closed : bool
}.

Definition tick (w : Disk) : Disk :=
  {| inodes := inodes w; names := names w; ticks := S (ticks w) |}.

Definition content (w : Disk) (ino : nat) : list Byte.byte :=
  default [] (inodes w !! ino).

Definition set_content (w : Disk) (ino : nat) (c : list Byte.byte) : Disk :=
  {| inodes := <[ino := c]> (inodes w); names := names w; ticks := ticks w |}.

Definition set_pos (f : OsFile) (pos : nat) : OsFile :=
  {| fd_ino := fd_ino f; fd_name := fd_name f; fd_pos := pos;
     fd_append := fd_append f; fd_closed := fd_closed f |}.

(** The bytes of a file after [data] is written at offset [pos]; a gap
    between the end of the file and [pos] reads as zeros. *)
Definition pwrite (c data : list Byte.byte) (pos : nat) : list Byte.byte :=
  take pos c ++ replicate (pos - length c) Byte.x00
    ++ data ++ drop (pos + length data) c.

(** [func (f *File) Write(b []byte) (n int, err error)] *)
Definition File_Write (oracle : Oracle) (f : OsFile) (data : list Byte.byte)
    (w : Disk) : nat * option error * OsFile * Disk :=
  if fd_closed f then (0%nat, Some ErrClosed, f, w)
  else
    let c := content w (fd_ino f) in
    let pos := if fd_append f then length c else fd_pos f in
    let written :=
      match oracle (ticks w) with
      | IoOk => data
      | IoErr partial => take partial data
      end in
    let err :=
      match oracle (ticks w) with
      | IoOk => None
      | IoErr _ => Some EIO
      end in
    (length written, err,
     set_pos f (pos + length written),
     tick (set_content w (fd_ino f) (pwrite c written pos))).

(** [os.Open(name)]: open for reading. *)
Definition os_Open (oracle : Oracle) (name : string) (w : Disk)
    : (OsFile + error) * Disk :=
  match oracle (ticks w) with
  | IoErr _ => (inr EIO, tick w)
  | IoOk =>
      match names w !! name with
      | None => (inr ENOENT, tick w)
      | Some ino =>
          (inl {| fd_ino := ino; fd_name := name; fd_pos := 0;
                  fd_append := false; fd_closed := false |}, tick w)
      end
  end.

(** [func (f *File) Seek(offset int64, whence int)] with [whence = 0]:
    the offset is relative to the start of the file; a negative offset
    is an error. *)
Definition File_Seek (oracle : Oracle) (f : OsFile) (offset : Z) (w : Disk)
    : option error * OsFile * Disk :=
  if fd_closed f then (Some ErrClosed, f, w)
  else
    match oracle (ticks w) with
    | IoErr _ => (Some EIO, f, tick w)
    | IoOk =>
        if offset <? 0 then (Some EINVAL, f, tick w)
        else (None, set_pos f (Z.to_nat offset), tick w)
    end.

(** [io.Copy(dst, src)]: everything from the offset of [src] to its end
    is written to [dst]. *)
Definition io_Copy (oracle : Oracle) (dst src : OsFile) (w : Disk)
    : nat * option error * OsFile * Disk :=
  File_Write oracle dst (drop (fd_pos src) (content w (fd_ino src))) w.

(** [func (f *File) Close() error] *)
Definition File_Close (f : OsFile) : OsFile :=
  {| fd_ino := fd_ino f; fd_name := fd_name f; fd_pos := fd_pos f;
     fd_append := fd_append f; fd_closed := true |}.

(** [os.Rename(oldpath, newpath)]: [newpath] is replaced. *)
Definition os_Rename (oracle : Oracle) (oldpath newpath : string) (w : Disk)
    : option error * Disk :=
  match oracle (ticks w) with
  | IoErr _ => (Some EIO, tick w)
  | IoOk =>
      match names w !! oldpath with
      | None => (Some ENOENT, tick w)
      | Some ino =>
          (None,
           tick {| inodes := inodes w;
                   names := <[newpath := ino]> (delete oldpath (names w));
                   ticks := ticks w |})
      end
  end.

(** [os.OpenFile(name, os.O_APPEND|os.O_CREATE|os.O_RDWR, 0600)] *)
Definition os_OpenFile_append (oracle : Oracle) (name : string) (w : Disk)
    : (OsFile + error) * Disk :=
  match oracle (ticks w) with
  | IoErr _ => (inr EIO, tick w)
  | IoOk =>
      match names w !! name with
      | Some ino =>
          (inl {| fd_ino := ino; fd_name := name; fd_pos := 0;
                  fd_append := true; fd_closed := false |}, tick w)
      | None =>
          let ino := fresh (dom (inodes w)) in
          (inl {| fd_ino := ino; fd_name := name; fd_pos := 0;
                  fd_append := true; fd_closed := false |},
           tick {| inodes := <[ino := []]> (inodes w);
                   names := <[name := ino]> (names w);
                   ticks := ticks w |})
      end
  end.

(** [func (f *File) Sync() error] *)
Definition File_Sync (oracle : Oracle) (f : OsFile) (w : Disk)
    : option error * Disk :=
  if fd_closed f then (Some ErrClosed, w)
  else match oracle (ticks w) with
       | IoErr _ => (Some EIO, tick w)
       | IoOk => (None, tick w)
       end.

(** [os.Stat(name)], of which only [Size()] is used. *)
Definition os_Stat (oracle : Oracle) (name : string) (w : Disk)
    : (nat + error) * Disk :=
  match oracle (ticks w) with
  | IoErr _ => (inr EIO, tick w)
  | IoOk =>
      match names w !! name with
      | None => (inr ENOENT, tick w)
      | Some ino => (inl (length (content w ino)), tick w)
      end
  end.

(** [ioutil.TempFile("", "*.aof")]: a new file, opened for reading and
    writing, under a name [candidate] that must not exist yet. *)
Definition ioutil_TempFile (oracle : Oracle) (candidate : string) (w : Disk)
    : (OsFile + error) * Disk :=
  match oracle (ticks w) with
  | IoErr _ => (inr EIO, tick w)
  | IoOk =>
      match names w !! candidate with
      | Some _ => (inr EEXIST, tick w)
      | None =>
          let ino := fresh (dom (inodes w)) in
          (inl {| fd_ino := ino; fd_name := candidate; fd_pos := 0;
                  fd_append := false; fd_closed := false |},
           tick {| inodes := <[ino := []]> (inodes w);
                   names := <[candidate := ino]> (names w);
                   ticks := ticks w |})
      end
  end.

(** ** The packages the rewriter calls into

    [database], [protocol], [utils], [config] and the part of [aof]
    that is in other files are not part of this development; what the
    rewriter uses of them is an interface. *)

(** [type CmdLine = [][]byte] *)
Definition CmdLine : Type := list string.

Class Extern : Type := {
  (** [database.DataEntity], a nil pointer included *)
  DataEntity : Type;
  (** [time.Time] *)
  Time : Type;
  (** the database of a handler, [database.EmbedDB] *)
  DB : Type;
  (** [config.Properties.Databases] *)
  Databases : Z;
  (** [handler.tmpDBMaker()] *)
  tmpDBMaker : DB;
  (** [handler.LoadAof(maxBytes)]: replays the file [aofFilename] into
      the database of the handler *)
  LoadAof : Disk → string → Z → DB → DB;
  (** the [(key, entity, expiration)] triples [db.ForEach(dbIndex, cb)]
      visits, in the order it visits them *)
  dbEntries : DB → Z → list (string * DataEntity * option Time);
  (** [aof.EntityToCmd]; [None] is the nil reply *)
  EntityToCmd : string → DataEntity → option CmdLine;
  (** [aof.MakeExpireCmd]; [None] is the nil reply *)
  MakeExpireCmd : string → Time → option CmdLine;
  (** [protocol.MakeMultiBulkReply(args).ToBytes()] *)
  ToBytes : CmdLine → list Byte.byte;
  (** the name [ioutil.TempFile] chooses *)
  tempName : Disk → string
}.

(** [utils.ToCmdLine(cmd ...string)] *)
Definition ToCmdLine (cmd : list string) : CmdLine := cmd.

(** [db.ForEach(dbIndex, cb)]: [cb] is called on every entry until it
    returns false. *)
Fixpoint forEach {E S : Type} (entries : list E) (cb : E → S → bool * S)
    (s : S) : S :=
  match entries with
  | [] => s
  | e :: entries' =>
      let '(continue, s') := cb e s in
      if continue then forEach entries' cb s' else s'
  end.

(** ** The handler *)

Record Handler `{Extern} : Type := mkHandler {
  aofFilename : string;
  aofFile : OsFile;
  currentDB : Z;
  db : DB
}.

(** [type RewriteCtx struct] *)
Record RewriteCtx : Type := mkRewriteCtx {
  tmpFile : OsFile;
  fileSize : Z;
  dbIdx : Z
}.

(** How a function leaves: by returning or by panicking. *)
Inductive exit (A : Type) : Type :=
| Return (a : A)
| Panic.
Arguments Return {A} a.
Arguments Panic {A}.

Section Rewrite.
Context `{Extern}.
Variable oracle : Oracle.

(** [func (handler *Handler) newRewriteHandler() *Handler]; the fields
    that are not set keep their zero value. *)
Definition newRewriteHandler (handler : Handler) : Handler :=
  {| aofFilename := aofFilename handler;
     aofFile := {| fd_ino := 0; fd_name := ""; fd_pos := 0;
                   fd_append := false; fd_closed := true |};
     currentDB := 0;
     db := tmpDBMaker |}.

(** The frame [SELECT i]. *)
Definition selectFrame (i : Z) : list Byte.byte :=
  ToBytes (ToCmdLine ["SELECT"; Itoa i]).

(** The visitor [DoRewrite] passes to [ForEach]; the state it acts on
    is the temporary file and the disk.  The results of both writes
    are dropped ([_, _ = tmpFile.Write(...)]). *)
Definition dumpEntry (e : string * DataEntity * option Time)
    (st : OsFile * Disk) : bool * (OsFile * Disk) :=
  let '(key, entity, expiration) := e in
  let st :=
    match EntityToCmd key entity with
    | Some cmd =>
        let '(_, _, f, w) := File_Write oracle (fst st) (ToBytes cmd) (snd st) in
        (f, w)
    | None => st
    end in
  let st :=
    match expiration with
    | Some t =>
        match MakeExpireCmd key t with
        | Some cmd =>
            let '(_, _, f, w) :=
              File_Write oracle (fst st) (ToBytes cmd) (snd st) in
            (f, w)
        | None => st
        end
    | None => st
    end in
  (true, st).

(** The loop [for i := 0; i < config.Properties.Databases; i++] of
    [DoRewrite], over the indices still to be done. *)
Fixpoint dumpDatabases (scratch : DB) (indices : list Z)
    (st : OsFile * Disk) : option error * (OsFile * Disk) :=
  match indices with
  | [] => (None, st)
  | i :: indices' =>
      let '(_, err, f, w) := File_Write oracle (fst st) (selectFrame i) (snd st) in
      match err with
      | Some e => (Some e, (f, w))
      | None =>
          dumpDatabases scratch indices'
            (forEach (dbEntries scratch i) dumpEntry (f, w))
      end
  end.

(** [func (handler *Handler) DoRewrite(ctx *RewriteCtx) error] *)
Definition DoRewrite (handler : Handler) (ctx : RewriteCtx) (w : Disk)
    : option error * RewriteCtx * Disk :=
  let tmpAof := newRewriteHandler handler in
  let scratch :=
    LoadAof w (aofFilename tmpAof) (fileSize ctx) (db tmpAof) in
  let '(err, (f, w')) :=
    dumpDatabases scratch (seqZ 0 Databases) (tmpFile ctx, w) in
  (err, {| tmpFile := f; fileSize := fileSize ctx; dbIdx := dbIdx ctx |}, w').

(** [func (handler *Handler) StartRewrite()], which returns a context or
    an error.
    The error of [os.Stat] is dropped and [fileInfo.Size()] then
    dereferences a nil [fileInfo]. *)
Definition StartRewrite (handler : Handler) (w : Disk)
    : exit (RewriteCtx + error) * Disk :=
  let '(err, w) := File_Sync oracle (aofFile handler) w in
  match err with
  | Some e => (Return (inr e), w)
  | None =>
      let '(fileInfo, w) := os_Stat oracle (aofFilename handler) w in
      match fileInfo with
      | inr _ => (Panic, w)
      | inl filesize =>
          let '(file, w') := ioutil_TempFile oracle (tempName w) w in
          match file with
          | inr e => (Return (inr e), w')
          | inl file =>
              (Return (inl {| tmpFile := file;
                              fileSize := Z.of_nat filesize;
                              dbIdx := currentDB handler |}), w')
          end
      end
  end.

(** The places at which [FinishRewrite] leaves: the four early
    returns, each after an error has been logged, the end of the
    function, and the two panics. *)
Inductive FinishExit : Type :=
| OpenFailed | SeekFailed | WriteFailed | CopyFailed
| Finished
| ReopenPanic | SelectPanic.

(** [func (handler *Handler) FinishRewrite(ctx *RewriteCtx)].  The
    handler and the context are modified in place; their new values
    are returned. *)
Definition FinishRewrite (handler : Handler) (ctx : RewriteCtx) (w : Disk)
    : FinishExit * Handler * RewriteCtx * Disk :=
  let tmp := tmpFile ctx in
  let '(src, w) := os_Open oracle (aofFilename handler) w in
  match src with
  | inr _ => (OpenFailed, handler, ctx, w)
  | inl src =>
      let '(err, src, w) := File_Seek oracle src (fileSize ctx) w in
      match err with
      | Some _ => (SeekFailed, handler, ctx, w)
      | None =>
          let data := selectFrame (dbIdx ctx) in
          let '(_, err, tmp, w) := File_Write oracle tmp data w in
          let ctx1 := {| tmpFile := tmp; fileSize := fileSize ctx;
                         dbIdx := dbIdx ctx |} in
          match err with
          | Some _ => (WriteFailed, handler, ctx1, w)
          | None =>
              let '(_, err, tmp, w) := io_Copy oracle tmp src w in
              let ctx2 := {| tmpFile := tmp; fileSize := fileSize ctx;
                             dbIdx := dbIdx ctx |} in
              match err with
              | Some _ => (CopyFailed, handler, ctx2, w)
              | None =>
                  let closed := File_Close (aofFile handler) in
                  let '(_, w) :=
                    os_Rename oracle (fd_name tmp) (aofFilename handler) w in
                  let '(reopened, w) :=
                    os_OpenFile_append oracle (aofFilename handler) w in
                  match reopened with
                  | inr _ =>
                      (ReopenPanic,
                       {| aofFilename := aofFilename handler;
                          aofFile := closed;
                          currentDB := currentDB handler;
                          db := db handler |}, ctx2, w)
                  | inl aofFile' =>
                      let data := selectFrame (currentDB handler) in
                      let '(_, err, aofFile', w) :=
                        File_Write oracle aofFile' data w in
                      let handler' :=
                        {| aofFilename := aofFilename handler;
                           aofFile := aofFile';
                           currentDB := currentDB handler;
                           db := db handler |} in
                      match err with
                      | Some _ => (SelectPanic, handler', ctx2, w)
                      | None => (Finished, handler', ctx2, w)
                      end
                  end
              end
          end
      end
  end.

(** [func (handler *Handler) Rewrite() error] *)
Definition Rewrite (handler : Handler) (w : Disk)
    : exit (option error) * Handler * Disk :=
  let '(started, w) := StartRewrite handler w in
  match started with
  | Panic => (Panic, handler, w)
  | Return (inr e) => (Return (Some e), handler, w)
  | Return (inl ctx) =>
      let '(err, ctx, w) := DoRewrite handler ctx w in
      match err with
      | Some e => (Return (Some e), handler, w)
      | None =>
          let '(how, handler', _, w) := FinishRewrite handler ctx w in
          match how with
          | ReopenPanic | SelectPanic => (Panic, handler', w)
          | _ => (Return None, handler', w)
          end
      end
  end.

End Rewrite.

(** ** What the rewriter is to write, as the specification words it *)

Section Dump.
Context `{Extern}.

(** "Emit the one canonical command that recreates [entity] at [key];
    if [expiration] is present, emit a separate [PEXPIREAT key ms]
    command.  Keys with no canonical command are skipped." *)
Definition entryFrames_spec (e : string * DataEntity * option Time)
    : list Byte.byte :=
  let '(key, entity, expiration) := e in
  match EntityToCmd key entity with
  | None => []
  | Some cmd =>
      ToBytes cmd ++
      match expiration with
      | Some t => from_option ToBytes [] (MakeExpireCmd key t)
      | None => []
      end
  end.

(** The same without the last sentence: the expiration command of a
    key does not depend on the key having a canonical command. *)
Definition entryFrames (e : string * DataEntity * option Time)
    : list Byte.byte :=
  let '(key, entity, expiration) := e in
  from_option ToBytes [] (EntityToCmd key entity) ++
  match expiration with
  | Some t => from_option ToBytes [] (MakeExpireCmd key t)
  | None => []
  end.

(** "For each logical DB index [i] in [[0, Databases)]: emit
    [SELECT i]", then the frames of every entry of that database. *)
Definition dumpFrames
    (frames : string * DataEntity * option Time → list Byte.byte)
    (scratch : DB) : list Byte.byte :=
  flat_map
    (λ i, selectFrame i ++ flat_map frames (dbEntries scratch i))
    (seqZ 0 Databases).

End Dump.

(** The early returns of [FinishRewrite]. *)
Definition earlyReturn (how : FinishExit) : Prop :=
  how = OpenFailed ∨ how = SeekFailed ∨ how = WriteFailed ∨ how = CopyFailed.

(** A file handle whose next write goes to the end of its file. *)
Definition atEnd (f : OsFile) (w : Disk) : Prop :=
  fd_closed f = false ∧
  (fd_append f = true ∨ fd_pos f = length (content w (fd_ino f))).

(** The oracle under which no system call fails. *)
Definition noFault : Oracle := λ _, IoOk.

(** Between [w] and [w'] the directory has not changed, no file has
    been removed, and no file but [ino] has been written. *)
Definition onlyWrites (ino : nat) (w w' : Disk) : Prop :=
  names w' = names w ∧
  (∀ i : nat, is_Some (inodes w !! i) → is_Some (inodes w' !! i)) ∧
  (∀ i : nat, i ≠ ino → content w' i = content w i).

(** Between [(f, w)] and [(f', w')] the bytes [data] have been added at
    the end of the file of [f], and nothing else has happened. *)
Definition appended (f : OsFile) (w : Disk) (data : list Byte.byte)
    (f' : OsFile) (w' : Disk) : Prop :=
  fd_ino f' = fd_ino f ∧ fd_name f' = fd_name f ∧
  atEnd f' w' ∧
  content w' (fd_ino f) = content w (fd_ino f) ++ data ∧
  onlyWrites (fd_ino f) w w'.

(** The end of [FinishRewrite], from [handler.aofFile.Close()] on: the
    temporary file of [ctx] is renamed over the live AOF, the live AOF is
    reopened and [SELECT currentDB] is written to it. *)
Section Install.
Context `{Extern}.
Variable oracle : Oracle.

Definition installRewritten (handler : Handler) (ctx : RewriteCtx) (w : Disk)
    : FinishExit * Handler * RewriteCtx * Disk :=
  let closed := File_Close (aofFile handler) in
  let '(_, w) :=
    os_Rename oracle (fd_name (tmpFile ctx)) (aofFilename handler) w in
  let '(reopened, w) := os_OpenFile_append oracle (aofFilename handler) w in
  match reopened with
  | inr _ =>
      (ReopenPanic,
       {| aofFilename := aofFilename handler;
          aofFile := closed;
          currentDB := currentDB handler;
          db := db handler |}, ctx, w)
  | inl aofFile' =>
      let data := selectFrame (currentDB handler) in
      let '(_, err, aofFile', w) := File_Write oracle aofFile' data w in
      let handler' :=
        {| aofFilename := aofFilename handler;
           aofFile := aofFile';
           currentDB := currentDB handler;
           db := db handler |} in
      match err with
      | Some _ => (SelectPanic, handler', ctx, w)
      | None => (Finished, handler', ctx, w)
      end
  end.

End Install.

(** The system calls [k], [k + 1], ..., [k + n - 1] of a run succeed. *)
Definition succeed (oracle : Oracle) (k n : nat) : Prop :=
  ∀ j : nat, (j < n)%nat → oracle (k + j)%nat = IoOk.

End aof.

(* ===================================================================== *)
(** * A small instance of the packages the rewriter calls into

    It is used to run the rewriter on concrete disks.  Frames are RESP
    multi-bulk arrays; an entity is a string value or a value of a type
    that has no canonical command; a time is a number of milliseconds;
    [LoadAof] yields the database [scratch] it is given. *)
(* ===================================================================== *)

Module aof_fixture.
Import GoLib aof.

Definition CRLF : string :=
  String (ascii_of_nat 13) (String (ascii_of_nat 10) EmptyString).

Definition respBulk (arg : string) : string :=
  "$" +:+ Itoa (len arg) +:+ CRLF +:+ arg +:+ CRLF.

Definition respMultiBulk (args : list string) : list Byte.byte :=
  String.list_byte_of_string
    ("*" +:+ Itoa (Z.of_nat (length args)) +:+ CRLF
         +:+ fold_right (λ a r, respBulk a +:+ r) EmptyString args).

Inductive entity : Type :=
| StringEntity (v : string)
| OpaqueEntity.

Definition database : Type := list (list (string * entity * option Z)).

#[local] Instance extern (dbs : Z) (scratch : database) : Extern := {|
  DataEntity := entity;
  Time := Z;
  DB := database;
  Databases := dbs;
  tmpDBMaker := [];
  LoadAof := λ _ _ _ _, scratch;
  dbEntries := λ d i, if 0 <=? i then default [] (d !! Z.to_nat i) else [];
  EntityToCmd := λ key e,
    match e with
    | StringEntity v => Some ["SET"; key; v]
    | OpaqueEntity => None
    end;
  MakeExpireCmd := λ key t, Some ["PEXPIREAT"; key; Itoa t];
  ToBytes := respMultiBulk;
  tempName := λ _, "/tmp/1.aof"
|}.

Definition bytes (s : string) : list Byte.byte :=
  String.list_byte_of_string s.

(** A disk with the live AOF [appendonly.aof] (inode 1) holding [live],
    and a handler that has it open for appending. *)
Definition liveDisk (live : string) : Disk :=
  {| inodes := {[ 1%nat := bytes live ]};
     names := {[ "appendonly.aof" := 1%nat ]};
     ticks := 0 |}.

Definition liveHandler (dbs : Z) (scratch : database) (cur : Z)
    : @Handler (extern dbs scratch) :=
  @mkHandler (extern dbs scratch)
    "appendonly.aof"
    {| fd_ino := 1; fd_name := "appendonly.aof"; fd_pos := 0;
       fd_append := true; fd_closed := false |}
    cur
    [].

(** The same disk with a temporary file (inode 2) holding [tmp], and the
    rewrite context that has it open, positioned at its end. *)
Definition tmpDisk (live tmp : string) : Disk :=
  {| inodes := {[ 1%nat := bytes live; 2%nat := bytes tmp ]};
     names := {[ "appendonly.aof" := 1%nat; "/tmp/1.aof" := 2%nat ]};
     ticks := 0 |}.

Definition tmpCtx (tmp : string) (size idx : Z) : RewriteCtx :=
  {| tmpFile := {| fd_ino := 2; fd_name := "/tmp/1.aof";
                   fd_pos := String.length tmp;
                   fd_append := false; fd_closed := false |};
     fileSize := size;
     dbIdx := idx |}.

(** A scratch database of two logical databases.  The key [e] has a
    value without a canonical command, and an expiration. *)
Definition scratch2 : database :=
  [ [("k", StringEntity "v", None); ("e", OpaqueEntity, Some 1000)];
    [("k2", StringEntity "v2", Some 5)] ].

(** A scratch database whose only key has no canonical command. *)
Definition scratchOpaque : database := [ [("e", OpaqueEntity, Some 1000)] ].

(** The oracle under which the first system call fails. *)
Definition firstFails : Oracle :=
  λ k, match k with O => IoErr 0 | S _ => IoOk end.

(** The oracle under which the fifth system call fails, having written
    nothing; the others succeed. *)
Definition fifthFails : Oracle :=
  λ k, if Nat.eqb k 4 then IoErr 0 else IoOk.

(** A disk on which the live AOF has been removed while the handler
    still has it open. *)
Definition unlinkedDisk (live : string) : Disk :=
  {| inodes := {[ 1%nat := bytes live ]}; names := ∅; ticks := 0 |}.

(** The oracle under which the system call number [n] fails, having
    written nothing; the others succeed. *)
Definition failsAt (n : nat) : Oracle :=
  λ k, if Nat.eqb k n then IoErr 0 else IoOk.

End aof_fixture.

(* ===================================================================== *)
(** * cluster/tcc.go *)
(* ===================================================================== *)

Module cluster.
Import GoLib.

(** [type CmdLine = [][]byte] *)
Definition CmdLine : Type := list string.

(** [redis.Reply], with the replies of package [protocol] the file
    makes: [OkReply], [MakeIntReply], [MakeErrReply]; [DataReply] stands
    for every other reply that is not an error. *)
Inductive Reply : Type :=
| OkReply
| IntReply (code : Z)
| ErrReply (status : string)
| DataReply (data : string).

(** [protocol.IsErrorReply] *)
Definition IsErrorReply (r : Reply) : bool :=
  match r with
  | ErrReply _ => true
  | _ => false
  end.

(** The database of the node ([database.EmbedDB] and the package-level
    [database.GetRelatedKeys]) and the connection of the client
    ([redis.Connection]) are not part of this development; what the
    transactions use of them is an interface.  The key locks are part of
    the state of the database. *)
Class EmbedDB : Type := {
  DBState : Type;
  Connection : Type;
  GetDBIndex : Connection → Z;
  RWLocks : DBState → Z → list string → list string → DBState;
  RWUnLocks : DBState → Z → list string → list string → DBState;
  GetUndoLogs : DBState → Z → CmdLine → list CmdLine;
  ExecWithLock : DBState → Connection → CmdLine → Reply * DBState;
  GetRelatedKeys : CmdLine → list string * list string
}.

(** The constants of the file; durations are in nanoseconds. *)
Definition maxLockTime : Z := 3 * 1000000000.
Definition waitBeforeCleanTx : Z := 2 * maxLockTime.

Definition createdStatus : Z := 0.
Definition preparedStatus : Z := 1.
Definition committedStatus : Z := 2.
Definition rolledBackStatus : Z := 3.

(** [func genTaskKey(txID string) string] *)
Definition genTaskKey (txID : string) : string := "tx:" +:+ txID.

(** The functions handed to [timewheel.Delay].  Both capture the
    pointer [tx], here the address of the transaction. *)
Inductive Job : Type :=
| AbortJob (tx : nat)
| CleanJob (tx : nat).

Record Task : Type := mkTask {
  delay : Z;
  key : string;
  job : Job
}.

(** [timewheel.Delay(duration, key, job)]: the job is added to the
    pending ones. *)
Definition timewheel_Delay (duration : Z) (k : string) (j : Job)
    (pending : list Task) : list Task :=
  pending ++ [{| delay := duration; key := k; job := j |}].

Section Tcc.
Context `{EmbedDB}.

(** [type Transaction struct]; the mutex [mu] is not represented:
    every function below runs as one step. *)
Record Transaction : Type := mkTransaction {
  id : string;
  cmdLine : CmdLine;
  conn : Connection;
  dbIndex : Z;
  writeKeys : list string;
  readKeys : list string;
  keysLocked : bool;
  undoLog : list CmdLine;
  status : Z
}.

(** The node: its database, the transactions allocated so far, by
    address, the table [cluster.transactions] from transaction ids to
    addresses, and the pending jobs of the timer wheel. *)
Record Cluster : Type := mkCluster {
  self : string;
  db : DBState;
  heap : gmap nat Transaction;
  transactions : gmap string nat;
  timewheel : list Task
}.

(** [type CmdFunc func(cluster *Cluster, c redis.Connection,
    cmdLine CmdLine) redis.Reply] *)
Definition CmdFunc : Type :=
  Cluster → Connection → CmdLine → Reply * Cluster.

(** [var prepareFuncMap = make(map[string]CmdFunc)], as it is once the
    prepare functions are registered. *)
Variable prepareFuncMap : gmap string CmdFunc.

Definition set_keysLocked (tx : Transaction) (b : bool) : Transaction :=
  {| id := id tx; cmdLine := cmdLine tx; conn := conn tx;
     dbIndex := dbIndex tx; writeKeys := writeKeys tx;
     readKeys := readKeys tx; keysLocked := b;
     undoLog := undoLog tx; status := status tx |}.

Definition set_status (tx : Transaction) (s : Z) : Transaction :=
  {| id := id tx; cmdLine := cmdLine tx; conn := conn tx;
     dbIndex := dbIndex tx; writeKeys := writeKeys tx;
     readKeys := readKeys tx; keysLocked := keysLocked tx;
     undoLog := undoLog tx; status := s |}.

Definition set_keys (tx : Transaction) (wk rk : list string) : Transaction :=
  {| id := id tx; cmdLine := cmdLine tx; conn := conn tx;
     dbIndex := dbIndex tx; writeKeys := wk;
     readKeys := rk; keysLocked := keysLocked tx;
     undoLog := undoLog tx; status := status tx |}.

Definition set_undoLog (tx : Transaction) (log : list CmdLine) : Transaction :=
  {| id := id tx; cmdLine := cmdLine tx; conn := conn tx;
     dbIndex := dbIndex tx; writeKeys := writeKeys tx;
     readKeys := readKeys tx; keysLocked := keysLocked tx;
     undoLog := log; status := status tx |}.

(** [func NewTransaction(cluster, c, id, cmdLine) *Transaction], as a
    value; the caller allocates it. *)
Definition NewTransaction (c : Connection) (txID : string)
    (cmd : CmdLine) : Transaction :=
  {| id := txID; cmdLine := cmd; conn := c; dbIndex := GetDBIndex c;
     writeKeys := []; readKeys := []; keysLocked := false;
     undoLog := []; status := createdStatus |}.

(** The methods of [*Transaction] act on the transaction and on the
    database [tx.cluster.db]. *)

(** [func (tx *Transaction) lockKeys()] *)
Definition lockKeys (tx : Transaction) (d : DBState)
    : Transaction * DBState :=
  if negb (keysLocked tx)
  then (set_keysLocked tx true,
        RWLocks d (dbIndex tx) (writeKeys tx) (readKeys tx))
  else (tx, d).

(** [func (tx *Transaction) unLockKeys()] *)
Definition unLockKeys (tx : Transaction) (d : DBState)
    : Transaction * DBState :=
  if keysLocked tx
  then (set_keysLocked tx false,
        RWUnLocks d (dbIndex tx) (writeKeys tx) (readKeys tx))
  else (tx, d).

(** The loop [for _, cmdLine := range tx.undoLog] of
    [rollbackWithLock]; the replies are dropped. *)
Definition execUndoLog (c : Connection) (log : list CmdLine)
    (d : DBState) : DBState :=
  fold_left (λ d cmd, snd (ExecWithLock d c cmd)) log d.

(** [func (tx *Transaction) rollbackWithLock() error] *)
Definition rollbackWithLock (tx : Transaction) (d : DBState)
    : option string * (Transaction * DBState) :=
  let curStatus := status tx in
  if negb (status tx =? curStatus)
  then (Some ("tx " +:+ id tx +:+ " status changed"), (tx, d))
  else if status tx =? rolledBackStatus
  then (None, (tx, d))
  else
    let '(tx, d) := lockKeys tx d in
    let d := execUndoLog (conn tx) (undoLog tx) d in
    let '(tx, d) := unLockKeys tx d in
    (None, (set_status tx rolledBackStatus, d)).

(** [func (tx *Transaction) prepare() error]; [this] is the address
    of [tx], which the function given to the timer wheel captures. *)
Definition prepare (this : nat) (tx : Transaction) (d : DBState)
    (pending : list Task)
    : option string * (Transaction * DBState * list Task) :=
  let '(wk, rk) := GetRelatedKeys (cmdLine tx) in
  let tx := set_keys tx wk rk in
  let '(tx, d) := lockKeys tx d in
  let tx := set_undoLog tx (GetUndoLogs d (dbIndex tx) (cmdLine tx)) in
  let tx := set_status tx preparedStatus in
  let taskKey := genTaskKey (id tx) in
  (None, (tx, d, timewheel_Delay maxLockTime taskKey (AbortJob this) pending)).

Definition set_tx (st : Cluster) (a : nat) (tx : Transaction)
    (d : DBState) : Cluster :=
  {| self := self st; db := d; heap := <[a := tx]> (heap st);
     transactions := transactions st; timewheel := timewheel st |}.

Definition set_timewheel (st : Cluster) (pending : list Task) : Cluster :=
  {| self := self st; db := db st; heap := heap st;
     transactions := transactions st; timewheel := pending |}.

(** [cluster.transactions.Put(txID, tx)] *)
Definition transactions_Put (st : Cluster) (txID : string) (a : nat)
    : Cluster :=
  {| self := self st; db := db st; heap := heap st;
     transactions := <[txID := a]> (transactions st);
     timewheel := timewheel st |}.

(** [cluster.transactions.Remove(txID)] *)
Definition transactions_Remove (st : Cluster) (txID : string) : Cluster :=
  {| self := self st; db := db st; heap := heap st;
     transactions := delete txID (transactions st);
     timewheel := timewheel st |}.

(** What a pending job does when the timer wheel runs it.  [None]
    stands for an address that is not allocated, which a pointer of
    the program never is. *)
Definition runJob (j : Job) (st : Cluster) : option Cluster :=
  match j with
  | AbortJob a =>
      match heap st !! a with
      | None => None
      | Some tx =>
          if status tx =? preparedStatus then
            let '(_, (tx', d')) := rollbackWithLock tx (db st) in
            Some (set_tx st a tx' d')
          else Some st
      end
  | CleanJob a =>
      match heap st !! a with
      | None => None
      | Some tx => Some (transactions_Remove st (id tx))
      end
  end.

(** The timer wheel runs the oldest pending job. *)
Definition fireFirst (st : Cluster) : option Cluster :=
  match timewheel st with
  | [] => Some st
  | t :: pending => runJob (job t) (set_timewheel st pending)
  end.

(** [func execPrepare(cluster, c, cmdLine) redis.Reply];
    [cmdLine] is [Prepare id cmdName args...]. *)
Definition execPrepare (st : Cluster) (c : Connection) (cmd : CmdLine)
    : Reply * Cluster :=
  if Z.of_nat (length cmd) <? 3 then
    (ErrReply "ERR wrong number of arguments for 'prepare' command", st)
  else
    match cmd !! 1%nat, cmd !! 2%nat with
    | Some txID, Some name =>
        let cmdName := ToLower name in
        let a := fresh (dom (heap st)) in
        let tx := NewTransaction c txID (drop 2 cmd) in
        let st := transactions_Put (set_tx st a tx (db st)) txID a in
        let '(err, (tx, d, pending)) :=
          prepare a tx (db st) (timewheel st) in
        let st := set_timewheel (set_tx st a tx d) pending in
        match err with
        | Some e => (ErrReply e, st)
        | None =>
            match prepareFuncMap !! cmdName with
            | Some prepareFunc => prepareFunc st c (drop 2 cmd)
            | None => (OkReply, st)
            end
        end
    | _, _ =>
        (ErrReply "ERR wrong number of arguments for 'prepare' command", st)
    end.

(** [func execRollback(cluster, c, cmdLine) redis.Reply].  The result
    is [None] when the table holds an address that is not
    allocated. *)
Definition execRollback (st : Cluster) (c : Connection) (cmd : CmdLine)
    : option (Reply * Cluster) :=
  if negb (Z.of_nat (length cmd) =? 2) then
    Some (ErrReply "ERR wrong number of arguments for 'rollback' command", st)
  else
    match cmd !! 1%nat with
    | None => None
    | Some txID =>
        match transactions st !! txID with
        | None => Some (IntReply 0, st)
        | Some a =>
            match heap st !! a with
            | None => None
            | Some tx =>
                let '(err, (tx, d)) := rollbackWithLock tx (db st) in
                let st := set_tx st a tx d in
                match err with
                | Some e => Some (ErrReply e, st)
                | None =>
                    Some (IntReply 1,
                          set_timewheel st
                            (timewheel_Delay waitBeforeCleanTx ""
                               (CleanJob a) (timewheel st)))
                end
            end
        end
    end.

(** [fmt.Sprintf("err occurs when rollback: %v, origin err: %s",
    err2, result)] *)
Definition commitErrorMessage (err2 : option string) (result : Reply)
    : string :=
  "err occurs when rollback: "
    +:+ match err2 with Some e => e | None => "<nil>" end
    +:+ ", origin err: "
    +:+ match result with ErrReply s => s | _ => "" end.

(** [func execCommit(cluster, c, cmdLine) redis.Reply] *)
Definition execCommit (st : Cluster) (c : Connection) (cmd : CmdLine)
    : option (Reply * Cluster) :=
  if negb (Z.of_nat (length cmd) =? 2) then
    Some (ErrReply "ERR wrong number of arguments for 'commit' command", st)
  else
    match cmd !! 1%nat with
    | None => None
    | Some txID =>
        match transactions st !! txID with
        | None => Some (IntReply 0, st)
        | Some a =>
            match heap st !! a with
            | None => None
            | Some tx =>
                let '(result, d) := ExecWithLock (db st) c (cmdLine tx) in
                if IsErrorReply result then
                  let '(err2, (tx, d)) := rollbackWithLock tx d in
                  Some (ErrReply (commitErrorMessage err2 result),
                        set_tx st a tx d)
                else
                  let '(tx, d) := unLockKeys tx d in
                  let tx := set_status tx committedStatus in
                  let st := set_tx st a tx d in
                  Some (result,
                        set_timewheel st
                          (timewheel_Delay waitBeforeCleanTx ""
                             (CleanJob a) (timewheel st)))
            end
        end
    end.

(** *** The state of a participant after phase 1

    "Each participant creates a Transaction record and stores it in
    [transactions[txID]]; acquires write and read locks on the key
    sets of the command; generates [undoLog]; transitions [status]
    from Created to Prepared; schedules an abort timer of
    [maxLockTime]." *)
Definition preparedTransaction (d : DBState) (c : Connection)
    (txID : string) (cmd : CmdLine) : Transaction :=
  let wk := fst (GetRelatedKeys cmd) in
  let rk := snd (GetRelatedKeys cmd) in
  {| id := txID; cmdLine := cmd; conn := c; dbIndex := GetDBIndex c;
     writeKeys := wk; readKeys := rk; keysLocked := true;
     undoLog := GetUndoLogs (RWLocks d (GetDBIndex c) wk rk)
                  (GetDBIndex c) cmd;
     status := preparedStatus |}.

Definition preparedCluster (st : Cluster) (c : Connection)
    (txID : string) (cmd : CmdLine) : Cluster :=
  let a := fresh (dom (heap st)) in
  let tx := preparedTransaction (db st) c txID cmd in
  {| self := self st;
     db := RWLocks (db st) (GetDBIndex c) (writeKeys tx) (readKeys tx);
     heap := <[a := tx]> (heap st);
     transactions := <[txID := a]> (transactions st);
     timewheel := timewheel st
                    ++ [{| delay := maxLockTime;
                           key := "tx:" +:+ txID;
                           job := AbortJob a |}] |}.

End Tcc.

(** ** The participant as a state machine

    The commands the node receives and the jobs the timer wheel runs, in
    any order. *)
Section Machine.
Context `{EmbedDB}.
Variable prepareFuncMap : gmap string CmdFunc.

Definition jobAddr (j : Job) : nat :=
  match j with
  | AbortJob a => a
  | CleanJob a => a
  end.

(** The timer wheel runs the pending job number [n] and forgets it. *)
Definition fireAt (n : nat) (st : Cluster) : option Cluster :=
  match timewheel st !! n with
  | None => Some st
  | Some t => runJob (job t) (set_timewheel st (delete n (timewheel st)))
  end.

Inductive Event : Type :=
| EvPrepare (c : Connection) (cmd : CmdLine)
| EvCommit (c : Connection) (cmd : CmdLine)
| EvRollback (c : Connection) (cmd : CmdLine)
| EvTimer (n : nat).

Definition step (st : Cluster) (ev : Event) : option Cluster :=
  match ev with
  | EvPrepare c cmd => Some (snd (execPrepare prepareFuncMap st c cmd))
  | EvCommit c cmd => snd <$> execCommit st c cmd
  | EvRollback c cmd => snd <$> execRollback st c cmd
  | EvTimer n => fireAt n st
  end.

Fixpoint run (evs : list Event) (st : Cluster) : option Cluster :=
  match evs with
  | [] => Some st
  | ev :: evs' =>
      match step st ev with
      | Some st' => run evs' st'
      | None => None
      end
  end.

(** A node that has seen no transaction yet. *)
Definition emptyNode (name : string) (d : DBState) : Cluster :=
  {| self := name; db := d; heap := ∅; transactions := ∅; timewheel := [] |}.

(** The table holds allocated transactions, each under its own id; the
    pending jobs are about allocated transactions; and a transaction has
    its keys locked exactly when it is Prepared. *)
Definition consistent (st : Cluster) : Prop :=
  (∀ (txID : string) (a : nat),
     transactions st !! txID = Some a →
     ∃ tx, heap st !! a = Some tx ∧ id tx = txID) ∧
  (∀ t : Task, t ∈ timewheel st → is_Some (heap st !! jobAddr (job t))) ∧
  (∀ (a : nat) (tx : Transaction),
     heap st !! a = Some tx →
     (keysLocked tx = true ↔ status tx = preparedStatus)).

(** The prepare functions decide and change nothing. *)
Definition readOnlyHooks : Prop :=
  ∀ (name : string) (f : CmdFunc),
    prepareFuncMap !! name = Some f →
    ∀ (st : Cluster) (c : Connection) (cmd : CmdLine), snd (f st c cmd) = st.

End Machine.

(** ** The coordinator

    [cluster.relay(node, c, args)] sends a command to a peer and returns
    its reply.  The peers are not part of this development: the reply
    of a peer is what [answer] makes of the messages sent so far, and
    the messages are recorded in [sent].  The order in which [range]
    visits the keys of [groupMap] is not specified; the functions below
    take the keys in the order of the visit. *)
Section Coordinator.
Context `{EmbedDB}.
Variable prepareFuncMap : gmap string CmdFunc.
Variable answer : list (string * CmdLine) → string → CmdLine → Reply.

Record Coordinator : Type := mkCoordinator {
  local : Cluster;
  sent : list (string * CmdLine)
}.

Definition set_local (co : Coordinator) (st : Cluster) : Coordinator :=
  {| local := st; sent := sent co |}.

Definition relay (co : Coordinator) (peer : string) (c : Connection)
    (args : CmdLine) : Reply * Coordinator :=
  (answer (sent co) peer args,
   {| local := local co; sent := sent co ++ [(peer, args)] |}).

(** Modelled from the spec: [makeArgs] is in a file of package [cluster]
    that is not at hand; "coordinator sends [Commit txID]", "[Rollback
    txID]": the command name followed by its arguments. *)
Definition makeArgs (cmd : string) (args : list string) : CmdLine :=
  cmd :: args.

(** The loop of [requestRollback]; the replies are dropped. *)
Fixpoint rollbackLoop (c : Connection) (args : CmdLine)
    (visit : list string) (co : Coordinator) : option Coordinator :=
  match visit with
  | [] => Some co
  | node :: visit' =>
      if String.eqb node (self (local co)) then
        match execRollback (local co) c args with
        | None => None
        | Some (_, st) => rollbackLoop c args visit' (set_local co st)
        end
      else rollbackLoop c args visit' (snd (relay co node c args))
  end.

(** [func requestRollback(cluster, c, txID, groupMap)] *)
Definition requestRollback (co : Coordinator) (c : Connection) (txID : Z)
    (visit : list string) : option Coordinator :=
  rollbackLoop c (makeArgs "rollback" [Itoa txID]) visit co.

(** The loop of [requestCommit]: it ends at the first error reply, which
    is returned with the replies gathered so far. *)
Fixpoint commitLoop (c : Connection) (args : CmdLine)
    (visit : list string) (co : Coordinator) (respList : list Reply)
    : option (list Reply * option Reply * Coordinator) :=
  match visit with
  | [] => Some (respList, None, co)
  | node :: visit' =>
      let reply :=
        if String.eqb node (self (local co)) then
          match execCommit (local co) c args with
          | None => None
          | Some (resp, st) => Some (resp, set_local co st)
          end
        else Some (relay co node c args) in
      match reply with
      | None => None
      | Some (resp, co) =>
          if IsErrorReply resp then Some (respList, Some resp, co)
          else commitLoop c args visit' co (respList ++ [resp])
      end
  end.

(** [func requestCommit(cluster, c, txID, groupMap)]; [visit] is the order
    of its own loop and [visit'] that of the loop of [requestRollback]. *)
Definition requestCommit (co : Coordinator) (c : Connection) (txID : Z)
    (visit visit' : list string)
    : option (option (list Reply) * option Reply * Coordinator) :=
  match commitLoop c (makeArgs "commit" [Itoa txID]) visit co [] with
  | None => None
  | Some (respList, Some errReply, co) =>
      match requestRollback co c txID visit' with
      | None => None
      | Some co => Some (None, Some errReply, co)
      end
  | Some (respList, None, co) => Some (Some respList, None, co)
  end.

(** [func (cluster *Cluster) relayPrepare(node, c, cmdLine) redis.Reply] *)
Definition relayPrepare (co : Coordinator) (node : string) (c : Connection)
    (cmd : CmdLine) : Reply * Coordinator :=
  if String.eqb node (self (local co)) then
    let '(resp, st) := execPrepare prepareFuncMap (local co) c cmd in
    (resp, set_local co st)
  else relay co node c cmd.

(** The peers among the nodes visited. *)
Definition peersOf (co : Coordinator) (visit : list string) : list string :=
  filter (λ node, node ≠ self (local co)) visit.

End Coordinator.

End cluster.

(* ===================================================================== *)
(** * A small database for the transactions

    It is used to run the participant on concrete commands.  It holds
    strings, knows [SET key value], [SETNX key value] and [DEL key], and
    keeps the list of the lock sets that are held.  A connection is the
    index of its database.  The prepare function of [SETNX] rejects the
    transaction when the key exists. *)
(* ===================================================================== *)

Module cluster_fixture.
Import GoLib cluster.

Record toyDB : Type := mkToyDB {
  store : gmap string string;
  held : list (Z * list string * list string)
}.

Definition unknownCommand : Reply := ErrReply "ERR unknown command".

Definition toyExec (d : toyDB) (c : Z) (cmd : CmdLine) : Reply * toyDB :=
  match cmd with
  | [name; k; v] =>
      if String.eqb (ToLower name) "set" || String.eqb (ToLower name) "setnx"
      then (OkReply, {| store := <[k := v]> (store d); held := held d |})
      else (unknownCommand, d)
  | [name; k] =>
      if String.eqb (ToLower name) "del"
      then (IntReply (if store d !! k is Some _ then 1 else 0),
            {| store := delete k (store d); held := held d |})
      else (unknownCommand, d)
  | _ => (unknownCommand, d)
  end.

Definition toyUndo (d : toyDB) (idx : Z) (cmd : CmdLine) : list CmdLine :=
  match cmd with
  | [_; k; _] =>
      match store d !! k with
      | Some old => [["SET"; k; old]]
      | None => [["DEL"; k]]
      end
  | _ => []
  end.

Definition toyKeys (cmd : CmdLine) : list string * list string :=
  match cmd with
  | _ :: k :: _ => ([k], [])
  | _ => ([], [])
  end.

Definition sameLocks (a b : Z * list string * list string) : bool :=
  bool_decide (a = b).

Fixpoint release (l : Z * list string * list string)
    (ls : list (Z * list string * list string))
    : list (Z * list string * list string) :=
  match ls with
  | [] => []
  | x :: ls' => if sameLocks l x then ls' else x :: release l ls'
  end.

#[local] Instance toy : EmbedDB := {|
  DBState := toyDB;
  Connection := Z;
  GetDBIndex := λ c, c;
  RWLocks := λ d idx wk rk,
    {| store := store d; held := (idx, wk, rk) :: held d |};
  RWUnLocks := λ d idx wk rk,
    {| store := store d; held := release (idx, wk, rk) (held d) |};
  GetUndoLogs := toyUndo;
  ExecWithLock := toyExec;
  GetRelatedKeys := toyKeys
|}.

Definition prepareSetNX : @CmdFunc toy :=
  λ st c cmd,
    match cmd with
    | [_; k; _] =>
        match store (@db toy st) !! k with
        | Some _ => (ErrReply "ERR key exists", st)
        | None => (OkReply, st)
        end
    | _ => (ErrReply "ERR wrong number of arguments", st)
    end.

Definition hooks : gmap string (@CmdFunc toy) :=
  {[ "setnx" := prepareSetNX ]}.

(** A node with the given keys and no transaction. *)
Definition node (kvs : gmap string string) : @Cluster toy :=
  @mkCluster toy "A" {| store := kvs; held := [] |} ∅ ∅ [].

(** The scenario of a coordinator that falls silent: [Prepare 7 SET k v]
    arrives, the abort timer fires, and [Commit 7] arrives late. *)
Definition silent_prepared : Reply * @Cluster toy :=
  @execPrepare toy hooks (node ∅) 0 ["prepare"; "7"; "SET"; "k"; "v"].

Definition silent_aborted : option (@Cluster toy) :=
  @fireFirst toy (snd silent_prepared).

Definition silent_committed : option (Reply * @Cluster toy) :=
  match silent_aborted with
  | Some st => @execCommit toy st 0 ["commit"; "7"]
  | None => None
  end.

(** The node after the abort timer has fired: the transaction is still
    in the table, rolled back, and its keys are unlocked. *)
Definition rolledBackTx : @Transaction toy :=
  @mkTransaction toy "7" ["SET"; "k"; "v"] 0 0 ["k"] [] false
    [["DEL"; "k"]] rolledBackStatus.

Definition rolledBackNode : @Cluster toy :=
  @mkCluster toy "A" {| store := ∅; held := [] |}
    {[ 0%nat := rolledBackTx ]} {[ "7" := 0%nat ]} [].

(** The node after the late [Commit 7]. *)
Definition committedTx : @Transaction toy :=
  @mkTransaction toy "7" ["SET"; "k"; "v"] 0 0 ["k"] [] false
    [["DEL"; "k"]] committedStatus.

Definition committedNode : @Cluster toy :=
  @mkCluster toy "A" {| store := {[ "k" := "v" ]}; held := [] |}
    {[ 0%nat := committedTx ]} {[ "7" := 0%nat ]}
    [{| delay := waitBeforeCleanTx; key := ""; job := CleanJob 0 |}].

(** The transaction the table has under [txID]. *)
Definition lookupTx (st : @Cluster toy) (txID : string)
    : option (@Transaction toy) :=
  match @transactions toy st !! txID with
  | Some a => @heap toy st !! a
  | None => None
  end.

(** A node on which [SETNX k v] has been prepared although [k] exists. *)
Definition setnx_rejected : Reply * @Cluster toy :=
  @execPrepare toy hooks (node {[ "k" := "old" ]}) 0
    ["prepare"; "8"; "SETNX"; "k"; "v"].

(** The node after [Prepare 7 SET k v]. *)
Definition preparedTx : @Transaction toy :=
  @mkTransaction toy "7" ["SET"; "k"; "v"] 0 0 ["k"] [] true
    [["DEL"; "k"]] preparedStatus.

Definition preparedNode : @Cluster toy :=
  @mkCluster toy "A" {| store := ∅; held := [(0, ["k"], [])] |}
    {[ 0%nat := preparedTx ]} {[ "7" := 0%nat ]}
    [{| delay := maxLockTime; key := "tx:7"; job := AbortJob 0 |}].

(** The node after [Prepare 9 INCR k 1], a command the database does not
    know. *)
Definition failingTx : @Transaction toy :=
  @mkTransaction toy "9" ["INCR"; "k"; "1"] 0 0 ["k"] [] true
    [["DEL"; "k"]] preparedStatus.

Definition failingNode : @Cluster toy :=
  @mkCluster toy "A" {| store := ∅; held := [(0, ["k"], [])] |}
    {[ 0%nat := failingTx ]} {[ "9" := 0%nat ]}
    [{| delay := maxLockTime; key := "tx:9"; job := AbortJob 0 |}].

(** A coordinator on node [A] whose peer [B] refuses to commit; every
    other command of a peer is answered with the integer 1. *)
Definition refusing (log : list (string * CmdLine)) (peer : string)
    (args : CmdLine) : Reply :=
  match args with
  | name :: _ =>
      if String.eqb peer "B" && String.eqb name "commit"
      then ErrReply "ERR refused"
      else IntReply 1
  | [] => IntReply 1
  end.

Definition coordinatorA : @Coordinator toy :=
  @mkCoordinator toy (node ∅) [].

End cluster_fixture.
(* ===================================================================== *)
(** * Properties *)
(* ===================================================================== *)

Section GoLibFacts.
Import GoLib.

Example Itoa_samples : Itoa 0 = "0" ∧ Itoa 7 = "7" ∧ Itoa 15 = "15".
Proof. repeat split; reflexivity. Qed.

Example Index_samples :
  Index "chicken" "ken" = 4 ∧ Index "chicken" "dmr" = -1 ∧
  Index "a{b}" "{" = 1 ∧ Index "abc" "" = 0.
Proof. repeat split; reflexivity. Qed.

(** The check value of CRC-32/IEEE. *)
Example ChecksumIEEE_check : ChecksumIEEE "123456789" = 3421780262.
Proof. vm_compute. reflexivity. Qed.

End GoLibFacts.

(* --------------------------------------------------------------------- *)
(** ** The binary search of [sort.Search] *)
(* --------------------------------------------------------------------- *)

Section SearchFacts.
Import GoLib.

Lemma shiftr1_between (i j : Z) :
  0 ≤ i → i < j → i ≤ Z.shiftr (i + j) 1 < j.
Proof.
  intros Hi Hij. rewrite Z.shiftr_div_pow2 by lia.
  change (2 ^ 1) with 2. split.
  - apply Z.div_le_lower_bound; lia.
  - apply Z.div_lt_upper_bound; lia.
Qed.

(** The loop keeps [i <= j] and leaves the interval it was started on. *)
Lemma search_loop_range (fuel : nat) (f : Z → bool) (i j : Z) :
  0 ≤ i → i ≤ j → i ≤ search_loop fuel f i j ≤ j.
Proof.
  revert i j. induction fuel as [|fuel IH]; intros i j Hi Hij; simpl.
  - lia.
  - destruct (Z.ltb_spec i j) as [Hlt|Hge]; [|lia].
    pose proof (shiftr1_between i j Hi Hlt) as Hh.
    destruct (f (Z.shiftr (i + j) 1)); simpl.
    + specialize (IH i (Z.shiftr (i + j) 1)). lia.
    + specialize (IH (Z.shiftr (i + j) 1 + 1) j). lia.
Qed.

(** With [j - i] units of fuel the loop ends by its own test [i < j]:
    everything below the result is rejected by [f], and the result, when
    it is below [j], is accepted, provided [f] is monotone on [[i, j)]. *)
Lemma search_loop_least (fuel : nat) (f : Z → bool) (i j : Z) :
  0 ≤ i → i ≤ j → (Z.to_nat (j - i) ≤ fuel)%nat →
  (∀ a b, i ≤ a → a ≤ b → b < j → f a = true → f b = true) →
  (∀ k, i ≤ k → k < search_loop fuel f i j → f k = false) ∧
  (∀ k, search_loop fuel f i j ≤ k → k < j → f k = true).
Proof.
  revert i j. induction fuel as [|fuel IH]; intros i j Hi Hij Hfuel Hmono; simpl.
  - split; intros k ? ?; lia.
  - destruct (Z.ltb_spec i j) as [Hlt|Hge]; [|split; intros k ? ?; lia].
    pose proof (shiftr1_between i j Hi Hlt) as Hh.
    set (h := Z.shiftr (i + j) 1) in *.
    destruct (f h) eqn:Hfh; simpl.
    + destruct (IH i h) as [IH1 IH2]; [lia | lia | lia | |].
      { intros a b ? ? ?. apply Hmono; lia. }
      split; [exact IH1|].
      intros k Hk1 Hk2. destruct (Z.lt_ge_cases k h) as [?|?].
      * apply IH2; lia.
      * apply (Hmono h k); [lia | lia | lia | exact Hfh].
    + destruct (IH (h + 1) j) as [IH1 IH2]; [lia | lia | lia | |].
      { intros a b ? ? ?. apply Hmono; lia. }
      split; [|intros k ? ?; apply IH2; [lia|lia]].
      intros k Hk1 Hk2. destruct (Z.lt_ge_cases k (h + 1)) as [?|?].
      * destruct (f k) eqn:Hfk; [|reflexivity].
        rewrite <- Hfh. symmetry. apply (Hmono k h); [lia | lia | lia | exact Hfk].
      * apply IH1; lia.
Qed.

(** [Search n f] lies in [[0, n]]. *)
Lemma Search_range (n : Z) (f : Z → bool) : 0 ≤ n → 0 ≤ Search n f ≤ n.
Proof. intros Hn. unfold Search. apply search_loop_range; lia. Qed.

(** [Search n f] is the smallest index accepted by a monotone [f], and
    [n] when no index is accepted. *)
Lemma Search_least (n : Z) (f : Z → bool) :
  0 ≤ n →
  (∀ a b, 0 ≤ a → a ≤ b → b < n → f a = true → f b = true) →
  (∀ k, 0 ≤ k → k < Search n f → f k = false) ∧
  (∀ k, Search n f ≤ k → k < n → f k = true).
Proof.
  intros Hn Hmono. unfold Search.
  apply search_loop_least; [lia | lia | | exact Hmono].
  replace (n - 0) with n by lia. lia.
Qed.

End SearchFacts.

(* --------------------------------------------------------------------- *)
(** ** Hash tags: [getPartitionKey] *)
(* --------------------------------------------------------------------- *)

Section PartitionKeyFacts.
Import GoLib consistenthash.

Example getPartitionKey_samples :
  getPartitionKey "{user1}profile" = Some "user1" ∧
  getPartitionKey "x{ab}y" = Some "ab" ∧
  getPartitionKey "plain" = Some "plain" ∧
  getPartitionKey "a{b" = Some "a{b" ∧
  getPartitionKey "{}x" = Some "{}x" ∧
  getPartitionKey "{a}b}" = Some "a".
Proof. repeat split; reflexivity. Qed.

Lemma append_cons (c : ascii) (s r : string) :
  String c s +:+ r = String c (s +:+ r).
Proof. reflexivity. Qed.

Lemma append_nil (r : string) : "" +:+ r = r.
Proof. reflexivity. Qed.

Lemma append_length (s r : string) :
  String.length (s +:+ r) = (String.length s + String.length r)%nat.
Proof.
  induction s as [|c s IH]; [reflexivity|].
  rewrite append_cons. simpl. rewrite IH. reflexivity.
Qed.

Lemma untilClose_length (s : string) :
  (String.length (untilClose s) ≤ String.length s)%nat.
Proof.
  induction s as [|c s IH]; simpl; [lia|].
  destruct (Ascii.eqb c "}"); simpl; lia.
Qed.

Lemma prefix_close_cons (c : ascii) (s : string) :
  String.prefix "}" (String c s) = Ascii.eqb c "}".
Proof.
  cbn [String.prefix]. destruct (ascii_dec "}" c) as [<-|Hne].
  - destruct s; reflexivity.
  - symmetry. apply Ascii.eqb_neq. congruence.
Qed.

(** Scanning [tag ++ "}" ++ rest] for [}] stops after [untilClose tag]. *)
Lemma Index_from_close (i : Z) (tag rest : string) :
  Index_from i (tag +:+ String "}" rest) "}"
  = i + len (untilClose tag).
Proof.
  revert i. induction tag as [|c tag IH]; intros i.
  - change (Index_from i (String "}" rest) "}" = i + 0).
    unfold Index_from. rewrite prefix_close_cons. simpl. lia.
  - change (String c tag +:+ String "}" rest)
      with (String c (tag +:+ String "}" rest)).
    cbn [Index_from untilClose]. rewrite prefix_close_cons.
    destruct (Ascii.eqb c "}"); unfold len; simpl String.length; [lia|].
    rewrite IH. unfold len. lia.
Qed.

Lemma substring_untilClose (tag rest : string) :
  String.substring 0 (String.length (untilClose tag)) (tag +:+ rest)
  = untilClose tag.
Proof.
  induction tag as [|c tag IH].
  - rewrite append_nil. destruct rest; reflexivity.
  - rewrite append_cons. simpl.
    destruct (Ascii.eqb c "}"); simpl; [reflexivity|].
    f_equal. exact IH.
Qed.

Lemma untilClose_nonempty (tag : string) :
  tag ≠ "" → String.prefix "}" tag = false →
  (0 < String.length (untilClose tag))%nat.
Proof.
  destruct tag as [|c tag]; [congruence|].
  intros _. rewrite prefix_close_cons. simpl. intros ->. simpl. lia.
Qed.

(** The partition key of a key [{tag}suffix] is the same for every
    suffix, as soon as the tag is not empty and does not begin with a
    closing brace. *)
Lemma getPartitionKey_tagged (tag sfx : string) :
  tag ≠ "" → String.prefix "}" tag = false →
  getPartitionKey ("{" +:+ tag +:+ "}" +:+ sfx) = Some (untilClose tag).
Proof.
  intros Hne Hpre.
  pose proof (untilClose_nonempty tag Hne Hpre) as Hpos.
  pose proof (untilClose_length tag) as Hle.
  change ("{" +:+ tag +:+ "}" +:+ sfx)
    with (String "{" (tag +:+ String "}" sfx)).
  unfold getPartitionKey, Index.
  assert (Hbeg : Index_from 0 (String "{" (tag +:+ String "}" sfx)) "{" = 0).
  { cbn [Index_from String.prefix].
    destruct (ascii_dec "{" "{") as [_|Hc]; [|congruence].
    destruct (tag +:+ String "}" sfx); reflexivity. }
  assert (Hend : Index_from 0 (String "{" (tag +:+ String "}" sfx)) "}"
                 = 1 + len (untilClose tag)).
  { cbn [Index_from]. rewrite prefix_close_cons.
    change (Ascii.eqb "{" "}") with false. cbv iota.
    apply Index_from_close. }
  rewrite Hbeg, Hend. unfold len.
  destruct (Z.eqb_spec 0 (-1)) as [?|_]; [lia|].
  destruct (Z.eqb_spec (1 + Z.of_nat (String.length (untilClose tag))) (-1))
    as [?|_]; [lia|].
  destruct (Z.eqb_spec (1 + Z.of_nat (String.length (untilClose tag))) (0 + 1))
    as [?|_]; [lia|].
  cbn [orb]. unfold slice, len.
  assert (Hlen : String.length (String "{" (tag +:+ String "}" sfx))
                 = S (String.length tag + S (String.length sfx))).
  { simpl. f_equal. rewrite append_length. reflexivity. }
  rewrite Hlen.
  destruct (Z.leb_spec 0 (0 + 1)) as [_|?]; [|lia].
  destruct (Z.leb_spec (0 + 1) (1 + Z.of_nat (String.length (untilClose tag))))
    as [_|?]; [|lia].
  destruct (Z.leb_spec (1 + Z.of_nat (String.length (untilClose tag)))
              (Z.of_nat (S (String.length tag + S (String.length sfx)))))
    as [_|?]; [|lia].
  cbn [andb]. f_equal.
  replace (Z.to_nat (0 + 1)) with 1%nat by lia.
  replace (Z.to_nat (1 + Z.of_nat (String.length (untilClose tag)) - (0 + 1)))
    with (String.length (untilClose tag)) by lia.
  cbn [String.substring]. apply substring_untilClose.
Qed.

End PartitionKeyFacts.

(* --------------------------------------------------------------------- *)
(** ** When [getPartitionKey] panics *)
(* --------------------------------------------------------------------- *)

Section PartitionKeyPanic.
Import GoLib consistenthash.

Lemma prefix_open_cons (c : ascii) (s : string) :
  String.prefix "{" (String c s) = Ascii.eqb c "{".
Proof.
  cbn [String.prefix]. destruct (ascii_dec "{" c) as [<-|Hne].
  - destruct s; reflexivity.
  - symmetry. apply Ascii.eqb_neq. congruence.
Qed.

(** A one-character search either fails or lands inside the string. *)
Lemma Index_from_range (i : Z) (s : string) (c : ascii) :
  Index_from i s (String c "") = -1 ∨
  i ≤ Index_from i s (String c "") < i + len s.
Proof.
  revert i. induction s as [|a s IH]; intros i.
  - left. reflexivity.
  - cbn [Index_from].
    destruct (String.prefix (String c "") (String a s)).
    + right. unfold len. simpl String.length. lia.
    + destruct (IH (i + 1)) as [->|H]; [left; reflexivity|].
      right. unfold len in *. simpl String.length. lia.
Qed.

(** The two braces are never found at the same place. *)
Lemma Index_from_braces_differ (i : Z) (s : string) :
  0 ≤ i → Index_from i s "{" = Index_from i s "}" → Index_from i s "{" = -1.
Proof.
  revert i. induction s as [|a s IH]; intros i Hi.
  - reflexivity.
  - cbn [Index_from]. rewrite prefix_open_cons, prefix_close_cons.
    destruct (Ascii.eqb_spec a "{") as [->|Hopen].
    + change (Ascii.eqb "{" "}") with false. cbv iota.
      destruct (Index_from_range (i + 1) s "}") as [->|H]; lia.
    + destruct (Ascii.eqb_spec a "}") as [->|Hclose].
      * destruct (Index_from_range (i + 1) s "{") as [->|H]; lia.
      * apply IH. lia.
Qed.

(** [getPartitionKey] panics exactly on the keys whose first closing
    brace comes before their first opening brace. *)
Lemma getPartitionKey_panics_iff (key : string) :
  getPartitionKey key = None ↔ 0 ≤ Index key "}" < Index key "{".
Proof.
  unfold getPartitionKey, slice.
  pose proof (Index_from_range 0 key "{") as Ho.
  pose proof (Index_from_range 0 key "}") as Hc.
  pose proof (Index_from_braces_differ 0 key ltac:(lia)) as Hd.
  fold (Index key "{") in Ho, Hd. fold (Index key "}") in Hc, Hd.
  destruct (Z.eqb_spec (Index key "{") (-1)) as [E1|E1]; [split; [discriminate|lia]|].
  destruct (Z.eqb_spec (Index key "}") (-1)) as [E2|E2]; [split; [discriminate|lia]|].
  destruct (Z.eqb_spec (Index key "}") (Index key "{" + 1)) as [E3|E3];
    [split; [discriminate|lia]|].
  cbn [orb].
  destruct (Z.leb_spec 0 (Index key "{" + 1)); [|lia].
  destruct (Z.leb_spec (Index key "{" + 1) (Index key "}")).
  - destruct (Z.leb_spec (Index key "}") (len key)); [|lia].
    cbn [andb]. split; [discriminate|lia].
  - cbn [andb]. split; [intros _|reflexivity].
    assert (Index key "{" ≠ Index key "}") by (intros E; apply E1, Hd, E).
    lia.
Qed.

(** Where a search ends does not depend on the offset it counts from. *)
Lemma Index_from_shift (i j : Z) (s sub : string) :
  Index_from i s sub = -1 ∧ Index_from j s sub = -1 ∨
  Index_from j s sub - j = Index_from i s sub - i ∧ i ≤ Index_from i s sub.
Proof.
  revert i j. induction s as [|a s IH]; intros i j; cbn [Index_from].
  - destruct (String.prefix sub ""); [right; lia | left; tauto].
  - destruct (String.prefix sub (String a s)); [right; lia|].
    destruct (IH (i + 1) (j + 1)) as [?|?]; [left; tauto | right; lia].
Qed.

(** Past the first occurrence of a character, nothing is to be found
    when nothing was to be found in the whole string. *)
Lemma Index_from_skip_none (i j : Z) (n : nat) (s : string) (c : ascii) :
  0 ≤ i →
  Index_from i s (String c "") = -1 →
  Index_from j (skip n s) (String c "") = -1.
Proof.
  revert i j s. induction n as [|n IH]; intros i j s Hi Hs.
  - cbn [skip].
    destruct (Index_from_shift i j s (String c "")) as [[_ E]|[_ E]];
      [exact E | lia].
  - destruct s as [|a s]; [reflexivity|].
    cbn [skip]. cbn [Index_from] in Hs.
    destruct (String.prefix (String c "") (String a s)); [lia|].
    apply (IH (i + 1)); [lia | exact Hs].
Qed.

(** What is found at offset [e], at least [n] characters into the
    string, is found at the same offset after the first [n] characters
    are skipped. *)
Lemma Index_from_skip (i e : Z) (n : nat) (s : string) (c : ascii) :
  0 ≤ i →
  Index_from i s (String c "") = e → i + Z.of_nat n ≤ e →
  Index_from (i + Z.of_nat n) (skip n s) (String c "") = e.
Proof.
  revert i s. induction n as [|n IH]; intros i s Hi He Hle.
  - cbn [skip]. replace (i + Z.of_nat 0) with i by lia. exact He.
  - destruct s as [|a s].
    + cbn [Index_from String.prefix] in He. lia.
    + cbn [skip]. cbn [Index_from] in He.
      destruct (String.prefix (String c "") (String a s)); [lia|].
      replace (i + Z.of_nat (S n)) with (i + 1 + Z.of_nat n) by lia.
      apply IH; [lia | exact He | lia].
Qed.

Lemma substring_skip (n m : nat) (s : string) :
  String.substring 0 m (skip n s) = String.substring n m s.
Proof.
  revert s. induction n as [|n IH]; intros s.
  - reflexivity.
  - destruct s as [|a s]; cbn [skip String.substring].
    + destruct m; reflexivity.
    + apply IH.
Qed.

(** On every key on which it does not panic, [getPartitionKey] returns
    the partition key the specification describes. *)
Lemma getPartitionKey_refines_spec (key : string) :
  ¬ (0 ≤ Index key "}" < Index key "{") →
  getPartitionKey key = Some (partitionKey_spec key).
Proof.
  intros Hok. unfold getPartitionKey, partitionKey_spec, slice.
  pose proof (Index_from_range 0 key "{") as Ho.
  pose proof (Index_from_range 0 key "}") as Hc.
  pose proof (Index_from_braces_differ 0 key ltac:(lia)) as Hd.
  fold (Index key "{") in Ho, Hd. fold (Index key "}") in Hc, Hd.
  set (beg := Index key "{") in *. set (fin := Index key "}") in *.
  destruct (Z.eqb_spec beg (-1)) as [E1|E1]; [reflexivity|].
  set (n := Z.to_nat (beg + 1)).
  destruct (Z.eqb_spec fin (-1)) as [E2|E2].
  - cbn [orb]. unfold Index.
    rewrite (Index_from_skip_none 0 0 n key "}" ltac:(lia) E2). reflexivity.
  - assert (Hfin : beg + 1 ≤ fin).
    { assert (beg ≠ fin) by (intros E; apply E1, Hd, E). lia. }
    assert (Hoff : Index (skip n key) "}" = fin - (beg + 1)).
    { pose proof (Index_from_skip 0 fin n key "}" ltac:(lia) eq_refl ltac:(lia))
        as Hs.
      unfold Index.
      destruct (Index_from_shift 0 (0 + Z.of_nat n) (skip n key) "}")
        as [[_ E]|[E _]]; lia. }
    rewrite Hoff.
    destruct (Z.eqb_spec fin (beg + 1)) as [E3|E3].
    + replace (fin - (beg + 1) =? 0) with true by (symmetry; apply Z.eqb_eq; lia).
      rewrite !orb_true_r. reflexivity.
    + cbn [orb].
      destruct (Z.eqb_spec (fin - (beg + 1)) (-1)) as [?|_]; [lia|].
      destruct (Z.eqb_spec (fin - (beg + 1)) 0) as [?|_]; [lia|].
      cbn [orb].
      destruct (Z.leb_spec 0 (beg + 1)); [|lia].
      destruct (Z.leb_spec (beg + 1) fin); [|lia].
      destruct (Z.leb_spec fin (len key)); [|lia].
      cbn [andb]. f_equal. symmetry. apply substring_skip.
Qed.

(** C4.  The claim that the extraction is total does not hold of
    [getPartitionKey]: on the key [}{x}] the closing brace is looked for
    from the start of the key, is found at offset 0, before the opening
    brace at offset 1, and the slice [key[2:0]] panics; the partition
    key the specification describes there is [x]. *)
Theorem getPartitionKey_panics_on_early_close_brace :
  getPartitionKey "}{x}" = None ∧
  Index "}{x}" "{" = 1 ∧ Index "}{x}" "}" = 0 ∧
  partitionKey_spec "}{x}" = "x".
Proof. repeat split; reflexivity. Qed.

End PartitionKeyPanic.

(* --------------------------------------------------------------------- *)
(** ** [PickNode] and hash tags *)
(* --------------------------------------------------------------------- *)

Section PickNodeFacts.
Import GoLib consistenthash.

(** The ring of the end-to-end scenario: [New(3, CRC32)],
    [AddNode("A","B","C")]. *)
Example ring_ABC_scenario :
  let m := AddNode (New 3 None) ["A"; "B"; "C"] in
  PickNode m "{user1}profile" = Some "A" ∧
  PickNode m "{user1}wallet" = Some "A" ∧
  PickNode m "{user2}profile" = Some "B" ∧
  PickNode (New 3 None) "k" = Some "".
Proof. vm_compute. repeat split; reflexivity. Qed.

(** On a ring that is not empty, [PickNode] returns a node whenever
    [getPartitionKey] returns a partition key: the index it reads
    [m.keys] at is in range. *)
Lemma PickNode_returns (m : Map) (key pk : string) :
  IsEmpty m = false → getPartitionKey key = Some pk →
  is_Some (PickNode m key).
Proof.
  intros Hne Hpk. unfold PickNode. rewrite Hne, Hpk.
  unfold IsEmpty in Hne. apply Z.eqb_neq in Hne.
  set (n := Z.of_nat (length (keys m))) in *.
  set (h := uint32 (hashFunc m pk)).
  pose proof (Search_range n (keyAtLeast m h) ltac:(lia)) as Hr.
  set (idx := Search n (keyAtLeast m h)) in *.
  assert (Hi : 0 ≤ (if idx =? n then 0 else idx) < n).
  { destruct (Z.eqb_spec idx n); lia. }
  unfold keys_at. destruct (Z.leb_spec 0 (if idx =? n then 0 else idx)); [|lia].
  destruct (lookup_lt_is_Some_2 (keys m) (Z.to_nat (if idx =? n then 0 else idx)))
    as [k Hk]; [subst n; lia|].
  rewrite Hk. eauto.
Qed.

(** C5, as amended.  On every ring that is not empty, and for every tag
    that is not empty and does not begin with a closing brace, the keys
    [{tag}x] and [{tag}y] are sent to the same node, and [PickNode] does
    return a node for them. *)
Theorem PickNode_same_tag_same_node (m : Map) (tag : string) :
  IsEmpty m = false →
  tag ≠ "" → String.prefix "}" tag = false →
  PickNode m ("{" +:+ tag +:+ "}" +:+ "x")
  = PickNode m ("{" +:+ tag +:+ "}" +:+ "y")
  ∧ is_Some (PickNode m ("{" +:+ tag +:+ "}" +:+ "x")).
Proof.
  intros Hne Htag Hpre. split.
  - unfold PickNode.
    rewrite (getPartitionKey_tagged tag "x" Htag Hpre).
    rewrite (getPartitionKey_tagged tag "y" Htag Hpre).
    reflexivity.
  - apply (PickNode_returns m _ (untilClose tag) Hne).
    apply getPartitionKey_tagged; assumption.
Qed.

Lemma PickNode_same_tag_same_node_witness :
  let m := AddNode (New 3 None) ["A"; "B"; "C"] in
  PickNode m "{user1}x" = PickNode m "{user1}y"
  ∧ is_Some (PickNode m "{user1}x").
Proof.
  apply (PickNode_same_tag_same_node
           (AddNode (New 3 None) ["A"; "B"; "C"]) "user1").
  - vm_compute. reflexivity.
  - discriminate.
  - vm_compute. reflexivity.
Defined.

(** C5, as stated, fails for the empty tag: the braces of [{}x] are
    adjacent, the whole key is hashed, and on the ring of three nodes
    with the default hash function [{}x] and [{}y] go to different
    nodes. *)
Lemma PickNode_empty_tag_counterexample :
  let m := AddNode (New 3 None) ["A"; "B"; "C"] in
  IsEmpty m = false ∧
  PickNode m ("{" +:+ "" +:+ "}" +:+ "x") = Some "C" ∧
  PickNode m ("{" +:+ "" +:+ "}" +:+ "y") = Some "B" ∧
  PickNode m ("{" +:+ "" +:+ "}" +:+ "x")
  ≠ PickNode m ("{" +:+ "" +:+ "}" +:+ "y").
Proof. vm_compute. repeat split; try reflexivity. discriminate. Qed.

End PickNodeFacts.

(* --------------------------------------------------------------------- *)
(** ** [AddNode]: the ring invariant *)
(* --------------------------------------------------------------------- *)

Section AddNodeFacts.
Import GoLib consistenthash.

Lemma addVirtualNode_owned (key : string) (m : Map) (i : Z) :
  owned m → owned (addVirtualNode key m i).
Proof.
  intros Hm h. unfold addVirtualNode; simpl.
  rewrite elem_of_app, list_elem_of_singleton. intros [Hh| ->].
  - destruct (decide (uint32 (hashFunc m (Itoa i +:+ key)) = h)) as [->|Hne].
    + rewrite lookup_insert_eq. eauto.
    + rewrite lookup_insert_ne by exact Hne. apply Hm, Hh.
  - rewrite lookup_insert_eq. eauto.
Qed.

Lemma fold_addVirtualNode (key : string) (l : list Z) (m : Map) :
  let m' := fold_left (addVirtualNode key) l m in
  replicas m' = replicas m ∧
  length (keys m') = (length (keys m) + length l)%nat ∧
  (owned m → owned m').
Proof.
  revert m. induction l as [|i l IH]; intros m; simpl.
  - repeat split; [lia | tauto].
  - destruct (IH (addVirtualNode key m i)) as (Hr & Hl & Ho).
    repeat split.
    + rewrite Hr. reflexivity.
    + rewrite Hl. unfold addVirtualNode; simpl. rewrite length_app. simpl. lia.
    + intros Hm. apply Ho, addVirtualNode_owned, Hm.
Qed.

Lemma addOneNode_facts (m : Map) (key : string) :
  let m' := addOneNode m key in
  replicas m' = replicas m ∧
  length (keys m')
  = (length (keys m) + Z.to_nat (replicas m) * length (realAddrs [key]))%nat ∧
  (owned m → owned m').
Proof.
  unfold addOneNode, realAddrs.
  destruct (String.eqb_spec key "") as [->|Hne].
  - repeat split; [|tauto]. rewrite filter_cons_False by tauto.
    rewrite filter_nil. simpl. lia.
  - destruct (fold_addVirtualNode key (seqZ 0 (replicas m)) m) as (Hr & Hl & Ho).
    repeat split; [exact Hr | | exact Ho].
    rewrite Hl, length_seqZ, filter_cons_True by exact Hne. simpl. lia.
Qed.

Lemma fold_addOneNode (addrs : list string) (m : Map) :
  let m' := fold_left addOneNode addrs m in
  replicas m' = replicas m ∧
  length (keys m')
  = (length (keys m) + Z.to_nat (replicas m) * length (realAddrs addrs))%nat ∧
  (owned m → owned m').
Proof.
  revert m. induction addrs as [|a addrs IH]; intros m; simpl.
  - repeat split; [|tauto]. unfold realAddrs. simpl. lia.
  - destruct (addOneNode_facts m a) as (Hr1 & Hl1 & Ho1).
    destruct (IH (addOneNode m a)) as (Hr & Hl & Ho).
    repeat split.
    + rewrite Hr. exact Hr1.
    + rewrite Hl, Hl1, Hr1. unfold realAddrs in *.
      change (a :: addrs) with ([a] ++ addrs).
      rewrite (filter_app _ [a] addrs), length_app. lia.
    + intros Hm. apply Ho, Ho1, Hm.
Qed.

(** One call of [AddNode]. *)
Lemma AddNode_facts (m : Map) (addrs : list string) :
  let m' := AddNode m addrs in
  replicas m' = replicas m ∧
  length (keys m')
  = (length (keys m) + Z.to_nat (replicas m) * length (realAddrs addrs))%nat ∧
  Sorted Z.le (keys m') ∧
  (owned m → owned m').
Proof.
  destruct (fold_addOneNode addrs m) as (Hr & Hl & Ho).
  unfold AddNode, sort_Ints; simpl. repeat split.
  - exact Hr.
  - rewrite <- Hl. apply Permutation_length, merge_sort_Permutation.
  - apply (Sorted_merge_sort Z.le).
  - intros Hm h Hh. simpl in *.
    rewrite (merge_sort_Permutation Z.le) in Hh. apply Ho; assumption.
Qed.

Lemma addAll_facts (calls : list (list string)) (m : Map) :
  let m' := addAll m calls in
  replicas m' = replicas m ∧
  length (keys m')
  = (length (keys m) + Z.to_nat (replicas m) * length (realAddrs (concat calls)))%nat ∧
  (Sorted Z.le (keys m) → Sorted Z.le (keys m')) ∧
  (owned m → owned m').
Proof.
  revert m. unfold addAll.
  induction calls as [|c calls IH]; intros m; simpl.
  - repeat split; [|tauto|tauto]. unfold realAddrs. simpl. lia.
  - destruct (AddNode_facts m c) as (Hr1 & Hl1 & Hs1 & Ho1).
    destruct (IH (AddNode m c)) as (Hr & Hl & Hs & Ho).
    repeat split.
    + rewrite Hr. exact Hr1.
    + rewrite Hl, Hl1, Hr1. unfold realAddrs.
      rewrite filter_app, length_app. lia.
    + intros _. apply Hs, Hs1.
    + intros Hm. apply Ho, Ho1, Hm.
Qed.

(** C9, as amended.  After any sequence of [AddNode] calls on a new
    ring, the number of entries of [keys] is [replicas] times the number
    of non-empty addresses passed to [AddNode], an address passed several
    times being counted as often as it was passed; [keys] is sorted in
    non-decreasing order; and every value of [keys] is a key of
    [hashMap]. *)
Theorem AddNode_ring_invariant
    (r : Z) (fn : option HashFunc) (calls : list (list string)) :
  let m := addAll (New r fn) calls in
  length (keys m) = (Z.to_nat r * length (realAddrs (concat calls)))%nat ∧
  Sorted Z.le (keys m) ∧
  (∀ h : Z, h ∈ keys m → is_Some (hashMap m !! h)).
Proof.
  destruct (addAll_facts calls (New r fn)) as (_ & Hl & Hs & Ho).
  simpl in *. repeat split.
  - exact Hl.
  - apply Hs. constructor.
  - apply Ho. intros h Hh. simpl in Hh. inversion Hh.
Qed.

Lemma remove_dups_NoDup_id (l : list string) :
  NoDup l → remove_dups l = l.
Proof.
  induction 1 as [|x l Hx Hl IH]; [reflexivity|].
  cbn [remove_dups]. destruct (decide_rel elem_of x l); [contradiction|].
  rewrite IH. reflexivity.
Qed.

(** When no address is passed twice, that number is [replicas] times the
    number of distinct physical nodes. *)
Lemma AddNode_count_distinct
    (r : Z) (fn : option HashFunc) (calls : list (list string)) :
  NoDup (realAddrs (concat calls)) →
  length (keys (addAll (New r fn) calls))
  = (Z.to_nat r * distinctNodes (concat calls))%nat.
Proof.
  intros Hnd. destruct (addAll_facts calls (New r fn)) as (_ & Hl & _).
  cbn [keys replicas New length Nat.add] in Hl.
  rewrite Hl. unfold distinctNodes.
  rewrite (remove_dups_NoDup_id) by exact Hnd. reflexivity.
Qed.

Lemma AddNode_count_distinct_witness :
  length (keys (addAll (New 3 None) [["A"; "B"]; [""; "C"]]))
  = (Z.to_nat 3 * distinctNodes (concat [["A"; "B"]; [""; "C"]]))%nat.
Proof.
  apply (AddNode_count_distinct 3 None [["A"; "B"]; [""; "C"]]).
  apply (bool_decide_unpack _). vm_compute. exact I.
Defined.

(** C9, as stated, fails when an address is added twice: the ring with
    two replicas gets four entries for the one physical node [A]. *)
Lemma AddNode_repeated_address_counterexample :
  let calls := [["A"]; ["A"]] in
  let m := addAll (New 2 None) calls in
  distinctNodes (concat calls) = 1%nat ∧
  length (keys m) = 4%nat ∧
  length (keys m) ≠ (Z.to_nat (replicas m) * distinctNodes (concat calls))%nat.
Proof. vm_compute. repeat split; try reflexivity. discriminate. Qed.

End AddNodeFacts.

(* --------------------------------------------------------------------- *)
(** ** More on [getPartitionKey] and [PickNode] *)
(* --------------------------------------------------------------------- *)

Section PickNodeMore.
Import GoLib consistenthash.

Lemma substring_infix (n k : nat) (s : string) :
  ∃ pre suf : string, s = pre +:+ String.substring n k s +:+ suf.
Proof.
  revert n k. induction s as [|a s IH]; intros n k.
  - exists "", "". destruct n, k; reflexivity.
  - destruct n as [|n].
    + destruct k as [|k].
      * exists "", (String a s). reflexivity.
      * destruct (IH 0%nat k) as (pre & suf & E).
        assert (Hpre : pre +:+ String.substring 0 k s +:+ suf
                       = String.substring 0 k s +:+ suf ∨ True) by tauto.
        clear Hpre pre E.
        assert (E : ∃ suf', s = String.substring 0 k s +:+ suf').
        { clear. revert k. induction s as [|b s IHs]; intros k.
          - exists "". destruct k; reflexivity.
          - destruct k as [|k].
            + exists (String b s). reflexivity.
            + destruct (IHs k) as [suf' E]. exists suf'.
              cbn [String.substring]. rewrite append_cons. congruence. }
        destruct E as [suf' E]. exists "", suf'.
        cbn [String.substring]. rewrite append_nil, append_cons. congruence.
    + destruct (IH n k) as (pre & suf & E).
      exists (String a pre), suf. cbn [String.substring].
      rewrite append_cons. congruence.
Qed.

(** The partition key is a part of the key: what [getPartitionKey]
    returns occurs in the key as a run of consecutive bytes. *)
Theorem getPartitionKey_is_infix (key p : string) :
  getPartitionKey key = Some p →
  ∃ pre suf : string, key = pre +:+ p +:+ suf.
Proof.
  unfold getPartitionKey, slice. intros Hp.
  assert (Hwhole : ∃ pre suf : string, key = pre +:+ key +:+ suf).
  { exists "", "". rewrite append_nil. clear.
    induction key as [|a key IH]; [reflexivity|].
    rewrite append_cons. congruence. }
  destruct (Index key "{" =? -1); [inversion Hp; subst; exact Hwhole|].
  destruct ((Index key "}" =? -1) || (Index key "}" =? Index key "{" + 1));
    [inversion Hp; subst; exact Hwhole|].
  destruct ((0 <=? Index key "{" + 1) && (Index key "{" + 1 <=? Index key "}")
            && (Index key "}" <=? len key)); [|discriminate].
  inversion Hp; subst. apply substring_infix.
Qed.

Lemma getPartitionKey_is_infix_witness :
  ∃ pre suf : string, "{user1}profile" = pre +:+ "user1" +:+ suf.
Proof.
  apply (getPartitionKey_is_infix "{user1}profile" "user1"). reflexivity.
Defined.

Lemma getPartitionKey_refines_spec_witness :
  getPartitionKey "a{tag}b" = Some (partitionKey_spec "a{tag}b").
Proof.
  apply (getPartitionKey_refines_spec "a{tag}b").
  intros [_ Hlt]. vm_compute in Hlt. discriminate.
Defined.

(** [PickNode] panics exactly when the ring is not empty and the first
    closing brace of the key comes before its first opening brace; on an
    empty ring it returns the empty address whatever the key. *)
Theorem PickNode_panics_iff (m : Map) (key : string) :
  (PickNode m key = None
   ↔ IsEmpty m = false ∧ 0 ≤ Index key "}" < Index key "{") ∧
  (IsEmpty m = true → PickNode m key = Some "").
Proof.
  split.
  - split.
    + intros Hnone. destruct (IsEmpty m) eqn:He.
      * unfold PickNode in Hnone. rewrite He in Hnone. discriminate.
      * split; [reflexivity|].
        apply getPartitionKey_panics_iff.
        destruct (getPartitionKey key) as [pk|] eqn:Hpk; [|reflexivity].
        destruct (PickNode_returns m key pk He Hpk) as [addr Haddr].
        congruence.
    + intros [He Hbr]. apply getPartitionKey_panics_iff in Hbr.
      unfold PickNode. rewrite He, Hbr. reflexivity.
  - intros He. unfold PickNode. rewrite He. reflexivity.
Qed.

Lemma Sorted_lookup_le (l : list Z) (i j : nat) (x y : Z) :
  Sorted Z.le l → (i ≤ j)%nat → l !! i = Some x → l !! j = Some y → x ≤ y.
Proof.
  intros Hs. apply (Sorted_StronglySorted Z.le) in Hs.
  revert i j x y. induction Hs as [|a l Hs IH Hall]; intros i j x y Hij Hi Hj.
  - discriminate.
  - destruct i as [|i].
    + cbn in Hi. inversion Hi; subst a. destruct j as [|j].
      * cbn in Hj. inversion Hj. lia.
      * cbn in Hj. rewrite Forall_forall in Hall.
        apply Hall, list_elem_of_lookup. eauto.
    + destruct j as [|j]; [lia|]. cbn in Hi, Hj.
      apply (IH i j); [lia | assumption | assumption].
Qed.

Lemma keys_at_lookup (m : Map) (i : Z) (k : Z) :
  keys_at m i = Some k ↔ 0 ≤ i ∧ keys m !! Z.to_nat i = Some k.
Proof.
  unfold keys_at. destruct (Z.leb_spec 0 i); split.
  - tauto.
  - tauto.
  - discriminate.
  - lia.
Qed.

(** What [PickNode] returns on a ring that is not empty is the owner of
    one of the positions of the ring. *)
Lemma PickNode_Some_inv (m : Map) (key addr : string) :
  IsEmpty m = false → PickNode m key = Some addr →
  ∃ k : Z, k ∈ keys m ∧ addr = default "" (hashMap m !! k).
Proof.
  intros He. unfold PickNode. rewrite He.
  destruct (getPartitionKey key) as [pk|]; [|discriminate].
  cbv zeta.
  destruct (keys_at m _) as [k|] eqn:Hk; [|discriminate].
  intros Haddr. inversion Haddr. exists k. split; [|reflexivity].
  apply keys_at_lookup in Hk. destruct Hk as [_ Hk].
  apply list_elem_of_lookup. eauto.
Qed.

(** On a ring whose positions are sorted, [PickNode] returns the owner of
    the first position at or after the hash of the partition key, and,
    when every position is before that hash, the owner of the first
    position of the ring. *)
Theorem PickNode_successor (m : Map) (key pk : string) :
  Sorted Z.le (keys m) → IsEmpty m = false →
  getPartitionKey key = Some pk →
  let h := uint32 (hashFunc m pk) in
  ∃ k : Z,
    k ∈ keys m ∧
    PickNode m key = Some (default "" (hashMap m !! k)) ∧
    (∀ k' : Z, k' ∈ keys m → h ≤ k' → k ≤ k') ∧
    (h ≤ k ∨ (∀ k' : Z, k' ∈ keys m → k' < h ∧ k ≤ k')).
Proof.
  intros Hsorted He Hpk h.
  unfold PickNode. rewrite He, Hpk. fold h.
  unfold IsEmpty in He. apply Z.eqb_neq in He.
  set (n := Z.of_nat (length (keys m))) in *.
  set (f := keyAtLeast m h).
  assert (Hmono : ∀ a b, 0 ≤ a → a ≤ b → b < n → f a = true → f b = true).
  { intros a b Ha Hab Hb. unfold f, keyAtLeast.
    destruct (keys_at m a) as [ka|] eqn:Hka; [|discriminate].
    apply keys_at_lookup in Hka. destruct Hka as [_ Hka].
    destruct (lookup_lt_is_Some_2 (keys m) (Z.to_nat b)) as [kb Hkb];
      [subst n; lia|].
    assert (Hkb' : keys_at m b = Some kb) by (apply keys_at_lookup; split; [lia|exact Hkb]).
    rewrite Hkb'. intros Hle. apply Z.leb_le in Hle. apply Z.leb_le.
    pose proof (Sorted_lookup_le (keys m) (Z.to_nat a) (Z.to_nat b) ka kb
                  Hsorted ltac:(lia) Hka Hkb). lia. }
  pose proof (Search_range n f ltac:(lia)) as Hr.
  destruct (Search_least n f ltac:(lia) Hmono) as [Hbelow Habove].
  set (idx := Search n f) in *.
  set (pick := if idx =? n then 0 else idx).
  assert (Hpick : 0 ≤ pick < n).
  { unfold pick. destruct (Z.eqb_spec idx n); lia. }
  destruct (lookup_lt_is_Some_2 (keys m) (Z.to_nat pick)) as [k Hk];
    [subst n; lia|].
  assert (Hk' : keys_at m pick = Some k)
    by (apply keys_at_lookup; split; [lia|exact Hk]).
  rewrite Hk'. exists k.
  assert (Hf : ∀ (i : nat) (k' : Z), keys m !! i = Some k' →
               f (Z.of_nat i) = (h <=? k')).
  { intros i k' Hi. unfold f, keyAtLeast.
    assert (E : keys_at m (Z.of_nat i) = Some k').
    { apply keys_at_lookup. rewrite Nat2Z.id. split; [lia|exact Hi]. }
    rewrite E. reflexivity. }
  split; [apply list_elem_of_lookup; eauto|]. split; [reflexivity|].
  unfold pick in *. destruct (Z.eqb_spec idx n) as [Hfull|Hpart].
  - assert (Hall : ∀ k', k' ∈ keys m → k' < h ∧ k ≤ k').
    { intros k' Hin. apply list_elem_of_lookup in Hin. destruct Hin as [i Hi].
      pose proof (lookup_lt_Some _ _ _ Hi) as Hlt. split.
      - assert (Hfi : f (Z.of_nat i) = false) by (apply Hbelow; subst n; lia).
        rewrite (Hf i k' Hi) in Hfi. apply Z.leb_gt in Hfi. exact Hfi.
      - apply (Sorted_lookup_le (keys m) (Z.to_nat 0) i k k' Hsorted);
          [lia | exact Hk | exact Hi]. }
    split; [|right; exact Hall].
    intros k' Hin Hle. destruct (Hall k' Hin). lia.
  - split.
    + intros k' Hin Hle. apply list_elem_of_lookup in Hin.
      destruct Hin as [i Hi].
      destruct (Z.lt_ge_cases (Z.of_nat i) idx) as [Hlt|Hge].
      * assert (Hfi : f (Z.of_nat i) = false) by (apply Hbelow; lia).
        rewrite (Hf i k' Hi) in Hfi. apply Z.leb_gt in Hfi. lia.
      * apply (Sorted_lookup_le (keys m) (Z.to_nat idx) i k k' Hsorted);
          [lia | exact Hk | exact Hi].
    + left. assert (Hfi : f idx = true) by (apply Habove; lia).
      replace idx with (Z.of_nat (Z.to_nat idx)) in Hfi by lia.
      rewrite (Hf _ k Hk) in Hfi. apply Z.leb_le. exact Hfi.
Qed.

Lemma PickNode_successor_witness :
  let m := AddNode (New 3 None) ["A"; "B"; "C"] in
  let h := uint32 (hashFunc m "user1") in
  ∃ k : Z,
    k ∈ keys m ∧
    PickNode m "{user1}profile" = Some (default "" (hashMap m !! k)) ∧
    (∀ k' : Z, k' ∈ keys m → h ≤ k' → k ≤ k') ∧
    (h ≤ k ∨ (∀ k' : Z, k' ∈ keys m → k' < h ∧ k ≤ k')).
Proof.
  apply (PickNode_successor (AddNode (New 3 None) ["A"; "B"; "C"])
           "{user1}profile" "user1").
  - apply (bool_decide_unpack _). vm_compute. exact I.
  - vm_compute. reflexivity.
  - vm_compute. reflexivity.
Defined.

End PickNodeMore.

(* --------------------------------------------------------------------- *)
(** ** More on [AddNode] *)
(* --------------------------------------------------------------------- *)

Section AddNodeMore.
Import GoLib consistenthash.

Lemma virtualHashes_ext (m1 m2 : Map) (addrs : list string) :
  hashFunc m1 = hashFunc m2 → replicas m1 = replicas m2 →
  virtualHashes m1 addrs = virtualHashes m2 addrs.
Proof. intros Hf Hr. unfold virtualHashes. rewrite Hf, Hr. reflexivity. Qed.

Lemma virtualHashes_cons (m : Map) (a : string) (addrs : list string) :
  virtualHashes m (a :: addrs)
  = virtualHashes m [a] ++ virtualHashes m addrs.
Proof.
  unfold virtualHashes, realAddrs.
  change (a :: addrs) with ([a] ++ addrs).
  rewrite filter_app, flat_map_app. reflexivity.
Qed.

Lemma virtualHashes_app (m : Map) (a b : list string) :
  virtualHashes m (a ++ b) = virtualHashes m a ++ virtualHashes m b.
Proof.
  unfold virtualHashes, realAddrs. rewrite filter_app, flat_map_app.
  reflexivity.
Qed.

Lemma fold_addVirtualNode_shape (key : string) (l : list Z) (m : Map) :
  let m' := fold_left (addVirtualNode key) l m in
  hashFunc m' = hashFunc m ∧ replicas m' = replicas m ∧
  keys m' = keys m ++ map (λ i, uint32 (hashFunc m (Itoa i +:+ key))) l.
Proof.
  revert m. induction l as [|i l IH]; intros m; cbn [fold_left map].
  - rewrite app_nil_r. auto.
  - destruct (IH (addVirtualNode key m i)) as (Hf & Hr & Hk).
    rewrite Hf, Hr, Hk. cbn [addVirtualNode hashFunc replicas keys].
    rewrite <- app_assoc. auto.
Qed.

Lemma addOneNode_shape (m : Map) (key : string) :
  let m' := addOneNode m key in
  hashFunc m' = hashFunc m ∧ replicas m' = replicas m ∧
  keys m' = keys m ++ virtualHashes m [key].
Proof.
  unfold addOneNode, virtualHashes, realAddrs.
  destruct (String.eqb_spec key "") as [->|Hne].
  - rewrite filter_cons_False by tauto. rewrite filter_nil. cbn [flat_map].
    rewrite app_nil_r. auto.
  - rewrite filter_cons_True by exact Hne. rewrite filter_nil.
    cbn [flat_map]. rewrite app_nil_r.
    apply fold_addVirtualNode_shape.
Qed.

Lemma fold_addOneNode_shape (addrs : list string) (m : Map) :
  let m' := fold_left addOneNode addrs m in
  hashFunc m' = hashFunc m ∧ replicas m' = replicas m ∧
  keys m' = keys m ++ virtualHashes m addrs.
Proof.
  revert m. induction addrs as [|a addrs IH]; intros m; cbn [fold_left].
  - unfold virtualHashes, realAddrs. rewrite filter_nil. cbn [flat_map].
    rewrite app_nil_r. auto.
  - destruct (addOneNode_shape m a) as (Hf1 & Hr1 & Hk1).
    destruct (IH (addOneNode m a)) as (Hf & Hr & Hk).
    rewrite Hf, Hr, Hk, Hk1, Hf1, Hr1.
    rewrite (virtualHashes_ext _ m addrs Hf1 Hr1).
    rewrite (virtualHashes_cons m a addrs), <- app_assoc. auto.
Qed.

(** One call of [AddNode] keeps every position of the ring and adds, for
    each address that is not empty, the positions of its replicas; the
    hash function and the number of replicas do not change. *)
Theorem AddNode_keys_Permutation (m : Map) (addrs : list string) :
  keys (AddNode m addrs) ≡ₚ keys m ++ virtualHashes m addrs ∧
  hashFunc (AddNode m addrs) = hashFunc m ∧
  replicas (AddNode m addrs) = replicas m.
Proof.
  destruct (fold_addOneNode_shape addrs m) as (Hf & Hr & Hk).
  unfold AddNode, sort_Ints. cbn [keys hashFunc replicas].
  rewrite (merge_sort_Permutation Z.le), Hk. auto.
Qed.

Lemma addVirtualNode_sameOwners (key : string) (i : Z) (m1 m2 : Map) :
  sameOwners m1 m2 →
  sameOwners (addVirtualNode key m1 i) (addVirtualNode key m2 i).
Proof.
  intros (Hf & Hr & Hm). unfold sameOwners, addVirtualNode.
  cbn [hashFunc replicas hashMap]. rewrite Hf, Hm. auto.
Qed.

Lemma fold_addVirtualNode_sameOwners (key : string) (l : list Z)
    (m1 m2 : Map) :
  sameOwners m1 m2 →
  sameOwners (fold_left (addVirtualNode key) l m1)
             (fold_left (addVirtualNode key) l m2).
Proof.
  revert m1 m2. induction l as [|i l IH]; intros m1 m2 H12; cbn [fold_left].
  - exact H12.
  - apply IH, addVirtualNode_sameOwners, H12.
Qed.

Lemma fold_addOneNode_sameOwners (addrs : list string) (m1 m2 : Map) :
  sameOwners m1 m2 →
  sameOwners (fold_left addOneNode addrs m1) (fold_left addOneNode addrs m2).
Proof.
  revert m1 m2. induction addrs as [|a addrs IH]; intros m1 m2 H12;
    cbn [fold_left].
  - exact H12.
  - apply IH. unfold addOneNode. destruct (String.eqb a ""); [exact H12|].
    destruct H12 as (Hf & Hr & Hm). rewrite Hr.
    apply fold_addVirtualNode_sameOwners. repeat split; assumption.
Qed.

(** Adding addresses in two calls gives the same ring as adding them in
    one call. *)
Theorem AddNode_app (m : Map) (a b : list string) :
  AddNode (AddNode m a) b = AddNode m (a ++ b).
Proof.
  set (m1 := fold_left addOneNode a m).
  assert (Hsame : sameOwners (AddNode m a) m1).
  { unfold AddNode, sameOwners. cbn [hashFunc replicas hashMap]. auto. }
  pose proof (fold_addOneNode_sameOwners b _ _ Hsame) as (Hf & Hr & Hm).
  destruct (fold_addOneNode_shape b (AddNode m a)) as (_ & _ & Hk2).
  destruct (fold_addOneNode_shape b m1) as (_ & _ & Hk3).
  destruct Hsame as (Hf0 & Hr0 & _).
  set (m2 := fold_left addOneNode b (AddNode m a)) in *.
  set (m3 := fold_left addOneNode b m1) in *.
  assert (HR : AddNode m (a ++ b)
               = {| hashFunc := hashFunc m3; replicas := replicas m3;
                    keys := sort_Ints (keys m3); hashMap := hashMap m3 |}).
  { unfold AddNode. rewrite fold_left_app. reflexivity. }
  assert (HL : AddNode (AddNode m a) b
               = {| hashFunc := hashFunc m2; replicas := replicas m2;
                    keys := sort_Ints (keys m2); hashMap := hashMap m2 |})
    by reflexivity.
  rewrite HR, HL, Hf, Hr, Hm. f_equal.
  unfold sort_Ints. apply (Sorted_unique Z.le).
  - apply (Sorted_merge_sort Z.le).
  - apply (Sorted_merge_sort Z.le).
  - rewrite !(merge_sort_Permutation Z.le), Hk2, Hk3.
    rewrite (virtualHashes_ext _ m1 b Hf0 Hr0).
    unfold AddNode, sort_Ints. cbn [keys]. fold m1.
    rewrite (merge_sort_Permutation Z.le). reflexivity.
Qed.

Lemma addAll_shape (calls : list (list string)) (m : Map) :
  let m' := addAll m calls in
  hashFunc m' = hashFunc m ∧ replicas m' = replicas m ∧
  keys m' ≡ₚ keys m ++ virtualHashes m (concat calls).
Proof.
  revert m. unfold addAll.
  induction calls as [|c calls IH]; intros m; cbn [fold_left concat].
  - unfold virtualHashes, realAddrs. rewrite filter_nil. cbn [flat_map].
    rewrite app_nil_r. auto.
  - destruct (fold_addOneNode_shape c m) as (Hf1 & Hr1 & Hk1).
    destruct (IH (AddNode m c)) as (Hf & Hr & Hk).
    assert (Hfa : hashFunc (AddNode m c) = hashFunc m) by exact Hf1.
    assert (Hra : replicas (AddNode m c) = replicas m) by exact Hr1.
    rewrite Hf, Hr, Hk, Hfa, Hra.
    rewrite (virtualHashes_ext _ m (concat calls) Hfa Hra).
    rewrite virtualHashes_app, app_assoc.
    repeat split. apply Permutation_app_tail.
    unfold AddNode, sort_Ints. cbn [keys].
    rewrite (merge_sort_Permutation Z.le), Hk1. reflexivity.
Qed.

Lemma elem_of_virtualHashes (m : Map) (addrs : list string) (h : Z) :
  h ∈ virtualHashes m addrs
  ↔ ∃ (a : string) (i : Z),
      a ∈ realAddrs addrs ∧ 0 ≤ i < replicas m ∧
      h = uint32 (hashFunc m (Itoa i +:+ a)).
Proof.
  unfold virtualHashes. rewrite list_elem_of_In, in_flat_map. split.
  - intros (a & Ha & Hh). apply in_map_iff in Hh. destruct Hh as (i & <- & Hi).
    exists a, i. apply list_elem_of_In in Ha, Hi.
    apply elem_of_seqZ in Hi. repeat split; [exact Ha | lia | lia].
  - intros (a & i & Ha & Hi & ->). exists a. split.
    + apply list_elem_of_In, Ha.
    + apply in_map_iff. exists i. split; [reflexivity|].
      apply list_elem_of_In, elem_of_seqZ. lia.
Qed.

(** On a ring built from [New] by calls of [AddNode], every address that
    is not empty has each of its replicas on the ring, with an owner. *)
Theorem AddNode_puts_replicas_on_ring
    (r : Z) (fn : option HashFunc) (calls : list (list string))
    (a : string) (i : Z) :
  a ∈ realAddrs (concat calls) → 0 ≤ i < r →
  let m := addAll (New r fn) calls in
  let h := uint32 (hashFunc m (Itoa i +:+ a)) in
  h ∈ keys m ∧ is_Some (hashMap m !! h).
Proof.
  intros Ha Hi m h.
  destruct (addAll_shape calls (New r fn)) as (Hf & Hr & Hk).
  destruct (addAll_facts calls (New r fn)) as (_ & _ & _ & Ho).
  fold m in Hf, Hr, Hk, Ho.
  assert (Hin : h ∈ keys m).
  { rewrite Hk. apply elem_of_app. right. apply elem_of_virtualHashes.
    exists a, i. subst h. rewrite Hf. repeat split; [exact Ha | lia | exact (proj2 Hi)]. }
  split; [exact Hin|]. apply Ho; [|exact Hin].
  intros k Hkin. cbn in Hkin. inversion Hkin.
Qed.

Lemma AddNode_puts_replicas_on_ring_witness :
  let m := addAll (New 3 None) [["A"; "B"]; [""; "C"]] in
  let h := uint32 (hashFunc m (Itoa 2 +:+ "C")) in
  h ∈ keys m ∧ is_Some (hashMap m !! h).
Proof.
  apply (AddNode_puts_replicas_on_ring 3 None [["A"; "B"]; [""; "C"]] "C" 2).
  - apply (bool_decide_unpack _). vm_compute. exact I.
  - lia.
Defined.

(** A ring built from [New] by calls of [AddNode] is empty exactly when
    the number of replicas is not positive or no address that is not
    empty was passed. *)
Theorem AddNode_ring_empty_iff
    (r : Z) (fn : option HashFunc) (calls : list (list string)) :
  IsEmpty (addAll (New r fn) calls) = true
  ↔ r ≤ 0 ∨ realAddrs (concat calls) = [].
Proof.
  destruct (addAll_facts calls (New r fn)) as (_ & Hl & _).
  cbn [keys replicas New length Nat.add] in Hl.
  unfold IsEmpty. rewrite Z.eqb_eq, Hl. split.
  - intros H0. destruct (realAddrs (concat calls)) as [|x l]; [right; reflexivity|].
    left. cbn [length] in H0. nia.
  - intros [Hr| ->]; [|cbn [length]; lia].
    replace (Z.to_nat r) with 0%nat by lia. lia.
Qed.

Lemma addOneNode_ownersIn (A : list string) (m : Map) (key : string) :
  ownersIn A m → (key ≠ "" → key ∈ A) → ownersIn A (addOneNode m key).
Proof.
  intros Hm Hkey. unfold addOneNode.
  destruct (String.eqb_spec key "") as [->|Hne]; [exact Hm|].
  specialize (Hkey Hne).
  generalize (seqZ 0 (replicas m)). intros l. revert m Hm.
  induction l as [|i l IH]; intros m Hm; cbn [fold_left]; [exact Hm|].
  apply IH. intros h v. unfold addVirtualNode. cbn [hashMap].
  rewrite lookup_insert. case_decide.
  - intros E. inversion E; subst. exact Hkey.
  - apply Hm.
Qed.

Lemma AddNode_ownersIn (A : list string) (m : Map) (addrs : list string) :
  ownersIn A m → (∀ a, a ∈ realAddrs addrs → a ∈ A) →
  ownersIn A (AddNode m addrs).
Proof.
  intros Hm Hsub.
  assert (H : ownersIn A (fold_left addOneNode addrs m)).
  { revert m Hm. induction addrs as [|a addrs IH]; intros m Hm;
      cbn [fold_left]; [exact Hm|].
    apply IH.
    - intros x Hx. apply Hsub. unfold realAddrs in *.
      apply list_elem_of_filter in Hx. apply list_elem_of_filter.
      split; [tauto|]. apply elem_of_cons. tauto.
    - apply addOneNode_ownersIn; [exact Hm|].
      intros Hne. apply Hsub. unfold realAddrs.
      apply list_elem_of_filter. split; [exact Hne|]. apply elem_of_cons. tauto. }
  exact H.
Qed.

Lemma addAll_ownersIn (A : list string) (calls : list (list string))
    (m : Map) :
  ownersIn A m → (∀ a, a ∈ realAddrs (concat calls) → a ∈ A) →
  ownersIn A (addAll m calls).
Proof.
  revert m. unfold addAll.
  induction calls as [|c calls IH]; intros m Hm Hsub; cbn [fold_left];
    [exact Hm|].
  apply IH.
  - apply AddNode_ownersIn; [exact Hm|].
    intros a Ha. apply Hsub. cbn [concat]. unfold realAddrs in *.
    rewrite filter_app. apply elem_of_app. tauto.
  - intros a Ha. apply Hsub. cbn [concat]. unfold realAddrs in *.
    rewrite filter_app. apply elem_of_app. tauto.
Qed.

(** On a ring built from [New] by calls of [AddNode], [PickNode] returns
    one of the addresses that were added, hence never the empty
    address. *)
Theorem PickNode_returns_added_node
    (r : Z) (fn : option HashFunc) (calls : list (list string))
    (key addr : string) :
  let m := addAll (New r fn) calls in
  IsEmpty m = false → PickNode m key = Some addr →
  addr ∈ realAddrs (concat calls) ∧ addr ≠ "".
Proof.
  intros m He Hpick.
  destruct (PickNode_Some_inv m key addr He Hpick) as (k & Hk & ->).
  destruct (addAll_facts calls (New r fn)) as (_ & _ & _ & Ho).
  fold m in Ho.
  destruct (Ho ltac:(intros h Hh; cbn in Hh; inversion Hh) k Hk) as [v Hv].
  rewrite Hv. cbn [default].
  assert (Hin : v ∈ realAddrs (concat calls)).
  { apply (addAll_ownersIn (realAddrs (concat calls)) calls (New r fn)) with k.
    - intros h x Hx. cbn in Hx. rewrite lookup_empty in Hx. discriminate.
    - auto.
    - exact Hv. }
  split; [exact Hin|].
  unfold realAddrs in Hin. apply list_elem_of_filter in Hin. tauto.
Qed.

Lemma PickNode_returns_added_node_witness :
  "A" ∈ realAddrs (concat [["A"; "B"; "C"]]) ∧ "A" ≠ "".
Proof.
  apply (PickNode_returns_added_node 3 None [["A"; "B"; "C"]]
           "{user1}profile" "A").
  - vm_compute. reflexivity.
  - vm_compute. reflexivity.
Defined.

End AddNodeMore.

(* --------------------------------------------------------------------- *)
(** ** The rewriter on a concrete disk *)
(* --------------------------------------------------------------------- *)

Section AofExamples.
Import GoLib aof aof_fixture.

Example respMultiBulk_sample :
  respMultiBulk ["SELECT"; "0"]
  = bytes ("*2" +:+ CRLF +:+ "$6" +:+ CRLF +:+ "SELECT" +:+ CRLF
                +:+ "$1" +:+ CRLF +:+ "0" +:+ CRLF).
Proof. vm_compute. reflexivity. Qed.

End AofExamples.

(* --------------------------------------------------------------------- *)
(** ** Writes *)
(* --------------------------------------------------------------------- *)

Section WriteFacts.
Import GoLib aof.

Lemma pwrite_at_end (c data : list Byte.byte) :
  pwrite c data (length c) = c ++ data.
Proof.
  unfold pwrite. rewrite firstn_all, Nat.sub_diag. simpl.
  rewrite drop_ge by lia. rewrite app_nil_r. reflexivity.
Qed.

Lemma content_set_content_eq (w : Disk) (ino : nat) (c : list Byte.byte) :
  content (set_content w ino c) ino = c.
Proof. unfold content, set_content; simpl. rewrite lookup_insert_eq. reflexivity. Qed.

Lemma content_set_content_ne (w : Disk) (ino i : nat) (c : list Byte.byte) :
  i ≠ ino → content (set_content w ino c) i = content w i.
Proof.
  intros Hne. unfold content, set_content; simpl.
  rewrite lookup_insert_ne by congruence. reflexivity.
Qed.

Lemma content_tick (w : Disk) (ino : nat) :
  content (tick w) ino = content w ino.
Proof. reflexivity. Qed.

Lemma onlyWrites_refl (ino : nat) (w : Disk) : onlyWrites ino w w.
Proof. repeat split; auto. Qed.

Lemma onlyWrites_trans (ino : nat) (w1 w2 w3 : Disk) :
  onlyWrites ino w1 w2 → onlyWrites ino w2 w3 → onlyWrites ino w1 w3.
Proof.
  intros (Hn1 & Hs1 & Hc1) (Hn2 & Hs2 & Hc2). repeat split.
  - congruence.
  - auto.
  - intros i Hi. rewrite Hc2, Hc1 by exact Hi. reflexivity.
Qed.

Lemma onlyWrites_tick (ino : nat) (w : Disk) : onlyWrites ino w (tick w).
Proof. repeat split; auto. Qed.

(** Whatever its fate, a write changes the file it writes to and
    nothing else. *)
Lemma File_Write_onlyWrites (oracle : Oracle) (f : OsFile)
    (data : list Byte.byte) (w : Disk) :
  let '(_, _, f', w') := File_Write oracle f data w in
  fd_ino f' = fd_ino f ∧ fd_name f' = fd_name f ∧
  onlyWrites (fd_ino f) w w'.
Proof.
  unfold File_Write. destruct (fd_closed f).
  - repeat split; auto.
  - simpl. repeat split; auto.
    + intros i [c Hc]. unfold tick, set_content; cbn [inodes].
      destruct (decide (i = fd_ino f)) as [->|Hne].
      * rewrite lookup_insert_eq. eauto.
      * rewrite lookup_insert_ne by congruence. eauto.
    + intros i Hi. apply content_set_content_ne, Hi.
Qed.

(** A write that does not fail, through a handle that is at the end of
    its file, adds all of its data there. *)
Lemma File_Write_appends (oracle : Oracle) (f : OsFile)
    (data : list Byte.byte) (w : Disk) :
  oracle (ticks w) = IoOk → atEnd f w →
  ∃ f' w',
    File_Write oracle f data w = (length data, None, f', w') ∧
    appended f w data f' w'.
Proof.
  intros Hok [Hopen Hpos].
  pose proof (File_Write_onlyWrites oracle f data w) as Hfr.
  unfold File_Write in *. rewrite Hopen, Hok in *.
  eexists _, _. split; [reflexivity|].
  destruct Hfr as (Hino & Hname & Hw).
  assert (Hp : (if fd_append f then length (content w (fd_ino f)) else fd_pos f)
               = length (content w (fd_ino f))).
  { destruct (fd_append f); [reflexivity|]. destruct Hpos; congruence. }
  rewrite Hp in *. rewrite pwrite_at_end in *.
  split; [exact Hino|]. split; [exact Hname|].
  split; [|split; [|exact Hw]].
  - split; [exact Hopen|]. right. cbn [fd_pos fd_ino set_pos].
    rewrite content_tick, content_set_content_eq, length_app. reflexivity.
  - rewrite content_tick, content_set_content_eq. reflexivity.
Qed.

Lemma appended_nil (f : OsFile) (w : Disk) :
  atEnd f w → appended f w [] f w.
Proof.
  intros H. split; [reflexivity|]. split; [reflexivity|].
  split; [exact H|]. split; [|apply onlyWrites_refl].
  rewrite app_nil_r. reflexivity.
Qed.

Lemma appended_trans (f1 f2 f3 : OsFile) (w1 w2 w3 : Disk)
    (d1 d2 : list Byte.byte) :
  appended f1 w1 d1 f2 w2 → appended f2 w2 d2 f3 w3 →
  appended f1 w1 (d1 ++ d2) f3 w3.
Proof.
  intros (Hi1 & Hn1 & He1 & Hc1 & Hw1) (Hi2 & Hn2 & He2 & Hc2 & Hw2).
  rewrite Hi1 in *.
  split; [congruence|]. split; [congruence|].
  split; [exact He2|]. split.
  - rewrite Hc2, Hc1, app_assoc. reflexivity.
  - apply (onlyWrites_trans _ _ _ _ Hw1 Hw2).
Qed.

End WriteFacts.

(* --------------------------------------------------------------------- *)
(** ** [DoRewrite] *)
(* --------------------------------------------------------------------- *)

Section DoRewriteFacts.
Import GoLib aof.
Context `{Extern}.
Variable oracle : Oracle.
Hypothesis oracle_ok : ∀ k : nat, oracle k = IoOk.

Lemma dumpEntry_appends (e : string * DataEntity * option Time)
    (f : OsFile) (w : Disk) :
  atEnd f w →
  ∃ f' w',
    dumpEntry oracle e (f, w) = (true, (f', w')) ∧
    appended f w (entryFrames e) f' w'.
Proof.
  intros Hend. destruct e as [[key entity] expiration].
  unfold dumpEntry, entryFrames. cbn [fst snd].
  assert (H1 : ∃ f1 w1,
    match EntityToCmd key entity with
    | Some cmd =>
        let '(_, _, f0, w0) := File_Write oracle f (ToBytes cmd) w in (f0, w0)
    | None => (f, w)
    end = (f1, w1) ∧
    appended f w (from_option ToBytes [] (EntityToCmd key entity)) f1 w1).
  { destruct (EntityToCmd key entity) as [cmd|]; cbn [from_option].
    - destruct (File_Write_appends oracle f (ToBytes cmd) w (oracle_ok _) Hend)
        as (f1 & w1 & -> & Happ). eauto.
    - eexists _, _. split; [reflexivity|]. apply appended_nil, Hend. }
  destruct H1 as (f1 & w1 & -> & Happ1). cbn [fst snd].
  assert (Hend1 : atEnd f1 w1) by apply Happ1.
  destruct expiration as [t|].
  - destruct (MakeExpireCmd key t) as [cmd|]; cbn [from_option].
    + destruct (File_Write_appends oracle f1 (ToBytes cmd) w1 (oracle_ok _) Hend1)
        as (f2 & w2 & -> & Happ2).
      eexists _, _. split; [reflexivity|].
      apply (appended_trans _ _ _ _ _ _ _ _ Happ1 Happ2).
    + eexists _, _. split; [reflexivity|]. rewrite app_nil_r. exact Happ1.
  - eexists _, _. split; [reflexivity|]. rewrite app_nil_r. exact Happ1.
Qed.

Lemma forEach_dumpEntry_appends
    (entries : list (string * DataEntity * option Time))
    (f : OsFile) (w : Disk) :
  atEnd f w →
  ∃ f' w',
    forEach entries (dumpEntry oracle) (f, w) = (f', w') ∧
    appended f w (flat_map entryFrames entries) f' w'.
Proof.
  revert f w. induction entries as [|e entries IH]; intros f w Hend.
  - eexists _, _. split; [reflexivity|]. apply appended_nil, Hend.
  - destruct (dumpEntry_appends e f w Hend) as (f1 & w1 & He & Happ1).
    destruct (IH f1 w1) as (f2 & w2 & Hes & Happ2); [apply Happ1|].
    cbn [forEach flat_map]. rewrite He, Hes.
    eexists _, _. split; [reflexivity|].
    apply (appended_trans _ _ _ _ _ _ _ _ Happ1 Happ2).
Qed.

Lemma dumpDatabases_appends (scratch : DB) (indices : list Z)
    (f : OsFile) (w : Disk) :
  atEnd f w →
  ∃ f' w',
    dumpDatabases oracle scratch indices (f, w) = (None, (f', w')) ∧
    appended f w
      (flat_map
         (λ i, selectFrame i ++ flat_map entryFrames (dbEntries scratch i))
         indices)
      f' w'.
Proof.
  revert f w. induction indices as [|i indices IH]; intros f w Hend.
  - eexists _, _. split; [reflexivity|]. apply appended_nil, Hend.
  - destruct (File_Write_appends oracle f (selectFrame i) w (oracle_ok _) Hend)
      as (f1 & w1 & Hw & Happ1).
    destruct (forEach_dumpEntry_appends (dbEntries scratch i) f1 w1)
      as (f2 & w2 & He & Happ2); [apply Happ1|].
    destruct (IH f2 w2) as (f3 & w3 & Hd & Happ3); [apply Happ2|].
    cbn [dumpDatabases flat_map fst snd]. rewrite Hw, He, Hd.
    eexists _, _. split; [reflexivity|].
    rewrite <- app_assoc.
    apply (appended_trans _ _ _ _ _ _ _ _ Happ1).
    apply (appended_trans _ _ _ _ _ _ _ _ Happ2 Happ3).
Qed.

(** C6, as amended.  When no write to the temporary file fails,
    [DoRewrite] returns no error and has added to the temporary file,
    for each database index [i] of [[0, Databases)] in increasing order,
    the frame [SELECT i] and then, for each [(key, entity, expiration)]
    of that database of the scratch database, the command of
    [EntityToCmd] when there is one, followed by the command of
    [MakeExpireCmd] when an expiration is present: a key without a
    canonical command gets no command that recreates it, and still gets
    its expiration command. *)
Theorem DoRewrite_dumps_scratch (handler : Handler) (ctx : RewriteCtx)
    (w : Disk) :
  atEnd (tmpFile ctx) w →
  let scratch :=
    LoadAof w (aofFilename handler) (fileSize ctx) tmpDBMaker in
  ∃ ctx' w',
    DoRewrite oracle handler ctx w = (None, ctx', w') ∧
    content w' (fd_ino (tmpFile ctx))
    = content w (fd_ino (tmpFile ctx)) ++ dumpFrames entryFrames scratch ∧
    fd_ino (tmpFile ctx') = fd_ino (tmpFile ctx) ∧
    atEnd (tmpFile ctx') w' ∧
    onlyWrites (fd_ino (tmpFile ctx)) w w'.
Proof.
  intros Hend scratch.
  destruct (dumpDatabases_appends scratch (seqZ 0 Databases) (tmpFile ctx) w Hend)
    as (f' & w' & Hd & (Hino & Hname & Hend' & Hc & Hw)).
  unfold DoRewrite. cbn [newRewriteHandler aofFilename db].
  fold scratch. rewrite Hd.
  eexists _, w'. split; [reflexivity|].
  cbn [tmpFile]. unfold dumpFrames. auto.
Qed.

End DoRewriteFacts.

Section DoRewriteExamples.
Import GoLib aof aof_fixture.

Lemma DoRewrite_dumps_scratch_witness :
  ∃ ctx' w',
    @DoRewrite (extern 2 scratch2) noFault
      (liveHandler 2 scratch2 1) (tmpCtx "" 10 1) (tmpDisk "OLDCONTENT" "")
    = (None, ctx', w') ∧
    content w' 2%nat
    = content (tmpDisk "OLDCONTENT" "") 2%nat
        ++ @dumpFrames (extern 2 scratch2) (@entryFrames (extern 2 scratch2))
             scratch2 ∧
    fd_ino (tmpFile ctx') = 2%nat ∧
    atEnd (tmpFile ctx') w' ∧
    onlyWrites 2%nat (tmpDisk "OLDCONTENT" "") w'.
Proof.
  apply (@DoRewrite_dumps_scratch (extern 2 scratch2) noFault
           (λ _, eq_refl) (liveHandler 2 scratch2 1) (tmpCtx "" 10 1)
           (tmpDisk "OLDCONTENT" "")).
  split; [reflexivity|]. right. vm_compute. reflexivity.
Defined.

(** C6, as stated, fails on a key that has an expiration and no
    canonical command: [DoRewrite] writes [SELECT 0] and then the
    [PEXPIREAT] command of the key, which according to the claim is
    skipped entirely. *)
Lemma DoRewrite_expiration_without_command_counterexample :
  let E := extern 1 scratchOpaque in
  let '(err, ctx', w') :=
    @DoRewrite E noFault (liveHandler 1 scratchOpaque 0)
      (tmpCtx "" 10 0) (tmpDisk "OLDCONTENT" "") in
  @EntityToCmd E "e" OpaqueEntity = None ∧
  err = None ∧
  content w' 2%nat
  = respMultiBulk ["SELECT"; "0"] ++ respMultiBulk ["PEXPIREAT"; "e"; "1000"] ∧
  @dumpFrames E (@entryFrames_spec E) scratchOpaque
  = respMultiBulk ["SELECT"; "0"] ∧
  content w' 2%nat ≠ @dumpFrames E (@entryFrames_spec E) scratchOpaque.
Proof.
  vm_compute. repeat split; try reflexivity. discriminate.
Qed.

End DoRewriteExamples.

(* --------------------------------------------------------------------- *)
(** ** What a rewrite that stops early leaves behind *)
(* --------------------------------------------------------------------- *)

Section AbortFacts.
Import GoLib aof.
Context `{Extern}.
Variable oracle : Oracle.

Lemma os_Open_world (name : string) (w : Disk) :
  snd (os_Open oracle name w) = tick w.
Proof.
  unfold os_Open. destruct (oracle (ticks w)); [|reflexivity].
  destruct (names w !! name); reflexivity.
Qed.

Lemma File_Seek_world (f : OsFile) (offset : Z) (w : Disk) (ino : nat) :
  let '(_, f', w') := File_Seek oracle f offset w in
  fd_ino f' = fd_ino f ∧ onlyWrites ino w w'.
Proof.
  unfold File_Seek. destruct (fd_closed f).
  - split; [reflexivity | apply onlyWrites_refl].
  - destruct (oracle (ticks w)).
    + destruct (offset <? 0); (split; [reflexivity | apply onlyWrites_tick]).
    + split; [reflexivity | apply onlyWrites_tick].
Qed.

Lemma dumpEntry_onlyWrites (e : string * DataEntity * option Time)
    (f : OsFile) (w : Disk) :
  let '(_, (f', w')) := dumpEntry oracle e (f, w) in
  fd_ino f' = fd_ino f ∧ onlyWrites (fd_ino f) w w'.
Proof.
  destruct e as [[key entity] expiration]. unfold dumpEntry. cbn [fst snd].
  assert (H1 : ∃ f1 w1,
    match EntityToCmd key entity with
    | Some cmd =>
        let '(_, _, f0, w0) := File_Write oracle f (ToBytes cmd) w in (f0, w0)
    | None => (f, w)
    end = (f1, w1) ∧ fd_ino f1 = fd_ino f ∧ onlyWrites (fd_ino f) w w1).
  { destruct (EntityToCmd key entity) as [cmd|].
    - pose proof (File_Write_onlyWrites oracle f (ToBytes cmd) w) as Hw.
      destruct (File_Write oracle f (ToBytes cmd) w) as [[[n err] f1] w1].
      eexists _, _. split; [reflexivity|]. tauto.
    - eexists _, _. split; [reflexivity|].
      split; [reflexivity | apply onlyWrites_refl]. }
  destruct H1 as (f1 & w1 & -> & Hi1 & Hw1). cbn [fst snd].
  destruct expiration as [t|]; [|tauto].
  destruct (MakeExpireCmd key t) as [cmd|]; [|tauto].
  pose proof (File_Write_onlyWrites oracle f1 (ToBytes cmd) w1) as Hw.
  destruct (File_Write oracle f1 (ToBytes cmd) w1) as [[[n err] f2] w2].
  destruct Hw as (Hi2 & _ & Hw2). rewrite Hi1 in Hw2.
  split; [congruence|]. apply (onlyWrites_trans _ _ _ _ Hw1 Hw2).
Qed.

Lemma forEach_dumpEntry_onlyWrites
    (entries : list (string * DataEntity * option Time))
    (f : OsFile) (w : Disk) :
  let '(f', w') := forEach entries (dumpEntry oracle) (f, w) in
  fd_ino f' = fd_ino f ∧ onlyWrites (fd_ino f) w w'.
Proof.
  revert f w. induction entries as [|e entries IH]; intros f w.
  - split; [reflexivity | apply onlyWrites_refl].
  - cbn [forEach].
    pose proof (dumpEntry_onlyWrites e f w) as H1.
    destruct (dumpEntry oracle e (f, w)) as [continue [f1 w1]].
    destruct H1 as [Hi1 Hw1].
    destruct continue; [|tauto].
    specialize (IH f1 w1).
    destruct (forEach entries (dumpEntry oracle) (f1, w1)) as [f2 w2].
    destruct IH as [Hi2 Hw2]. rewrite Hi1 in Hw2.
    split; [congruence|]. apply (onlyWrites_trans _ _ _ _ Hw1 Hw2).
Qed.

Lemma dumpDatabases_onlyWrites (scratch : DB) (indices : list Z)
    (f : OsFile) (w : Disk) :
  let '(_, (f', w')) := dumpDatabases oracle scratch indices (f, w) in
  fd_ino f' = fd_ino f ∧ onlyWrites (fd_ino f) w w'.
Proof.
  revert f w. induction indices as [|i indices IH]; intros f w.
  - split; [reflexivity | apply onlyWrites_refl].
  - cbn [dumpDatabases fst snd].
    pose proof (File_Write_onlyWrites oracle f (selectFrame i) w) as H1.
    destruct (File_Write oracle f (selectFrame i) w) as [[[n err] f1] w1].
    destruct H1 as (Hi1 & _ & Hw1).
    destruct err as [e|]; [tauto|].
    pose proof (forEach_dumpEntry_onlyWrites (dbEntries scratch i) f1 w1) as H2.
    destruct (forEach (dbEntries scratch i) (dumpEntry oracle) (f1, w1))
      as [f2 w2].
    destruct H2 as [Hi2 Hw2]. rewrite Hi1 in Hw2.
    specialize (IH f2 w2).
    destruct (dumpDatabases oracle scratch indices (f2, w2)) as [err [f3 w3]].
    destruct IH as [Hi3 Hw3]. rewrite Hi2, Hi1 in Hw3.
    split; [congruence|].
    apply (onlyWrites_trans _ _ _ _ Hw1), (onlyWrites_trans _ _ _ _ Hw2 Hw3).
Qed.

(** Whether it fails or not, [DoRewrite] writes to the temporary file
    only. *)
Lemma DoRewrite_onlyWrites (handler : Handler) (ctx : RewriteCtx) (w : Disk) :
  let '(_, ctx', w') := DoRewrite oracle handler ctx w in
  fd_ino (tmpFile ctx') = fd_ino (tmpFile ctx) ∧
  onlyWrites (fd_ino (tmpFile ctx)) w w'.
Proof.
  unfold DoRewrite.
  pose proof (dumpDatabases_onlyWrites
                (LoadAof w (aofFilename (newRewriteHandler handler))
                   (fileSize ctx) (db (newRewriteHandler handler)))
                (seqZ 0 Databases) (tmpFile ctx) w) as Hd.
  destruct (dumpDatabases oracle _ (seqZ 0 Databases) (tmpFile ctx, w))
    as [err [f' w']].
  exact Hd.
Qed.

(** [FinishRewrite], when it leaves by one of its four early returns,
    has not touched the handler and has written to the temporary file
    only. *)
Lemma FinishRewrite_early_return (handler : Handler) (ctx : RewriteCtx)
    (w : Disk) :
  let '(how, handler', ctx', w') := FinishRewrite oracle handler ctx w in
  how = OpenFailed ∨ how = SeekFailed ∨ how = WriteFailed ∨ how = CopyFailed →
  handler' = handler ∧
  fd_ino (tmpFile ctx') = fd_ino (tmpFile ctx) ∧
  onlyWrites (fd_ino (tmpFile ctx)) w w'.
Proof.
  unfold FinishRewrite.
  pose proof (os_Open_world (aofFilename handler) w) as Ho.
  destruct (os_Open oracle (aofFilename handler) w) as [src w1].
  cbn [snd] in Ho. subst w1.
  destruct src as [src|e].
  2: { intros _. repeat split; auto. }
  pose proof (File_Seek_world src (fileSize ctx) (tick w) (fd_ino (tmpFile ctx)))
    as Hs.
  destruct (File_Seek oracle src (fileSize ctx) (tick w)) as [[err src'] w2].
  destruct Hs as [_ Hw2].
  assert (Hw2' : onlyWrites (fd_ino (tmpFile ctx)) w w2).
  { apply (onlyWrites_trans _ _ _ _ (onlyWrites_tick _ w) Hw2). }
  destruct err as [e|].
  { intros _. repeat split; try apply Hw2'. }
  pose proof (File_Write_onlyWrites oracle (tmpFile ctx)
                (selectFrame (dbIdx ctx)) w2) as H3.
  destruct (File_Write oracle (tmpFile ctx) (selectFrame (dbIdx ctx)) w2)
    as [[[n err] tmp1] w3].
  destruct H3 as (Hi3 & _ & Hw3).
  assert (Hw3' : onlyWrites (fd_ino (tmpFile ctx)) w w3).
  { apply (onlyWrites_trans _ _ _ _ Hw2' Hw3). }
  destruct err as [e|].
  { intros _. repeat split; try apply Hw3'. exact Hi3. }
  unfold io_Copy.
  pose proof (File_Write_onlyWrites oracle tmp1
                (drop (fd_pos src') (content w3 (fd_ino src'))) w3) as H4.
  destruct (File_Write oracle tmp1
              (drop (fd_pos src') (content w3 (fd_ino src'))) w3)
    as [[[n' err] tmp2] w4].
  destruct H4 as (Hi4 & _ & Hw4). rewrite Hi3 in Hw4.
  assert (Hw4' : onlyWrites (fd_ino (tmpFile ctx)) w w4).
  { apply (onlyWrites_trans _ _ _ _ Hw3' Hw4). }
  destruct err as [e|].
  { intros _. repeat split; try apply Hw4'. cbn [tmpFile]. congruence. }
  destruct (os_Rename oracle (fd_name tmp2) (aofFilename handler) w4)
    as [rerr w5].
  destruct (os_OpenFile_append oracle (aofFilename handler) w5)
    as [reopened w6].
  destruct reopened as [aofFile'|e].
  - destruct (File_Write oracle aofFile' (selectFrame (currentDB handler)) w6)
      as [[[n'' err] aofFile''] w7].
    destruct err; intros [?|[?|[?|?]]]; discriminate.
  - intros [?|[?|[?|?]]]; discriminate.
Qed.

Lemma File_Write_ticks (f : OsFile) (data : list Byte.byte) (w : Disk) :
  fd_closed f = false →
  let '(_, err, f', w') := File_Write oracle f data w in
  ticks w' = S (ticks w) ∧ fd_closed f' = false ∧
  (err = None ↔ oracle (ticks w) = IoOk).
Proof.
  intros Hopen. unfold File_Write. rewrite Hopen.
  cbn [ticks tick set_content fd_closed set_pos].
  repeat split; auto.
  - destruct (oracle (ticks w)); [reflexivity | discriminate].
  - intros ->. reflexivity.
Qed.

(** A failure of one of the first four system calls of [FinishRewrite]
    (open, seek, write, copy) makes it return early. *)
Lemma FinishRewrite_fault_returns_early (handler : Handler)
    (ctx : RewriteCtx) (w : Disk) (k p : nat) :
  (k < 4)%nat → oracle (ticks w + k)%nat = IoErr p →
  earlyReturn (fst (fst (fst (FinishRewrite oracle handler ctx w)))).
Proof.
  intros Hk Hfault. unfold FinishRewrite, earlyReturn.
  unfold os_Open.
  destruct (oracle (ticks w)) eqn:H0; [|cbn; tauto].
  destruct (names w !! aofFilename handler) as [live|]; [|cbn; tauto].
  unfold File_Seek. cbn [fd_closed ticks tick].
  destruct (oracle (S (ticks w))) eqn:H1; [|cbn; tauto].
  destruct (fileSize ctx <? 0); [cbn; tauto|].
  destruct (fd_closed (tmpFile ctx)) eqn:Hclosed.
  { unfold File_Write. rewrite Hclosed. cbn. tauto. }
  pose proof (File_Write_ticks (tmpFile ctx) (selectFrame (dbIdx ctx))
                (tick (tick w)) Hclosed) as Hw1.
  destruct (File_Write oracle (tmpFile ctx) (selectFrame (dbIdx ctx))
              (tick (tick w))) as [[[n1 err1] tmp1] w3].
  destruct Hw1 as (Ht3 & Hc3 & He3). cbn [ticks tick] in Ht3, He3.
  destruct err1 as [e|]; [cbn; tauto|].
  unfold io_Copy. cbn [fd_pos fd_ino set_pos].
  pose proof (File_Write_ticks tmp1
                (drop (Z.to_nat (fileSize ctx)) (content w3 live)) w3 Hc3) as Hw2.
  destruct (File_Write oracle tmp1
              (drop (Z.to_nat (fileSize ctx)) (content w3 live)) w3)
    as [[[n2 err2] tmp2] w4].
  destruct Hw2 as (Ht4 & _ & He4).
  destruct err2 as [e|]; [cbn; tauto|].
  exfalso.
  assert (H2 : oracle (S (S (ticks w))) = IoOk) by (apply He3; reflexivity).
  assert (H3 : oracle (S (S (S (ticks w)))) = IoOk).
  { rewrite <- Ht3. apply He4. reflexivity. }
  assert (Hcase : (k = 0 ∨ k = 1 ∨ k = 2 ∨ k = 3)%nat) by lia.
  destruct Hcase as [-> | [-> | [-> | ->]]];
    [ rewrite Nat.add_0_r in Hfault
    | replace (ticks w + 1)%nat with (S (ticks w)) in Hfault by lia
    | replace (ticks w + 2)%nat with (S (S (ticks w))) in Hfault by lia
    | replace (ticks w + 3)%nat with (S (S (S (ticks w)))) in Hfault by lia ];
    congruence.
Qed.

(** C3, as amended.  When [DoRewrite] returns an error (a [SELECT]
    frame could not be written), and when [FinishRewrite] leaves by one
    of its early returns, which it does as soon as the live AOF cannot
    be opened, the seek fails, or the [SELECT] frame or the tail cannot
    be written to the temporary file, the live AOF is as it was: it has
    the same bytes under the same name, and the handler, with its open
    file, is unchanged.  The temporary file is not removed: it is still
    there under its name. *)
Theorem rewrite_abort_keeps_live_aof (handler : Handler) (ctx : RewriteCtx)
    (w : Disk) (live : nat) :
  names w !! aofFilename handler = Some live →
  fd_ino (tmpFile ctx) ≠ live →
  (∀ e ctx' w',
     DoRewrite oracle handler ctx w = (Some e, ctx', w') →
     names w' !! aofFilename handler = Some live ∧
     content w' live = content w live ∧
     names w' !! fd_name (tmpFile ctx) = names w !! fd_name (tmpFile ctx) ∧
     (is_Some (inodes w !! fd_ino (tmpFile ctx)) →
      is_Some (inodes w' !! fd_ino (tmpFile ctx)))) ∧
  (∀ k p : nat,
     (k < 4)%nat → oracle (ticks w + k)%nat = IoErr p →
     earlyReturn (fst (fst (fst (FinishRewrite oracle handler ctx w))))) ∧
  (∀ how handler' ctx' w',
     FinishRewrite oracle handler ctx w = (how, handler', ctx', w') →
     earlyReturn how →
     handler' = handler ∧
     names w' !! aofFilename handler = Some live ∧
     content w' live = content w live ∧
     names w' !! fd_name (tmpFile ctx) = names w !! fd_name (tmpFile ctx) ∧
     (is_Some (inodes w !! fd_ino (tmpFile ctx)) →
      is_Some (inodes w' !! fd_ino (tmpFile ctx)))).
Proof.
  intros Hlive Hne. split.
  - intros e ctx' w' Hdo.
    pose proof (DoRewrite_onlyWrites handler ctx w) as Hw.
    rewrite Hdo in Hw. destruct Hw as (_ & Hn & Hs & Hc).
    repeat split.
    + rewrite Hn. exact Hlive.
    + apply Hc. congruence.
    + rewrite Hn. reflexivity.
    + apply Hs.
  - split; [intros k p; apply FinishRewrite_fault_returns_early|].
    intros how handler' ctx' w' Hfin Hhow.
    pose proof (FinishRewrite_early_return handler ctx w) as Hw.
    rewrite Hfin in Hw. destruct (Hw Hhow) as (Hh & _ & Hn & Hs & Hc).
    repeat split.
    + exact Hh.
    + rewrite Hn. exact Hlive.
    + apply Hc. congruence.
    + rewrite Hn. reflexivity.
    + apply Hs.
Qed.

End AbortFacts.

Section AbortExamples.
Import GoLib aof aof_fixture.

Lemma rewrite_abort_keeps_live_aof_witness :
  let E := extern 2 scratch2 in
  let h := liveHandler 2 scratch2 1 in
  let ctx := tmpCtx "TMP" 3 7 in
  let w := tmpDisk "OLDCONTENT" "TMP" in
  (∃ ctx' w',
     @DoRewrite E firstFails h ctx w = (Some EIO, ctx', w') ∧
     names w' !! "appendonly.aof" = Some 1%nat ∧
     content w' 1%nat = content w 1%nat) ∧
  (∃ ctx' w',
     @FinishRewrite E firstFails h ctx w = (OpenFailed, h, ctx', w') ∧
     names w' !! "appendonly.aof" = Some 1%nat ∧
     content w' 1%nat = content w 1%nat).
Proof.
  intros E h ctx w.
  destruct (@rewrite_abort_keeps_live_aof E firstFails h ctx w 1%nat)
    as (HD & _ & HF).
  - vm_compute. reflexivity.
  - vm_compute. discriminate.
  - split.
    + assert (Hdo : ∃ ctx' w',
                @DoRewrite E firstFails h ctx w = (Some EIO, ctx', w'))
        by (eexists _, _; vm_compute; reflexivity).
      destruct Hdo as (ctx' & w' & Hdo).
      destruct (HD _ _ _ Hdo) as (Hn & Hc & _).
      exists ctx', w'. split; [exact Hdo|]. split; assumption.
    + assert (Hfin : ∃ ctx' w',
                @FinishRewrite E firstFails h ctx w = (OpenFailed, h, ctx', w'))
        by (eexists _, _; vm_compute; reflexivity).
      destruct Hfin as (ctx' & w' & Hfin).
      destruct (HF _ _ _ _ Hfin) as (_ & Hn & Hc & _); [left; reflexivity|].
      exists ctx', w'. split; [exact Hfin|]. split; assumption.
Defined.

(** C3, as stated, fails on its last part: when the live AOF cannot be
    opened, [FinishRewrite] logs and returns, and the temporary file is
    still in the directory, with its bytes, and still open. *)
Lemma FinishRewrite_keeps_temp_file_counterexample :
  let '(how, _, ctx', w') :=
    @FinishRewrite (extern 2 scratch2) firstFails
      (liveHandler 2 scratch2 1) (tmpCtx "TMP" 3 7)
      (tmpDisk "OLDCONTENT" "TMP") in
  how = OpenFailed ∧
  names w' !! "/tmp/1.aof" = Some 2%nat ∧
  inodes w' !! 2%nat = Some (bytes "TMP") ∧
  fd_closed (tmpFile ctx') = false.
Proof. vm_compute. repeat split; reflexivity. Qed.

(** A write of [DoRewrite] whose result is dropped: when the command of
    the key [k] cannot be written, [Rewrite] goes on, returns no error,
    and the live AOF it installs has no command for [k]. *)
Example Rewrite_goes_on_after_failed_entry_write :
  let E := extern 2 scratch2 in
  let '(how, _, w') :=
    @Rewrite E fifthFails (liveHandler 2 scratch2 1) (liveDisk "OLD") in
  how = Return None ∧
  names w' !! "appendonly.aof" = Some 2%nat ∧
  content w' 2%nat
  = respMultiBulk ["SELECT"; "0"]
      ++ respMultiBulk ["PEXPIREAT"; "e"; "1000"]
      ++ respMultiBulk ["SELECT"; "1"]
      ++ respMultiBulk ["SET"; "k2"; "v2"]
      ++ respMultiBulk ["PEXPIREAT"; "k2"; "5"]
      ++ respMultiBulk ["SELECT"; "1"]
      ++ respMultiBulk ["SELECT"; "1"].
Proof. vm_compute. repeat split; reflexivity. Qed.

End AbortExamples.

(* --------------------------------------------------------------------- *)
(** ** [FinishRewrite] when nothing fails *)
(* --------------------------------------------------------------------- *)

Section FinishRewriteFacts.
Import GoLib aof.
Context `{Extern}.
Variable oracle : Oracle.
Hypothesis oracle_ok : ∀ k : nat, oracle k = IoOk.

Lemma atEnd_tick (f : OsFile) (w : Disk) : atEnd f w → atEnd f (tick w).
Proof. intros H0. exact H0. Qed.

(** C2.  When no system call fails, [FinishRewrite] runs to its end, and
    the live AOF it leaves is the temporary file, renamed: it holds the
    bytes the temporary file had, then the frame [SELECT dbIdx], then the
    bytes of the old live AOF from the offset [fileSize] to its end, then
    the frame [SELECT currentDB], written through the reopened file. *)
Theorem FinishRewrite_splices_tail (handler : Handler) (ctx : RewriteCtx)
    (w : Disk) (live : nat) :
  names w !! aofFilename handler = Some live →
  names w !! fd_name (tmpFile ctx) = Some (fd_ino (tmpFile ctx)) →
  fd_ino (tmpFile ctx) ≠ live →
  atEnd (tmpFile ctx) w →
  0 ≤ fileSize ctx →
  ∃ handler' ctx' w',
    FinishRewrite oracle handler ctx w = (Finished, handler', ctx', w') ∧
    names w' !! aofFilename handler' = Some (fd_ino (aofFile handler')) ∧
    content w' (fd_ino (aofFile handler'))
    = content w (fd_ino (tmpFile ctx))
        ++ selectFrame (dbIdx ctx)
        ++ drop (Z.to_nat (fileSize ctx)) (content w live)
        ++ selectFrame (currentDB handler) ∧
    fd_ino (aofFile handler') = fd_ino (tmpFile ctx) ∧
    fd_closed (aofFile handler') = false ∧
    fd_append (aofFile handler') = true ∧
    aofFilename handler' = aofFilename handler ∧
    currentDB handler' = currentDB handler.
Proof.
  intros Hlive Htmp Hne Hend Hsize.
  assert (Hnames : fd_name (tmpFile ctx) ≠ aofFilename handler).
  { intros E. rewrite E, Hlive in Htmp. congruence. }
  unfold FinishRewrite.
  (* os.Open *)
  unfold os_Open. rewrite oracle_ok, Hlive.
  (* Seek *)
  unfold File_Seek. cbn [fd_closed]. rewrite oracle_ok.
  destruct (Z.ltb_spec (fileSize ctx) 0) as [?|_]; [lia|].
  (* SELECT dbIdx *)
  destruct (File_Write_appends oracle (tmpFile ctx) (selectFrame (dbIdx ctx))
              (tick (tick w)) (oracle_ok _) Hend)
    as (tmp1 & w3 & -> & (Hi1 & Hn1 & He1 & Hc1 & Hw1)).
  (* io.Copy *)
  unfold io_Copy. cbn [fd_pos fd_ino set_pos].
  assert (Hlive3 : content w3 live = content w live).
  { destruct Hw1 as (_ & _ & Hc). rewrite Hc by congruence. reflexivity. }
  rewrite Hlive3.
  destruct (File_Write_appends oracle tmp1
              (drop (Z.to_nat (fileSize ctx)) (content w live))
              w3 (oracle_ok _) He1)
    as (tmp2 & w4 & -> & (Hi2 & Hn2 & He2 & Hc2 & Hw2)).
  (* os.Rename *)
  assert (Hnames4 : names w4 = names w).
  { destruct Hw1 as (N1 & _), Hw2 as (N2 & _). rewrite N2, N1. reflexivity. }
  unfold os_Rename. rewrite oracle_ok.
  rewrite Hnames4, Hn2, Hn1, Htmp.
  (* os.OpenFile *)
  unfold os_OpenFile_append. cbn [ticks tick names inodes].
  rewrite oracle_ok, lookup_insert_eq.
  (* SELECT currentDB *)
  set (w6 := tick (tick {| inodes := inodes w4;
                           names := <[aofFilename handler := fd_ino (tmpFile ctx)]>
                                      (delete (fd_name (tmpFile ctx)) (names w));
                           ticks := ticks w4 |})).
  set (reopened := {| fd_ino := fd_ino (tmpFile ctx);
                      fd_name := aofFilename handler; fd_pos := 0;
                      fd_append := true; fd_closed := false |}).
  assert (Hre : atEnd reopened w6).
  { split; [reflexivity|]. left. reflexivity. }
  destruct (File_Write_appends oracle reopened
              (selectFrame (currentDB handler)) w6 (oracle_ok _) Hre)
    as (aofFile' & w7 & Hw & (Hi3 & Hn3 & He3 & Hc3 & Hw3)).
  change (tick (tick {| inodes := inodes w4;
                        names := <[aofFilename handler := fd_ino (tmpFile ctx)]>
                                   (delete (fd_name (tmpFile ctx)) (names w));
                        ticks := ticks w4 |})) with w6.
  fold reopened. rewrite Hw.
  eexists _, _, w7. split; [reflexivity|].
  cbn [aofFile aofFilename currentDB].
  cbn [fd_ino reopened] in Hi3, Hc3.
  rewrite Hi3. repeat split.
  - destruct Hw3 as (N3 & _). rewrite N3. subst w6. cbn [names tick].
    apply lookup_insert_eq.
  - rewrite Hc3.
    change (content w6 (fd_ino (tmpFile ctx)))
      with (content w4 (fd_ino (tmpFile ctx))).
    rewrite <- Hi1 at 1. rewrite Hc2, Hi1, Hc1.
    change (content (tick (tick w)) ?i) with (content w i).
    rewrite <- !app_assoc. reflexivity.
  - apply He3.
  - destruct He3 as [_ [Ha|Hp]]; [exact Ha|].
    revert Hw. unfold File_Write. cbn [fd_closed fd_append reopened].
    intros Hw. inversion Hw. reflexivity.
Qed.

End FinishRewriteFacts.

Section FinishRewriteExamples.
Import GoLib aof aof_fixture.

Lemma FinishRewrite_splices_tail_witness :
  let E := extern 2 scratch2 in
  let h := liveHandler 2 scratch2 1 in
  ∃ handler' ctx' w',
    @FinishRewrite E noFault h (tmpCtx "TMP" 3 7) (tmpDisk "OLDCONTENT" "TMP")
    = (Finished, handler', ctx', w') ∧
    names w' !! aofFilename handler' = Some (fd_ino (aofFile handler')) ∧
    content w' (fd_ino (aofFile handler'))
    = bytes "TMP" ++ respMultiBulk ["SELECT"; "7"]
        ++ bytes "CONTENT" ++ respMultiBulk ["SELECT"; "1"] ∧
    fd_ino (aofFile handler') = 2%nat ∧
    fd_closed (aofFile handler') = false ∧
    fd_append (aofFile handler') = true ∧
    aofFilename handler' = "appendonly.aof" ∧
    currentDB handler' = 1.
Proof.
  intros E h.
  apply (@FinishRewrite_splices_tail E noFault (λ _, eq_refl) h
           (tmpCtx "TMP" 3 7) (tmpDisk "OLDCONTENT" "TMP") 1%nat).
  - vm_compute. reflexivity.
  - vm_compute. reflexivity.
  - vm_compute. discriminate.
  - split; [reflexivity|]. right. vm_compute. reflexivity.
  - vm_compute. discriminate.
Defined.

(** The three phases in a row, on a live AOF of ten bytes: the scratch
    database is dumped, and since the live AOF has not grown in the
    meantime the tail is empty. *)
Example Rewrite_scenario :
  let E := extern 2 scratch2 in
  let '(how, h', w') :=
    @Rewrite E noFault (liveHandler 2 scratch2 1) (liveDisk "OLDCONTENT") in
  how = Return None ∧
  names w' !! "appendonly.aof" = Some 2%nat ∧
  names w' !! "/tmp/1.aof" = None ∧
  fd_ino (aofFile h') = 2%nat ∧
  content w' 2%nat
  = @dumpFrames E (@entryFrames E) scratch2
      ++ respMultiBulk ["SELECT"; "1"] ++ respMultiBulk ["SELECT"; "1"].
Proof. vm_compute. repeat split; reflexivity. Qed.

End FinishRewriteExamples.

(* --------------------------------------------------------------------- *)
(** ** [StartRewrite] *)
(* --------------------------------------------------------------------- *)

Section StartRewriteFacts.
Import GoLib aof.
Context `{Extern}.
Variable oracle : Oracle.
Hypothesis oracle_ok : ∀ k : nat, oracle k = IoOk.

(** [StartRewrite], when nothing fails, hands over a context that records
    the length of the live AOF and the selected database, with a new and
    empty temporary file. *)
Lemma StartRewrite_prepares (handler : Handler) (w : Disk) (live : nat) :
  fd_closed (aofFile handler) = false →
  names w !! aofFilename handler = Some live →
  is_Some (inodes w !! live) →
  names w !! tempName (tick (tick w)) = None →
  ∃ ctx w',
    StartRewrite oracle handler w = (Return (inl ctx), w') ∧
    fileSize ctx = Z.of_nat (length (content w live)) ∧
    dbIdx ctx = currentDB handler ∧
    atEnd (tmpFile ctx) w' ∧
    content w' (fd_ino (tmpFile ctx)) = [] ∧
    fd_ino (tmpFile ctx) ≠ live ∧
    names w' !! fd_name (tmpFile ctx) = Some (fd_ino (tmpFile ctx)) ∧
    names w' !! aofFilename handler = Some live ∧
    content w' live = content w live.
Proof.
  intros Hopen Hlive Hex Hfresh.
  assert (Hne : fresh (dom (inodes w)) ≠ live).
  { intros E. apply (is_fresh (dom (inodes w))). rewrite E.
    apply elem_of_dom, Hex. }
  assert (Hnames : tempName (tick (tick w)) ≠ aofFilename handler).
  { intros E. rewrite E, Hlive in Hfresh. discriminate. }
  unfold StartRewrite, File_Sync. rewrite Hopen, oracle_ok.
  unfold os_Stat. cbn [ticks tick names]. rewrite oracle_ok, Hlive.
  unfold ioutil_TempFile. cbn [ticks tick names inodes].
  rewrite oracle_ok, Hfresh.
  eexists _, _. split; [reflexivity|].
  cbn [fileSize dbIdx tmpFile fd_ino fd_name].
  unfold atEnd, content. cbn [fd_closed fd_append fd_pos fd_ino inodes names tick].
  rewrite lookup_insert_eq, lookup_insert_eq.
  rewrite lookup_insert_ne by congruence.
  rewrite lookup_insert_ne by congruence.
  repeat split; auto.
Qed.

End StartRewriteFacts.

(* --------------------------------------------------------------------- *)
(** ** [FinishRewrite], phase by phase *)
(* --------------------------------------------------------------------- *)

Section FinishPhases.
Import GoLib aof.
Context `{Extern}.
Variable oracle : Oracle.

Lemma succeed_0 (k n : nat) :
  succeed oracle k (S n) → oracle k = IoOk.
Proof. intros Hs. rewrite <- (Nat.add_0_r k). apply Hs. lia. Qed.

Lemma succeed_S (k n : nat) :
  succeed oracle k (S n) → succeed oracle (S k) n.
Proof.
  intros Hs j Hj. replace (S k + j)%nat with (k + S j)%nat by lia.
  apply Hs. lia.
Qed.

(** A write that does not fail, through a handle at the end of its file:
    what it returns, where it leaves the handle, and the clock. *)
Lemma File_Write_appends_ticks (f : OsFile) (data : list Byte.byte)
    (w : Disk) :
  oracle (ticks w) = IoOk → atEnd f w →
  ∃ f' w',
    File_Write oracle f data w = (length data, None, f', w') ∧
    appended f w data f' w' ∧ ticks w' = S (ticks w).
Proof.
  intros Hok Hend.
  destruct (File_Write_appends oracle f data w Hok Hend)
    as (f' & w' & Hw & Happ).
  exists f', w'. split; [exact Hw|]. split; [exact Happ|].
  pose proof (File_Write_ticks oracle f data w (proj1 Hend)) as Ht.
  rewrite Hw in Ht. apply Ht.
Qed.

(** When the open, the seek, the write of [SELECT dbIdx] and the copy
    succeed, [FinishRewrite] has added [SELECT dbIdx] and the tail of the
    live AOF to the temporary file, and goes on to install it. *)
Lemma FinishRewrite_copy_done (handler : Handler) (ctx : RewriteCtx)
    (w : Disk) (live : nat) :
  succeed oracle (ticks w) 4 →
  names w !! aofFilename handler = Some live →
  fd_ino (tmpFile ctx) ≠ live →
  atEnd (tmpFile ctx) w →
  0 ≤ fileSize ctx →
  ∃ tmp2 w4,
    appended (tmpFile ctx) w
      (selectFrame (dbIdx ctx)
         ++ drop (Z.to_nat (fileSize ctx)) (content w live))
      tmp2 w4 ∧
    ticks w4 = (ticks w + 4)%nat ∧
    FinishRewrite oracle handler ctx w
    = installRewritten oracle handler
        {| tmpFile := tmp2; fileSize := fileSize ctx; dbIdx := dbIdx ctx |} w4.
Proof.
  intros Hok Hlive Hne Hend Hsize.
  pose proof (succeed_0 _ _ Hok) as H0.
  pose proof (succeed_S _ _ Hok) as Hok1.
  pose proof (succeed_0 _ _ Hok1) as H1.
  pose proof (succeed_S _ _ Hok1) as Hok2.
  pose proof (succeed_0 _ _ Hok2) as H2.
  pose proof (succeed_S _ _ Hok2) as Hok3.
  pose proof (succeed_0 _ _ Hok3) as H3.
  unfold FinishRewrite, os_Open. rewrite H0, Hlive.
  unfold File_Seek. cbn [fd_closed ticks tick]. rewrite H1.
  destruct (Z.ltb_spec (fileSize ctx) 0) as [?|_]; [lia|].
  destruct (File_Write_appends_ticks (tmpFile ctx) (selectFrame (dbIdx ctx))
              (tick (tick w)) H2 Hend)
    as (tmp1 & w3 & -> & Happ1 & Ht3).
  cbn [ticks tick] in Ht3.
  unfold io_Copy. cbn [fd_pos fd_ino set_pos].
  assert (Hlive3 : content w3 live = content w live).
  { destruct Happ1 as (_ & _ & _ & _ & (_ & _ & Hc)).
    rewrite Hc by congruence. reflexivity. }
  rewrite Hlive3.
  assert (H3' : oracle (ticks w3) = IoOk) by (rewrite Ht3; exact H3).
  destruct (File_Write_appends_ticks tmp1
              (drop (Z.to_nat (fileSize ctx)) (content w live)) w3 H3'
              (proj1 (proj2 (proj2 Happ1))))
    as (tmp2 & w4 & -> & Happ2 & Ht4).
  exists tmp2, w4. split; [|split].
  - apply (appended_trans _ _ _ _ _ _ _ _ Happ1 Happ2).
  - rewrite Ht4, Ht3. lia.
  - reflexivity.
Qed.

(** The installation when nothing fails. *)
Lemma installRewritten_ok (handler : Handler) (ctx : RewriteCtx) (w : Disk) :
  succeed oracle (ticks w) 3 →
  names w !! fd_name (tmpFile ctx) = Some (fd_ino (tmpFile ctx)) →
  ∃ handler' w',
    installRewritten oracle handler ctx w = (Finished, handler', ctx, w') ∧
    aofFilename handler' = aofFilename handler ∧
    currentDB handler' = currentDB handler ∧
    fd_ino (aofFile handler') = fd_ino (tmpFile ctx) ∧
    names w' !! aofFilename handler = Some (fd_ino (tmpFile ctx)) ∧
    content w' (fd_ino (tmpFile ctx))
    = content w (fd_ino (tmpFile ctx)) ++ selectFrame (currentDB handler).
Proof.
  intros Hok Htmp.
  pose proof (succeed_0 _ _ Hok) as H0.
  pose proof (succeed_S _ _ Hok) as Hok1.
  pose proof (succeed_0 _ _ Hok1) as H1.
  pose proof (succeed_S _ _ Hok1) as Hok2.
  pose proof (succeed_0 _ _ Hok2) as H2.
  unfold installRewritten, os_Rename. rewrite H0, Htmp.
  unfold os_OpenFile_append. cbn [ticks tick names inodes].
  rewrite H1, lookup_insert_eq.
  set (w2 := tick (tick {| inodes := inodes w;
                           names := <[aofFilename handler := fd_ino (tmpFile ctx)]>
                                      (delete (fd_name (tmpFile ctx)) (names w));
                           ticks := ticks w |})).
  set (reopened := {| fd_ino := fd_ino (tmpFile ctx);
                      fd_name := aofFilename handler; fd_pos := 0;
                      fd_append := true; fd_closed := false |}).
  assert (Hre : atEnd reopened w2) by (split; [reflexivity | left; reflexivity]).
  destruct (File_Write_appends oracle reopened
              (selectFrame (currentDB handler)) w2 H2 Hre)
    as (aofFile' & w3 & -> & (Hi & _ & _ & Hc & (Hn & _))).
  eexists _, w3. split; [reflexivity|].
  cbn [aofFilename currentDB aofFile].
  cbn [fd_ino reopened] in Hi, Hc.
  repeat split.
  - exact Hi.
  - rewrite Hn. subst w2. cbn [names tick]. apply lookup_insert_eq.
  - rewrite Hc. reflexivity.
Qed.

(** When the rename fails, and nothing else does, [FinishRewrite] still
    runs to its end: the live AOF is the old file, reopened, with one
    more [SELECT currentDB] frame at its end, and the temporary file
    stays under its name with the spliced tail. *)
Theorem FinishRewrite_rename_fails (handler : Handler) (ctx : RewriteCtx)
    (w : Disk) (live p : nat) :
  succeed oracle (ticks w) 4 →
  oracle (ticks w + 4)%nat = IoErr p →
  succeed oracle (ticks w + 5) 2 →
  names w !! aofFilename handler = Some live →
  names w !! fd_name (tmpFile ctx) = Some (fd_ino (tmpFile ctx)) →
  fd_ino (tmpFile ctx) ≠ live →
  atEnd (tmpFile ctx) w →
  0 ≤ fileSize ctx →
  ∃ handler' ctx' w',
    FinishRewrite oracle handler ctx w = (Finished, handler', ctx', w') ∧
    names w' !! aofFilename handler = Some live ∧
    fd_ino (aofFile handler') = live ∧
    fd_closed (aofFile handler') = false ∧
    content w' live = content w live ++ selectFrame (currentDB handler) ∧
    names w' !! fd_name (tmpFile ctx) = Some (fd_ino (tmpFile ctx)) ∧
    content w' (fd_ino (tmpFile ctx))
    = content w (fd_ino (tmpFile ctx))
        ++ selectFrame (dbIdx ctx)
        ++ drop (Z.to_nat (fileSize ctx)) (content w live).
Proof.
  intros Hok Hfail Hok2 Hlive Htmp Hne Hend Hsize.
  destruct (FinishRewrite_copy_done handler ctx w live Hok Hlive Hne Hend Hsize)
    as (tmp2 & w4 & (Hi & Hn & _ & Hc & (Hnames & _ & Hother)) & Ht4 & ->).
  unfold installRewritten, os_Rename. rewrite Ht4, Hfail.
  unfold os_OpenFile_append. cbn [ticks tick names inodes].
  replace (S (ticks w4)) with (ticks w + 5 + 0)%nat by lia.
  rewrite (Hok2 0%nat ltac:(lia)), Hnames, Hlive.
  set (w6 := tick (tick w4)).
  set (reopened := {| fd_ino := live; fd_name := aofFilename handler;
                      fd_pos := 0; fd_append := true; fd_closed := false |}).
  assert (Hre : atEnd reopened w6) by (split; [reflexivity | left; reflexivity]).
  assert (H6 : oracle (ticks w6) = IoOk).
  { subst w6. cbn [ticks tick]. rewrite Ht4.
    replace (S (S (ticks w + 4))) with (ticks w + 5 + 1)%nat by lia.
    apply Hok2. lia. }
  destruct (File_Write_appends oracle reopened
              (selectFrame (currentDB handler)) w6 H6 Hre)
    as (aofFile' & w7 & -> & (Hi7 & _ & He7 & Hc7 & (Hn7 & _ & Hother7))).
  eexists _, _, w7. split; [reflexivity|].
  cbn [aofFile]. cbn [fd_ino reopened] in Hi7, Hc7, Hother7.
  repeat split.
  - rewrite Hn7. subst w6. cbn [names tick]. rewrite Hnames. exact Hlive.
  - exact Hi7.
  - apply He7.
  - rewrite Hc7. subst w6. rewrite !content_tick.
    rewrite Hother by congruence. reflexivity.
  - rewrite Hn7. subst w6. cbn [names tick]. rewrite Hnames. exact Htmp.
  - rewrite Hother7 by exact Hne. subst w6. rewrite !content_tick.
    exact Hc.
Qed.

(** When the live AOF cannot be reopened after the rename,
    [FinishRewrite] panics: by then the temporary file has replaced the
    live AOF, without the final [SELECT currentDB] frame, and the file of
    the handler is closed. *)
Theorem FinishRewrite_reopen_panics (handler : Handler) (ctx : RewriteCtx)
    (w : Disk) (live p : nat) :
  succeed oracle (ticks w) 5 →
  oracle (ticks w + 5)%nat = IoErr p →
  names w !! aofFilename handler = Some live →
  names w !! fd_name (tmpFile ctx) = Some (fd_ino (tmpFile ctx)) →
  fd_ino (tmpFile ctx) ≠ live →
  atEnd (tmpFile ctx) w →
  0 ≤ fileSize ctx →
  ∃ handler' ctx' w',
    FinishRewrite oracle handler ctx w = (ReopenPanic, handler', ctx', w') ∧
    fd_closed (aofFile handler') = true ∧
    fd_ino (aofFile handler') = fd_ino (aofFile handler) ∧
    names w' !! aofFilename handler = Some (fd_ino (tmpFile ctx)) ∧
    content w' (fd_ino (tmpFile ctx))
    = content w (fd_ino (tmpFile ctx))
        ++ selectFrame (dbIdx ctx)
        ++ drop (Z.to_nat (fileSize ctx)) (content w live).
Proof.
  intros Hok Hfail Hlive Htmp Hne Hend Hsize.
  assert (Hok4 : succeed oracle (ticks w) 4).
  { intros j Hj. apply Hok. lia. }
  destruct (FinishRewrite_copy_done handler ctx w live Hok4 Hlive Hne Hend Hsize)
    as (tmp2 & w4 & (Hi & Hn & _ & Hc & (Hnames & _ & _)) & Ht4 & ->).
  unfold installRewritten, os_Rename. cbn [tmpFile].
  rewrite Ht4, (Hok 4%nat ltac:(lia)), Hnames, Hn, Htmp.
  unfold os_OpenFile_append. cbn [ticks tick names inodes].
  replace (S (ticks w + 4)) with (ticks w + 5)%nat by lia.
  rewrite Hfail.
  eexists _, _, _. split; [reflexivity|].
  cbn [aofFile File_Close fd_closed fd_ino names tick].
  repeat split.
  - apply lookup_insert_eq.
  - unfold content in *. cbn [inodes tick]. exact Hc.
Qed.

End FinishPhases.

(* --------------------------------------------------------------------- *)
(** ** [StartRewrite] and [Rewrite] *)
(* --------------------------------------------------------------------- *)

Section RewriteMore.
Import GoLib aof.
Context `{Extern}.
Variable oracle : Oracle.

(** [StartRewrite] changes no file that exists; when it hands over a
    context it has added the temporary file, under a name and an inode
    that were free, and nothing else; when it does not, the directory is
    as it was. *)
Lemma StartRewrite_frame (handler : Handler) (w : Disk) :
  let '(r, w') := StartRewrite oracle handler w in
  (∀ i : nat, is_Some (inodes w !! i) → inodes w' !! i = inodes w !! i) ∧
  match r with
  | Return (inl ctx) =>
      names w !! fd_name (tmpFile ctx) = None ∧
      inodes w !! fd_ino (tmpFile ctx) = None ∧
      names w' = <[fd_name (tmpFile ctx) := fd_ino (tmpFile ctx)]> (names w) ∧
      is_Some (names w !! aofFilename handler)
  | _ => names w' = names w
  end.
Proof.
  unfold StartRewrite, File_Sync.
  destruct (fd_closed (aofFile handler)); [split; auto|].
  destruct (oracle (ticks w)); [|split; auto].
  unfold os_Stat. cbn [ticks tick names].
  destruct (oracle (S (ticks w))); [|split; auto].
  destruct (names w !! aofFilename handler) as [live|] eqn:Hlive; [|split; auto].
  unfold ioutil_TempFile. cbn [ticks tick names inodes].
  destruct (oracle (S (S (ticks w)))); [|split; auto].
  destruct (names w !! tempName (tick (tick w))) eqn:Hfree; [split; auto|].
  cbn [tmpFile fd_name fd_ino inodes names tick].
  assert (Hnew : inodes w !! fresh (dom (inodes w)) = None).
  { apply not_elem_of_dom. apply is_fresh. }
  split.
  - intros i [c Hc]. apply lookup_insert_ne. congruence.
  - repeat split; eauto.
Qed.

(** When the live AOF is no longer in the directory, or cannot be
    examined, [StartRewrite] panics: the error of [os.Stat] is dropped
    and the size is read from a nil [fileInfo]. *)
Theorem StartRewrite_missing_aof_panics (handler : Handler) (w : Disk) :
  fd_closed (aofFile handler) = false →
  oracle (ticks w) = IoOk →
  oracle (S (ticks w)) ≠ IoOk ∨ names w !! aofFilename handler = None →
  StartRewrite oracle handler w = (Panic, tick (tick w)).
Proof.
  intros Hopen H0 Hmiss.
  unfold StartRewrite, File_Sync. rewrite Hopen, H0.
  unfold os_Stat. cbn [ticks tick names].
  destruct (oracle (S (ticks w))); [|reflexivity].
  destruct Hmiss as [?| ->]; [congruence | reflexivity].
Qed.

(** Whether its writes fail or not, [DoRewrite] writes to the temporary
    file only: the directory, every other file, and the size and the
    database index recorded in the context are unchanged. *)
Theorem DoRewrite_writes_temp_file_only (handler : Handler)
    (ctx : RewriteCtx) (w : Disk) :
  let '(_, ctx', w') := DoRewrite oracle handler ctx w in
  names w' = names w ∧
  (∀ i : nat, i ≠ fd_ino (tmpFile ctx) → content w' i = content w i) ∧
  (∀ i : nat, is_Some (inodes w !! i) → is_Some (inodes w' !! i)) ∧
  fd_ino (tmpFile ctx') = fd_ino (tmpFile ctx) ∧
  fileSize ctx' = fileSize ctx ∧ dbIdx ctx' = dbIdx ctx.
Proof.
  unfold DoRewrite.
  pose proof (dumpDatabases_onlyWrites oracle
                (LoadAof w (aofFilename (newRewriteHandler handler))
                   (fileSize ctx) (db (newRewriteHandler handler)))
                (seqZ 0 Databases) (tmpFile ctx) w) as Hd.
  destruct (dumpDatabases oracle _ (seqZ 0 Databases) (tmpFile ctx, w))
    as [err [f' w']].
  destruct Hd as (Hi & Hn & Hs & Hc). cbn [tmpFile fileSize dbIdx].
  repeat split; assumption.
Qed.

(** When [Rewrite] returns an error, the handler and the live AOF are as
    they were. *)
Theorem Rewrite_error_keeps_live_aof (handler handler' : Handler)
    (w w' : Disk) (e : error) (live : nat) :
  Rewrite oracle handler w = (Return (Some e), handler', w') →
  names w !! aofFilename handler = Some live →
  is_Some (inodes w !! live) →
  handler' = handler ∧
  names w' !! aofFilename handler = Some live ∧
  content w' live = content w live.
Proof.
  unfold Rewrite. intros Hrw Hlive Hex.
  pose proof (StartRewrite_frame handler w) as Hstart.
  destruct (StartRewrite oracle handler w) as [started w1].
  destruct Hstart as [Hkeep Hnames].
  assert (Hc1 : content w1 live = content w live).
  { unfold content. rewrite (Hkeep live Hex). reflexivity. }
  destruct started as [[ctx|e1]|]; [| |discriminate].
  - destruct Hnames as (Hfree & Hnew & Hn1 & _).
    pose proof (DoRewrite_onlyWrites oracle handler ctx w1) as Hdo.
    destruct (DoRewrite oracle handler ctx w1) as [[err ctx2] w2].
    destruct Hdo as (_ & Hn2 & _ & Hc2).
    destruct err as [e2|].
    + inversion Hrw; subst. split; [reflexivity|].
      assert (Hne : live ≠ fd_ino (tmpFile ctx)).
      { intros E. rewrite <- E in Hnew. destruct Hex as [c Hc]. congruence. }
      split.
      * rewrite Hn2, Hn1. rewrite lookup_insert_ne; [exact Hlive|].
        intros E. rewrite E in Hfree. congruence.
      * rewrite (Hc2 live Hne). exact Hc1.
    + destruct (FinishRewrite oracle handler ctx2 w2) as [[[how h2] c3] w3].
      destruct how; discriminate.
  - inversion Hrw; subst. split; [reflexivity|].
    split; [rewrite Hnames; exact Hlive | exact Hc1].
Qed.

End RewriteMore.

Section RewritePipeline.
Import GoLib aof.
Context `{Extern}.
Variable oracle : Oracle.
Hypothesis oracle_ok : ∀ k : nat, oracle k = IoOk.

Lemma oracle_ok_succeed (k n : nat) : succeed oracle k n.
Proof. intros j _. apply oracle_ok. Qed.

(** [Rewrite], when no system call fails, replaces the live AOF by a new
    file that holds the dump of the scratch database, replayed from the
    bytes the live AOF had, followed by two [SELECT currentDB] frames:
    the one written before the tail, which is empty, and the one written
    after the file is reopened. *)
Theorem Rewrite_installs_dump (handler : Handler) (w : Disk) (live : nat) :
  fd_closed (aofFile handler) = false →
  names w !! aofFilename handler = Some live →
  is_Some (inodes w !! live) →
  names w !! tempName (tick (tick w)) = None →
  ∃ handler' w1 w',
    Rewrite oracle handler w = (Return None, handler', w') ∧
    names w1 !! aofFilename handler = Some live ∧
    content w1 live = content w live ∧
    names w' !! aofFilename handler = Some (fd_ino (aofFile handler')) ∧
    fd_ino (aofFile handler') ≠ live ∧
    currentDB handler' = currentDB handler ∧
    content w' (fd_ino (aofFile handler'))
    = dumpFrames entryFrames
        (LoadAof w1 (aofFilename handler)
           (Z.of_nat (length (content w live))) tmpDBMaker)
        ++ selectFrame (currentDB handler)
        ++ selectFrame (currentDB handler).
Proof.
  intros Hopen Hlive Hex Hfresh.
  destruct (StartRewrite_prepares oracle oracle_ok handler w live
              Hopen Hlive Hex Hfresh)
    as (ctx & w1 & Hstart & Hsize & Hidx & Hend & Hempty & Hne & Htmp
        & Hlive1 & Hc1).
  destruct (dumpDatabases_appends oracle oracle_ok
              (LoadAof w1 (aofFilename handler) (fileSize ctx) tmpDBMaker)
              (seqZ 0 Databases) (tmpFile ctx) w1 Hend)
    as (tmp2 & w2 & Hdump & (Hi2 & Hn2 & Hend2 & Hc2 & (Hnames2 & _ & Hother2))).
  set (ctx2 := {| tmpFile := tmp2; fileSize := fileSize ctx; dbIdx := dbIdx ctx |}).
  assert (Hdo : DoRewrite oracle handler ctx w1 = (None, ctx2, w2)).
  { unfold DoRewrite. cbn [newRewriteHandler aofFilename db].
    rewrite Hdump. reflexivity. }
  destruct (FinishRewrite_copy_done oracle handler ctx2 w2 live
              (oracle_ok_succeed _ _))
    as (tmp3 & w4 & (Hi3 & Hn3 & _ & Hc3 & (Hnames4 & _ & _)) & _ & Hfin).
  { rewrite Hnames2. exact Hlive1. }
  { cbn [tmpFile ctx2]. congruence. }
  { exact Hend2. }
  { cbn [fileSize ctx2]. lia. }
  set (ctx3 := {| tmpFile := tmp3; fileSize := fileSize ctx2; dbIdx := dbIdx ctx2 |}) in *.
  destruct (installRewritten_ok oracle handler ctx3 w4 (oracle_ok_succeed _ _))
    as (handler' & w5 & Hinst & _ & Hcur & Hino & Hnames5 & Hc5).
  { cbn [tmpFile ctx3 ctx2] in *. rewrite Hnames4, Hnames2, Hn3, Hi3, Hn2, Hi2.
    exact Htmp. }
  exists handler', w1, w5.
  cbn [tmpFile ctx3 ctx2 fileSize dbIdx] in *.
  unfold Rewrite. rewrite Hstart, Hdo, Hfin, Hinst.
  split; [reflexivity|]. split; [exact Hlive1|]. split; [exact Hc1|].
  rewrite Hi3, Hi2 in Hino, Hnames5, Hc5. rewrite Hi2 in Hc3.
  rewrite Hino.
  split; [exact Hnames5|]. split; [exact Hne|]. split; [exact Hcur|].
  rewrite Hc5, Hc3, Hc2, Hempty.
  rewrite Hother2 by congruence. rewrite Hc1, Hsize, Hidx.
  rewrite Nat2Z.id, drop_all, app_nil_r. cbn [app].
  unfold dumpFrames. rewrite <- app_assoc. reflexivity.
Qed.

End RewritePipeline.

Section RewriteMoreExamples.
Import GoLib aof aof_fixture.

Lemma FinishRewrite_rename_fails_witness :
  let E := extern 2 scratch2 in
  let h := liveHandler 2 scratch2 1 in
  let ctx := tmpCtx "TMP" 3 7 in
  let w := tmpDisk "OLDCONTENT" "TMP" in
  ∃ handler' ctx' w',
    @FinishRewrite E (failsAt 4) h ctx w = (Finished, handler', ctx', w') ∧
    names w' !! "appendonly.aof" = Some 1%nat ∧
    fd_ino (aofFile handler') = 1%nat ∧
    fd_closed (aofFile handler') = false ∧
    content w' 1%nat = bytes "OLDCONTENT" ++ respMultiBulk ["SELECT"; "1"] ∧
    names w' !! "/tmp/1.aof" = Some 2%nat ∧
    content w' 2%nat
    = bytes "TMP" ++ respMultiBulk ["SELECT"; "7"] ++ bytes "CONTENT".
Proof.
  intros E h ctx w.
  apply (@FinishRewrite_rename_fails E (failsAt 4) h ctx w 1%nat 0%nat).
  - intros j Hj. vm_compute.
    destruct j as [|[|[|[|j]]]]; [reflexivity | reflexivity | reflexivity
                                  | reflexivity | lia].
  - reflexivity.
  - intros j Hj. destruct j as [|[|j]]; [reflexivity | reflexivity | lia].
  - reflexivity.
  - reflexivity.
  - vm_compute. discriminate.
  - split; [reflexivity|]. right. reflexivity.
  - vm_compute. discriminate.
Defined.

Lemma FinishRewrite_reopen_panics_witness :
  let E := extern 2 scratch2 in
  let h := liveHandler 2 scratch2 1 in
  let ctx := tmpCtx "TMP" 3 7 in
  let w := tmpDisk "OLDCONTENT" "TMP" in
  ∃ handler' ctx' w',
    @FinishRewrite E (failsAt 5) h ctx w = (ReopenPanic, handler', ctx', w') ∧
    fd_closed (aofFile handler') = true ∧
    fd_ino (aofFile handler') = 1%nat ∧
    names w' !! "appendonly.aof" = Some 2%nat ∧
    content w' 2%nat
    = bytes "TMP" ++ respMultiBulk ["SELECT"; "7"] ++ bytes "CONTENT".
Proof.
  intros E h ctx w.
  apply (@FinishRewrite_reopen_panics E (failsAt 5) h ctx w 1%nat 0%nat).
  - intros j Hj.
    destruct j as [|[|[|[|[|j]]]]]; [reflexivity | reflexivity | reflexivity
                                     | reflexivity | reflexivity | lia].
  - reflexivity.
  - reflexivity.
  - reflexivity.
  - vm_compute. discriminate.
  - split; [reflexivity|]. right. reflexivity.
  - vm_compute. discriminate.
Defined.

Lemma StartRewrite_missing_aof_panics_witness :
  let E := extern 2 scratch2 in
  @StartRewrite E noFault (liveHandler 2 scratch2 1) (unlinkedDisk "OLD")
  = (Panic, tick (tick (unlinkedDisk "OLD"))).
Proof.
  intros E.
  apply (@StartRewrite_missing_aof_panics E noFault
           (liveHandler 2 scratch2 1) (unlinkedDisk "OLD")).
  - reflexivity.
  - reflexivity.
  - right. reflexivity.
Defined.

Lemma Rewrite_error_keeps_live_aof_witness :
  let E := extern 2 scratch2 in
  let h := liveHandler 2 scratch2 1 in
  ∃ w',
    @Rewrite E (failsAt 3) h (liveDisk "OLDCONTENT") = (Return (Some EIO), h, w') ∧
    names w' !! "appendonly.aof" = Some 1%nat ∧
    content w' 1%nat = bytes "OLDCONTENT".
Proof.
  intros E h.
  assert (Hrw : ∃ w', @Rewrite E (failsAt 3) h (liveDisk "OLDCONTENT")
                      = (Return (Some EIO), h, w'))
    by (eexists; vm_compute; reflexivity).
  destruct Hrw as [w' Hrw]. exists w'. split; [exact Hrw|].
  destruct (@Rewrite_error_keeps_live_aof E (failsAt 3) h h
              (liveDisk "OLDCONTENT") w' EIO 1%nat Hrw) as (_ & Hn & Hc).
  - reflexivity.
  - vm_compute. eauto.
  - split; [exact Hn | exact Hc].
Defined.

Lemma Rewrite_installs_dump_witness :
  let E := extern 2 scratch2 in
  let h := liveHandler 2 scratch2 1 in
  let w := liveDisk "OLDCONTENT" in
  ∃ handler' w1 w',
    @Rewrite E noFault h w = (Return None, handler', w') ∧
    names w1 !! "appendonly.aof" = Some 1%nat ∧
    content w1 1%nat = content w 1%nat ∧
    names w' !! "appendonly.aof" = Some (fd_ino (aofFile handler')) ∧
    fd_ino (aofFile handler') ≠ 1%nat ∧
    currentDB handler' = 1 ∧
    content w' (fd_ino (aofFile handler'))
    = @dumpFrames E (@entryFrames E) scratch2
        ++ respMultiBulk ["SELECT"; "1"] ++ respMultiBulk ["SELECT"; "1"].
Proof.
  intros E h w.
  apply (@Rewrite_installs_dump E noFault (λ _, eq_refl) h w 1%nat).
  - reflexivity.
  - reflexivity.
  - vm_compute. eauto.
  - reflexivity.
Defined.

End RewriteMoreExamples.

(* --------------------------------------------------------------------- *)
(** ** Transactions: rollback *)
(* --------------------------------------------------------------------- *)

Section RollbackFacts.
Import GoLib cluster.
Context `{EmbedDB}.

(** C8.  [rollbackWithLock] never returns an error: the status it
    compares with [curStatus] is the one it has just copied into
    [curStatus], so the branch that returns "status changed" is not
    taken, and the two other ways out return nil. *)
Theorem rollbackWithLock_returns_nil (tx : Transaction) (d : DBState) :
  fst (rollbackWithLock tx d) = None.
Proof.
  unfold rollbackWithLock. rewrite Z.eqb_refl. cbn [negb].
  destruct (status tx =? rolledBackStatus); [reflexivity|].
  destruct (lockKeys tx d) as [tx1 d1].
  destruct (unLockKeys tx1 (execUndoLog (conn tx1) (undoLog tx1) d1))
    as [tx2 d2].
  reflexivity.
Qed.

(** On a transaction that is rolled back already, [rollbackWithLock]
    does nothing. *)
Lemma rollbackWithLock_rolled_back (tx : Transaction) (d : DBState) :
  status tx = rolledBackStatus →
  rollbackWithLock tx d = (None, (tx, d)).
Proof.
  intros Hs. unfold rollbackWithLock. rewrite Z.eqb_refl, Hs. reflexivity.
Qed.

(** On any other transaction it runs the undo log, with the keys
    locked, and leaves the transaction rolled back and its keys
    unlocked. *)
Lemma rollbackWithLock_undoes (tx : Transaction) (d : DBState) :
  status tx ≠ rolledBackStatus →
  let locked := fst (lockKeys tx d) in
  let d1 := execUndoLog (conn tx) (undoLog tx) (snd (lockKeys tx d)) in
  rollbackWithLock tx d
  = (None, (set_status (set_keysLocked tx false) rolledBackStatus,
            RWUnLocks d1 (dbIndex tx) (writeKeys tx) (readKeys tx))).
Proof.
  intros Hs. unfold rollbackWithLock. rewrite Z.eqb_refl. cbn [negb].
  destruct (Z.eqb_spec (status tx) rolledBackStatus) as [?|_]; [contradiction|].
  unfold lockKeys, unLockKeys.
  destruct (keysLocked tx) eqn:Hk; cbn [negb fst snd].
  - rewrite Hk. reflexivity.
  - cbn [keysLocked set_keysLocked conn undoLog dbIndex writeKeys readKeys].
    reflexivity.
Qed.

Variable prepareFuncMap : gmap string CmdFunc.

(** C7.  [Rollback txID], on a transaction of the table that is rolled
    back already, replies the integer 1; no command of the undo log is
    run: the database with its key locks, the transaction with its
    status, and the table are what they were.  The only change is the
    cleaning job handed to the timer wheel. *)
Theorem execRollback_idempotent (st : Cluster) (c : Connection)
    (name txID : string) (a : nat) (tx : Transaction) :
  transactions st !! txID = Some a →
  heap st !! a = Some tx →
  status tx = rolledBackStatus →
  ∃ st',
    execRollback st c [name; txID] = Some (IntReply 1, st') ∧
    rollbackWithLock tx (db st) = (None, (tx, db st)) ∧
    db st' = db st ∧
    heap st' = heap st ∧
    transactions st' = transactions st ∧
    timewheel st'
    = timewheel st
        ++ [{| delay := waitBeforeCleanTx; key := ""; job := CleanJob a |}].
Proof.
  intros Htab Hheap Hs.
  unfold execRollback.
  change (negb (Z.of_nat (length [name; txID]) =? 2)) with false.
  change ([name; txID] !! 1%nat) with (Some txID). cbv iota.
  rewrite Htab, Hheap, (rollbackWithLock_rolled_back tx (db st) Hs).
  eexists. split; [reflexivity|].
  split; [reflexivity|].
  cbn [db heap transactions timewheel set_timewheel set_tx].
  repeat split. apply insert_id, Hheap.
Qed.

End RollbackFacts.

(* --------------------------------------------------------------------- *)
(** ** Transactions: prepare and commit *)
(* --------------------------------------------------------------------- *)

Section PrepareCommitFacts.
Import GoLib cluster.
Context `{EmbedDB}.
Variable prepareFuncMap : gmap string CmdFunc.

(** The local prepare of [execPrepare]: the record is created and
    stored, the keys are locked, the undo log is taken, the status
    becomes Prepared and the abort timer is set. *)
Lemma prepare_new_transaction (st : Cluster) (c : Connection)
    (txID : string) (cmd : CmdLine) :
  let a := fresh (dom (heap st)) in
  let tx := NewTransaction c txID cmd in
  let st1 := transactions_Put (set_tx st a tx (db st)) txID a in
  let '(err, (tx', d, pending)) := prepare a tx (db st1) (timewheel st1) in
  err = None ∧
  set_timewheel (set_tx st1 a tx' d) pending = preparedCluster st c txID cmd.
Proof.
  unfold prepare, preparedCluster, preparedTransaction.
  cbn [NewTransaction cmdLine id dbIndex].
  destruct (GetRelatedKeys cmd) as [wk rk] eqn:Hk.
  unfold lockKeys, timewheel_Delay, genTaskKey.
  cbn [set_keys keysLocked negb set_keysLocked set_undoLog set_status
       id cmdLine conn dbIndex writeKeys readKeys undoLog status fst snd
       transactions_Put set_tx set_timewheel
       self db heap transactions timewheel].
  split; [reflexivity|].
  unfold set_timewheel, set_tx, transactions_Put, set_status, set_undoLog,
    set_keysLocked, set_keys, NewTransaction.
  cbn [id cmdLine conn dbIndex writeKeys readKeys undoLog status keysLocked
       self db heap transactions timewheel].
  rewrite insert_insert_eq. reflexivity.
Qed.

(** C10.  When the prepare function of the command rejects the
    transaction, that is, when on the participant as the local prepare
    has left it the function returns an error reply and changes
    nothing, [execPrepare] returns that error reply, and the participant
    stays as the local prepare has left it: the transaction is in the
    table, Prepared, with its keys locked, and the abort timer is
    pending. *)
Theorem execPrepare_rejected_stays_prepared (st : Cluster) (c : Connection)
    (word txID name : string) (args : list string)
    (prepareFunc : CmdFunc) (msg : string) :
  let prepared := preparedCluster st c txID (name :: args) in
  prepareFuncMap !! ToLower name = Some prepareFunc →
  prepareFunc prepared c (name :: args) = (ErrReply msg, prepared) →
  execPrepare prepareFuncMap st c (word :: txID :: name :: args)
  = (ErrReply msg, prepared) ∧
  (∃ a tx,
     transactions prepared !! txID = Some a ∧
     heap prepared !! a = Some tx ∧
     status tx = preparedStatus ∧
     keysLocked tx = true ∧
     db prepared
     = RWLocks (db st) (dbIndex tx) (writeKeys tx) (readKeys tx) ∧
     job <$> last (timewheel prepared) = Some (AbortJob a)).
Proof.
  intros prepared Hmap Hhook. split.
  - unfold execPrepare.
    assert (Hlen : (Z.of_nat (length (word :: txID :: name :: args)) <? 3) = false).
    { apply Z.ltb_ge. cbn [length]. lia. }
    rewrite Hlen.
    change ((word :: txID :: name :: args) !! 1%nat) with (Some txID).
    change ((word :: txID :: name :: args) !! 2%nat) with (Some name).
    change (drop 2 (word :: txID :: name :: args)) with (name :: args).
    cbv iota.
    pose proof (prepare_new_transaction st c txID (name :: args)) as Hp.
    cbv zeta in Hp.
    change (db (transactions_Put ?s _ _)) with (db s) in Hp.
    change (timewheel (transactions_Put ?s _ _)) with (timewheel s) in Hp.
    cbv zeta.
    change (db (transactions_Put ?s _ _)) with (db s).
    change (timewheel (transactions_Put ?s _ _)) with (timewheel s).
    change (db (set_tx ?s _ _ ?d)) with d in *.
    change (timewheel (set_tx ?s _ _ _)) with (timewheel s) in *.
    destruct (prepare (fresh (dom (heap st))) (NewTransaction c txID (name :: args))
                (db st) (timewheel st)) as [err [[tx' d] pending]].
    destruct Hp as [-> ->].
    unfold CmdFunc, CmdLine in *. rewrite Hmap. exact Hhook.
  - exists (fresh (dom (heap st))),
           (preparedTransaction (db st) c txID (name :: args)).
    subst prepared. unfold preparedCluster.
    cbn [transactions heap db timewheel].
    rewrite !lookup_insert_eq, last_snoc.
    repeat split.
Qed.

(** [Commit txID] does not look at the status of the transaction: on
    any transaction of the table whose command runs without an error
    reply, the command is run, its reply is returned, and the
    transaction becomes Committed. *)
Lemma execCommit_runs_command (st : Cluster) (c : Connection)
    (name txID : string) (a : nat) (tx : Transaction)
    (result : Reply) (d : DBState) :
  transactions st !! txID = Some a →
  heap st !! a = Some tx →
  ExecWithLock (db st) c (cmdLine tx) = (result, d) →
  IsErrorReply result = false →
  ∃ st' tx',
    execCommit st c [name; txID] = Some (result, st') ∧
    db st' = snd (unLockKeys tx d) ∧
    heap st' !! a = Some tx' ∧
    status tx' = committedStatus.
Proof.
  intros Htab Hheap Hexec Herr.
  unfold execCommit.
  change (negb (Z.of_nat (length [name; txID]) =? 2)) with false.
  change ([name; txID] !! 1%nat) with (Some txID). cbv iota.
  rewrite Htab, Hheap, Hexec, Herr.
  destruct (unLockKeys tx d) as [tx1 d1].
  eexists _, _. split; [reflexivity|].
  cbn [db heap set_timewheel set_tx snd].
  rewrite lookup_insert_eq. repeat split.
Qed.

End PrepareCommitFacts.

(* --------------------------------------------------------------------- *)
(** ** The participant on concrete commands *)
(* --------------------------------------------------------------------- *)

Section TccExamples.
Import GoLib cluster cluster_fixture.

Lemma execRollback_idempotent_witness :
  ∃ st',
    @execRollback toy rolledBackNode 0 ["rollback"; "7"]
    = Some (IntReply 1, st') ∧
    @rollbackWithLock toy rolledBackTx (@db toy rolledBackNode)
    = (None, (rolledBackTx, @db toy rolledBackNode)) ∧
    @db toy st' = @db toy rolledBackNode ∧
    @heap toy st' = @heap toy rolledBackNode ∧
    @transactions toy st' = @transactions toy rolledBackNode ∧
    @timewheel toy st'
    = @timewheel toy rolledBackNode
        ++ [{| delay := waitBeforeCleanTx; key := ""; job := CleanJob 0 |}].
Proof.
  apply (@execRollback_idempotent toy rolledBackNode 0 "rollback" "7"
           0%nat rolledBackTx).
  - reflexivity.
  - reflexivity.
  - reflexivity.
Defined.

Lemma execPrepare_rejected_stays_prepared_witness :
  let st := node {[ "k" := "old" ]} in
  let prepared := @preparedCluster toy st 0 "8" ["SETNX"; "k"; "v"] in
  @execPrepare toy hooks st 0 ["prepare"; "8"; "SETNX"; "k"; "v"]
  = (ErrReply "ERR key exists", prepared) ∧
  (∃ a tx,
     @transactions toy prepared !! "8" = Some a ∧
     @heap toy prepared !! a = Some tx ∧
     @status toy tx = preparedStatus ∧
     @keysLocked toy tx = true ∧
     @db toy prepared
     = @RWLocks toy (@db toy st) (@dbIndex toy tx) (@writeKeys toy tx)
         (@readKeys toy tx) ∧
     job <$> last (@timewheel toy prepared) = Some (AbortJob a)).
Proof.
  intros st prepared.
  apply (@execPrepare_rejected_stays_prepared toy hooks st 0
           "prepare" "8" "SETNX" ["k"; "v"] prepareSetNX "ERR key exists").
  - reflexivity.
  - reflexivity.
Defined.

(** The rejected [SETNX] on the node: the error goes back to the
    coordinator, and the lock on [k] stays. *)
Example setnx_rejected_scenario :
  fst setnx_rejected = ErrReply "ERR key exists" ∧
  held (@db toy (snd setnx_rejected)) = [(0, ["k"], [])] ∧
  (@status toy <$> lookupTx (snd setnx_rejected) "8") = Some preparedStatus.
Proof. repeat split; reflexivity. Qed.

(** C1.  The claim does not hold of [execCommit], which does not look
    at the status of the transaction.  [Prepare 7 SET k v] is accepted;
    the abort timer fires and rolls the transaction back, which stays
    in the table with its keys unlocked; the late [Commit 7] then runs
    [SET k v] on the database, without the key locks, replies [OK]
    where the claim has the integer 0, and marks the transaction
    Committed. *)
Theorem execCommit_after_abort_runs_command :
  fst silent_prepared = OkReply ∧
  silent_aborted = Some rolledBackNode ∧
  lookupTx rolledBackNode "7" = Some rolledBackTx ∧
  @status toy rolledBackTx = rolledBackStatus ∧
  store (@db toy rolledBackNode) !! "k" = None ∧
  @execCommit toy rolledBackNode 0 ["commit"; "7"]
  = Some (OkReply, committedNode) ∧
  store (@db toy committedNode) !! "k" = Some "v" ∧
  lookupTx committedNode "7" = Some committedTx ∧
  @status toy committedTx = committedStatus.
Proof. repeat split; reflexivity. Qed.

Lemma execCommit_runs_command_witness :
  ∃ st' tx',
    @execCommit toy rolledBackNode 0 ["commit"; "7"] = Some (OkReply, st') ∧
    @db toy st'
    = snd (@unLockKeys toy rolledBackTx
             {| store := {[ "k" := "v" ]}; held := [] |}) ∧
    @heap toy st' !! 0%nat = Some tx' ∧
    @status toy tx' = committedStatus.
Proof.
  apply (@execCommit_runs_command toy rolledBackNode 0 "commit" "7" 0%nat
           rolledBackTx OkReply {| store := {[ "k" := "v" ]}; held := [] |}).
  - reflexivity.
  - reflexivity.
  - reflexivity.
  - reflexivity.
Defined.

(** A transaction that is unknown gets the integer 0 from both
    commands. *)
Example unknown_transaction :
  @execCommit toy (node ∅) 0 ["commit"; "9"] = Some (IntReply 0, node ∅) ∧
  @execRollback toy (node ∅) 0 ["rollback"; "9"] = Some (IntReply 0, node ∅).
Proof. split; reflexivity. Qed.

End TccExamples.

(* --------------------------------------------------------------------- *)
(** ** More on the participant *)
(* --------------------------------------------------------------------- *)

Section ParticipantMore.
Import GoLib cluster.
Context `{EmbedDB}.
Variable prepareFuncMap : gmap string CmdFunc.

(** [lockKeys] and [unLockKeys] are reentrant: once the keys are locked,
    locking again changes nothing, and once they are unlocked, unlocking
    again changes nothing, so that the database sees one [RWLocks] and
    one [RWUnLocks]. *)
Theorem lockKeys_reentrant (tx : Transaction) (d : DBState) :
  let '(tx1, d1) := lockKeys tx d in
  keysLocked tx1 = true ∧ lockKeys tx1 d1 = (tx1, d1) ∧
  let '(tx2, d2) := unLockKeys tx1 d1 in
  keysLocked tx2 = false ∧ unLockKeys tx2 d2 = (tx2, d2) ∧
  d2 = RWUnLocks d1 (dbIndex tx) (writeKeys tx) (readKeys tx).
Proof.
  unfold lockKeys, unLockKeys.
  destruct (keysLocked tx) eqn:Hk;
    cbn [negb keysLocked set_keysLocked dbIndex writeKeys readKeys];
    rewrite ?Hk;
    cbn [negb keysLocked set_keysLocked dbIndex writeKeys readKeys];
    repeat split.
Qed.

Ltac two_args name txID :=
  change (negb (Z.of_nat (length [name; txID]) =? 2)) with false;
  change ([name; txID] !! 1%nat) with (Some txID); cbv iota.

(** [Commit] and [Rollback] of a transaction that is not in the table
    reply the integer 0 and change nothing. *)
Theorem unknown_transaction_replies_zero (st : Cluster) (c : Connection)
    (name txID : string) :
  transactions st !! txID = None →
  execCommit st c [name; txID] = Some (IntReply 0, st) ∧
  execRollback st c [name; txID] = Some (IntReply 0, st).
Proof.
  intros Hnone. unfold execCommit, execRollback. two_args name txID.
  rewrite Hnone. split; reflexivity.
Qed.

(** [Rollback] of a transaction that is not rolled back yet, Prepared or
    Committed: the keys are locked if they are not, the undo log is run
    on the connection of the transaction, the keys are unlocked, the
    transaction becomes RolledBack, its cleaning is scheduled, and the
    reply is the integer 1. *)
Theorem execRollback_undoes (st : Cluster) (c : Connection)
    (name txID : string) (a : nat) (tx : Transaction) :
  transactions st !! txID = Some a →
  heap st !! a = Some tx →
  status tx ≠ rolledBackStatus →
  let d1 := execUndoLog (conn tx) (undoLog tx) (snd (lockKeys tx (db st))) in
  execRollback st c [name; txID]
  = Some (IntReply 1,
          {| self := self st;
             db := RWUnLocks d1 (dbIndex tx) (writeKeys tx) (readKeys tx);
             heap := <[a := set_status (set_keysLocked tx false)
                               rolledBackStatus]> (heap st);
             transactions := transactions st;
             timewheel := timewheel st
                            ++ [{| delay := waitBeforeCleanTx; key := "";
                                   job := CleanJob a |}] |}).
Proof.
  intros Htab Hheap Hs d1. unfold execRollback. two_args name txID.
  rewrite Htab, Hheap, (rollbackWithLock_undoes tx (db st) Hs).
  reflexivity.
Qed.

(** [Commit] of a transaction of the table whose command runs without an
    error reply: the command is run on the connection of the [Commit],
    the keys are unlocked, the transaction becomes Committed, its
    cleaning is scheduled, and the reply of the command is returned. *)
Theorem execCommit_commits (st : Cluster) (c : Connection)
    (name txID : string) (a : nat) (tx : Transaction)
    (result : Reply) (d : DBState) :
  transactions st !! txID = Some a →
  heap st !! a = Some tx →
  ExecWithLock (db st) c (cmdLine tx) = (result, d) →
  IsErrorReply result = false →
  execCommit st c [name; txID]
  = Some (result,
          {| self := self st;
             db := snd (unLockKeys tx d);
             heap := <[a := set_status (set_keysLocked tx false)
                               committedStatus]> (heap st);
             transactions := transactions st;
             timewheel := timewheel st
                            ++ [{| delay := waitBeforeCleanTx; key := "";
                                   job := CleanJob a |}] |}).
Proof.
  intros Htab Hheap Hexec Herr. unfold execCommit. two_args name txID.
  rewrite Htab, Hheap, Hexec, Herr.
  unfold unLockKeys. destruct (keysLocked tx) eqn:Hk; [reflexivity|].
  cbn [snd]. unfold set_timewheel, set_tx, timewheel_Delay.
  cbn [self db heap transactions timewheel].
  do 3 f_equal. destruct tx. cbn in Hk. subst. reflexivity.
Qed.

(** [Commit] of a transaction of the table whose command returns an error
    reply: the transaction is rolled back on the spot and stays in the
    table, no cleaning is scheduled, and the error reply names the error
    of the rollback, which is always nil, and the error of the
    command. *)
Theorem execCommit_failure_rolls_back (st : Cluster) (c : Connection)
    (name txID : string) (a : nat) (tx : Transaction)
    (msg : string) (d : DBState) :
  transactions st !! txID = Some a →
  heap st !! a = Some tx →
  ExecWithLock (db st) c (cmdLine tx) = (ErrReply msg, d) →
  ∃ st' tx',
    execCommit st c [name; txID]
    = Some (ErrReply ("err occurs when rollback: <nil>, origin err: " +:+ msg),
            st') ∧
    heap st' !! a = Some tx' ∧
    status tx' = rolledBackStatus ∧
    transactions st' = transactions st ∧
    timewheel st' = timewheel st ∧
    (status tx ≠ rolledBackStatus →
     keysLocked tx' = false ∧
     db st'
     = RWUnLocks (execUndoLog (conn tx) (undoLog tx) (snd (lockKeys tx d)))
         (dbIndex tx) (writeKeys tx) (readKeys tx)).
Proof.
  intros Htab Hheap Hexec. unfold execCommit. two_args name txID.
  rewrite Htab, Hheap, Hexec. cbn [IsErrorReply].
  destruct (Z.eq_dec (status tx) rolledBackStatus) as [Hs|Hs].
  - rewrite (rollbackWithLock_rolled_back tx d Hs).
    eexists _, tx. split; [reflexivity|].
    cbn [heap set_tx transactions timewheel].
    rewrite lookup_insert_eq. repeat split; try assumption; contradiction.
  - rewrite (rollbackWithLock_undoes tx d Hs).
    eexists _, _. split; [reflexivity|].
    cbn [heap set_tx transactions timewheel db].
    rewrite lookup_insert_eq. repeat split.
Qed.

(** The job of the abort timer: a transaction that is still Prepared is
    rolled back, its keys are unlocked, and it stays in the table with no
    cleaning scheduled; on any other transaction the job does nothing. *)
Theorem abort_job_rolls_back_prepared (st : Cluster) (a : nat)
    (tx : Transaction) :
  heap st !! a = Some tx →
  (status tx = preparedStatus →
   let d1 := execUndoLog (conn tx) (undoLog tx) (snd (lockKeys tx (db st))) in
   runJob (AbortJob a) st
   = Some {| self := self st;
             db := RWUnLocks d1 (dbIndex tx) (writeKeys tx) (readKeys tx);
             heap := <[a := set_status (set_keysLocked tx false)
                               rolledBackStatus]> (heap st);
             transactions := transactions st;
             timewheel := timewheel st |}) ∧
  (status tx ≠ preparedStatus → runJob (AbortJob a) st = Some st).
Proof.
  intros Hheap. unfold runJob. rewrite Hheap. split.
  - intros Hs. rewrite Hs. cbn [Z.eqb preparedStatus Pos.eqb].
    rewrite (rollbackWithLock_undoes tx (db st)); [reflexivity|].
    rewrite Hs. discriminate.
  - intros Hs. destruct (Z.eqb_spec (status tx) preparedStatus); [contradiction|].
    reflexivity.
Qed.

(** [execPrepare] on a command line of three words or more: the local
    prepare, then the prepare function of the command if it has one. *)
Lemma execPrepare_prepared (st : Cluster) (c : Connection)
    (word txID name : string) (args : list string) :
  execPrepare prepareFuncMap st c (word :: txID :: name :: args)
  = match prepareFuncMap !! ToLower name with
    | Some prepareFunc =>
        prepareFunc (preparedCluster st c txID (name :: args)) c (name :: args)
    | None => (OkReply, preparedCluster st c txID (name :: args))
    end.
Proof.
  unfold execPrepare.
  assert (Hlen : (Z.of_nat (length (word :: txID :: name :: args)) <? 3) = false).
  { apply Z.ltb_ge. cbn [length]. lia. }
  rewrite Hlen.
  change ((word :: txID :: name :: args) !! 1%nat) with (Some txID).
  change ((word :: txID :: name :: args) !! 2%nat) with (Some name).
  change (drop 2 (word :: txID :: name :: args)) with (name :: args).
  cbv iota.
  pose proof (prepare_new_transaction st c txID (name :: args)) as Hp.
  cbv zeta in Hp.
  change (db (transactions_Put ?s _ _)) with (db s) in Hp.
  change (timewheel (transactions_Put ?s _ _)) with (timewheel s) in Hp.
  cbv zeta.
  change (db (transactions_Put ?s _ _)) with (db s).
  change (timewheel (transactions_Put ?s _ _)) with (timewheel s).
  change (db (set_tx ?s _ _ ?d)) with d in *.
  change (timewheel (set_tx ?s _ _ _)) with (timewheel s) in *.
  destruct (prepare (fresh (dom (heap st))) (NewTransaction c txID (name :: args))
              (db st) (timewheel st)) as [err [[tx' d] pending]].
  destruct Hp as [-> ->].
  reflexivity.
Qed.

Lemma execPrepare_no_hook (st : Cluster) (c : Connection)
    (word txID name : string) (args : list string) :
  prepareFuncMap !! ToLower name = None →
  execPrepare prepareFuncMap st c (word :: txID :: name :: args)
  = (OkReply, preparedCluster st c txID (name :: args)).
Proof.
  intros Hmap. rewrite execPrepare_prepared.
  unfold CmdFunc, CmdLine in *. rewrite Hmap. reflexivity.
Qed.

(** [Prepare] then [Commit]: [Prepare] of a command that has no prepare
    function replies [OK]; when the command then runs without an error
    reply, on the database with the keys locked and on the connection of
    the [Commit], its reply is returned, the keys are unlocked, the
    transaction is Committed and still in the table, and the abort timer
    and the cleaning are pending. *)
Theorem prepare_then_commit (st : Cluster) (c c' : Connection)
    (word word' txID name : string) (args : list string)
    (result : Reply) (d : DBState) :
  let cmd := name :: args in
  let idx := GetDBIndex c in
  let wk := fst (GetRelatedKeys cmd) in
  let rk := snd (GetRelatedKeys cmd) in
  prepareFuncMap !! ToLower name = None →
  ExecWithLock (RWLocks (db st) idx wk rk) c' cmd = (result, d) →
  IsErrorReply result = false →
  ∃ st2 a tx,
    execPrepare prepareFuncMap st c (word :: txID :: cmd)
    = (OkReply, preparedCluster st c txID cmd) ∧
    execCommit (preparedCluster st c txID cmd) c' [word'; txID]
    = Some (result, st2) ∧
    db st2 = RWUnLocks d idx wk rk ∧
    transactions st2 !! txID = Some a ∧
    heap st2 !! a = Some tx ∧
    status tx = committedStatus ∧
    keysLocked tx = false ∧
    timewheel st2
    = timewheel st
        ++ [{| delay := maxLockTime; key := "tx:" +:+ txID;
               job := AbortJob a |};
            {| delay := waitBeforeCleanTx; key := ""; job := CleanJob a |}].
Proof.
  intros cmd idx wk rk Hmap Hexec Herr.
  eexists _, (fresh (dom (heap st))), _.
  split; [apply execPrepare_no_hook; exact Hmap|].
  unfold execCommit. two_args word' txID.
  unfold preparedCluster.
  cbn [transactions heap db preparedTransaction writeKeys readKeys cmdLine].
  rewrite !lookup_insert_eq.
  cbn [preparedTransaction writeKeys readKeys cmdLine].
  fold cmd idx wk rk. rewrite Hexec, Herr.
  unfold unLockKeys.
  cbn [keysLocked set_keysLocked dbIndex writeKeys readKeys].
  split; [reflexivity|].
  cbn [set_timewheel set_tx db transactions heap timewheel].
  unfold timewheel_Delay. rewrite !lookup_insert_eq, <- app_assoc.
  repeat split.
Qed.

(** [Prepare] then [Rollback]: the undo log that [Prepare] took on the
    locked database is run on the connection of the [Prepare], the keys
    are unlocked, the transaction is RolledBack and still in the table,
    and the reply is the integer 1. *)
Theorem prepare_then_rollback (st : Cluster) (c c' : Connection)
    (word word' txID name : string) (args : list string) :
  let cmd := name :: args in
  let idx := GetDBIndex c in
  let wk := fst (GetRelatedKeys cmd) in
  let rk := snd (GetRelatedKeys cmd) in
  let locked := RWLocks (db st) idx wk rk in
  prepareFuncMap !! ToLower name = None →
  ∃ st2 a tx,
    execPrepare prepareFuncMap st c (word :: txID :: cmd)
    = (OkReply, preparedCluster st c txID cmd) ∧
    execRollback (preparedCluster st c txID cmd) c' [word'; txID]
    = Some (IntReply 1, st2) ∧
    db st2
    = RWUnLocks (execUndoLog c (GetUndoLogs locked idx cmd) locked)
        idx wk rk ∧
    transactions st2 !! txID = Some a ∧
    heap st2 !! a = Some tx ∧
    status tx = rolledBackStatus ∧
    keysLocked tx = false.
Proof.
  intros cmd idx wk rk locked Hmap.
  eexists _, (fresh (dom (heap st))), _.
  split; [apply execPrepare_no_hook; exact Hmap|].
  unfold execRollback. two_args word' txID.
  unfold preparedCluster.
  cbn [transactions heap db preparedTransaction writeKeys readKeys cmdLine].
  rewrite !lookup_insert_eq.
  rewrite rollbackWithLock_undoes by (cbn [status]; discriminate).
  unfold lockKeys.
  cbn [keysLocked negb snd set_keysLocked dbIndex writeKeys readKeys conn
       undoLog].
  split; [reflexivity|].
  cbn [set_timewheel set_tx db transactions heap timewheel].
  rewrite !lookup_insert_eq.
  repeat split.
Qed.

End ParticipantMore.

(* --------------------------------------------------------------------- *)
(** ** The participant under any sequence of commands and timer jobs *)
(* --------------------------------------------------------------------- *)

Section MachineFacts.
Import GoLib cluster.
Context `{EmbedDB}.
Variable prepareFuncMap : gmap string CmdFunc.

Lemma emptyNode_consistent (name : string) (d : DBState) :
  consistent (emptyNode name d).
Proof.
  split; [|split]; cbn [emptyNode transactions timewheel heap].
  - intros txID a Hl. rewrite lookup_empty in Hl. discriminate.
  - intros t Ht. apply elem_of_nil in Ht. contradiction.
  - intros a tx Hl. rewrite lookup_empty in Hl. discriminate.
Qed.

Lemma set_tx_consistent (st : Cluster) (a : nat) (tx tx' : Transaction)
    (d : DBState) :
  consistent st →
  heap st !! a = Some tx →
  id tx' = id tx →
  (keysLocked tx' = true ↔ status tx' = preparedStatus) →
  consistent (set_tx st a tx' d).
Proof.
  intros (Ht & Hw & Hh) Hheap Hid Hk.
  split; [|split]; cbn [set_tx transactions timewheel heap].
  - intros txID b Hl. destruct (Ht txID b Hl) as (tx0 & Hb & Hid0).
    destruct (decide (a = b)) as [->|Hne].
    + exists tx'. rewrite lookup_insert_eq. split; [reflexivity|]. congruence.
    + exists tx0. rewrite lookup_insert_ne by assumption. split; assumption.
  - intros t Hin. apply lookup_insert_is_Some'. right. apply Hw, Hin.
  - intros b tx0 Hl. destruct (decide (a = b)) as [->|Hne].
    + rewrite lookup_insert_eq in Hl. inversion Hl; subst. exact Hk.
    + rewrite lookup_insert_ne in Hl by assumption. apply (Hh b tx0 Hl).
Qed.

Lemma delay_consistent (st : Cluster) (d : Z) (k : string) (j : Job) :
  consistent st →
  is_Some (heap st !! jobAddr j) →
  consistent (set_timewheel st (timewheel_Delay d k j (timewheel st))).
Proof.
  intros (Ht & Hw & Hh) Hj.
  split; [|split]; cbn [set_timewheel transactions timewheel heap];
    try assumption.
  intros t Hin. unfold timewheel_Delay in Hin.
  apply elem_of_app in Hin as [Hin|Hin]; [apply Hw, Hin|].
  apply list_elem_of_singleton in Hin. subst t. exact Hj.
Qed.

Lemma rollbackWithLock_shape (tx : Transaction) (d : DBState) :
  (keysLocked tx = true ↔ status tx = preparedStatus) →
  ∃ tx' d',
    rollbackWithLock tx d = (None, (tx', d')) ∧
    id tx' = id tx ∧
    (keysLocked tx' = true ↔ status tx' = preparedStatus).
Proof.
  intros Hk. destruct (Z.eq_dec (status tx) rolledBackStatus) as [Hs|Hs].
  - rewrite (rollbackWithLock_rolled_back tx d Hs). eauto.
  - rewrite (rollbackWithLock_undoes tx d Hs).
    eexists _, _. split; [reflexivity|].
    cbn [set_status set_keysLocked id keysLocked status].
    split; [reflexivity|]. split; intros Hx; discriminate Hx.
Qed.

Lemma second_word (cmd : CmdLine) :
  Z.of_nat (length cmd) = 2 → ∃ txID, cmd !! 1%nat = Some txID.
Proof.
  intros Hl. destruct (cmd !! 1%nat) eqn:E; [eauto|].
  apply lookup_ge_None in E. lia.
Qed.

Lemma execRollback_consistent (st : Cluster) (c : Connection)
    (cmd : CmdLine) :
  consistent st →
  ∃ r st',
    execRollback st c cmd = Some (r, st') ∧
    self st' = self st ∧ consistent st'.
Proof.
  intros Hc. unfold execRollback.
  destruct (Z.eqb_spec (Z.of_nat (length cmd)) 2) as [Hl|_]; cbn [negb];
    [|eauto].
  destruct (second_word cmd Hl) as [txID ->].
  destruct (transactions st !! txID) as [a|] eqn:Htab; [|eauto].
  pose proof Hc as (Ht & Hw & Hh).
  destruct (Ht txID a Htab) as (tx & Hheap & Hid). rewrite Hheap.
  destruct (rollbackWithLock_shape tx (db st) (Hh a tx Hheap))
    as (tx' & d' & -> & Hid' & Hk').
  eexists _, _. split; [reflexivity|]. split; [reflexivity|].
  apply (delay_consistent (set_tx st a tx' d')).
  - eapply set_tx_consistent; eauto.
  - cbn [jobAddr set_tx heap]. rewrite lookup_insert_eq. eauto.
Qed.

Lemma execCommit_consistent (st : Cluster) (c : Connection)
    (cmd : CmdLine) :
  consistent st →
  ∃ r st',
    execCommit st c cmd = Some (r, st') ∧
    self st' = self st ∧ consistent st'.
Proof.
  intros Hc. unfold execCommit.
  destruct (Z.eqb_spec (Z.of_nat (length cmd)) 2) as [Hl|_]; cbn [negb];
    [|eauto].
  destruct (second_word cmd Hl) as [txID ->].
  destruct (transactions st !! txID) as [a|] eqn:Htab; [|eauto].
  pose proof Hc as (Ht & Hw & Hh).
  destruct (Ht txID a Htab) as (tx & Hheap & Hid). rewrite Hheap.
  destruct (ExecWithLock (db st) c (cmdLine tx)) as [result d].
  destruct (IsErrorReply result).
  - destruct (rollbackWithLock_shape tx d (Hh a tx Hheap))
      as (tx' & d' & -> & Hid' & Hk').
    eexists _, _. split; [reflexivity|]. split; [reflexivity|].
    eapply set_tx_consistent; eauto.
  - destruct (unLockKeys tx d) as [tx1 d1] eqn:Hu.
    assert (id tx1 = id tx ∧ keysLocked tx1 = false) as [Hid1 Hk1].
    { unfold unLockKeys in Hu.
      destruct (keysLocked tx) eqn:Hk; inversion Hu; subst;
        cbn [set_keysLocked id keysLocked]; auto. }
    eexists _, _. split; [reflexivity|]. split; [reflexivity|].
    apply (delay_consistent (set_tx st a (set_status tx1 committedStatus) d1)).
    + eapply set_tx_consistent; eauto.
      cbn [set_status keysLocked status]. rewrite Hk1.
      split; intros Hx; discriminate Hx.
    + cbn [jobAddr set_tx heap]. rewrite lookup_insert_eq. eauto.
Qed.

Lemma fireAt_consistent (st : Cluster) (n : nat) :
  consistent st →
  ∃ st', fireAt n st = Some st' ∧ self st' = self st ∧ consistent st'.
Proof.
  intros Hc. unfold fireAt.
  destruct (timewheel st !! n) as [t|] eqn:Hn; [|eauto].
  pose proof Hc as (Ht & Hw & Hh).
  assert (Hc' : consistent (set_timewheel st (delete n (timewheel st)))).
  { split; [|split]; cbn [set_timewheel transactions timewheel heap];
      try assumption.
    intros t' Hin. apply Hw. eapply list_elem_of_delete_inv; eauto. }
  assert (Hj : is_Some (heap st !! jobAddr (job t))).
  { apply Hw. eapply list_elem_of_lookup_2; eauto. }
  destruct (job t) as [a|a]; cbn [jobAddr] in Hj; destruct Hj as [tx Hheap];
    unfold runJob; cbn [set_timewheel heap db]; rewrite Hheap.
  - destruct (status tx =? preparedStatus); [|eauto].
    destruct (rollbackWithLock_shape tx (db st) (Hh a tx Hheap))
      as (tx' & d' & -> & Hid' & Hk').
    eexists. split; [reflexivity|]. split; [reflexivity|].
    eapply (set_tx_consistent (set_timewheel st (delete n (timewheel st))));
      eauto.
  - eexists. split; [reflexivity|]. split; [reflexivity|].
    destruct Hc' as (Ht' & Hw' & Hh').
    split; [|split];
      cbn [transactions_Remove set_timewheel transactions timewheel heap];
      try assumption.
    intros txID b Hl. apply lookup_delete_Some in Hl as [_ Hl]. eauto.
Qed.

Lemma preparedCluster_consistent (st : Cluster) (c : Connection)
    (txID : string) (cmd : CmdLine) :
  consistent st → consistent (preparedCluster st c txID cmd).
Proof.
  intros (Ht & Hw & Hh).
  assert (Hfresh : heap st !! fresh (dom (heap st)) = None).
  { apply not_elem_of_dom. apply is_fresh. }
  split; [|split]; unfold preparedCluster;
    cbn [transactions timewheel heap].
  - intros txID' b Hl. destruct (decide (txID = txID')) as [->|Hne].
    + rewrite lookup_insert_eq in Hl. inversion Hl; subst.
      rewrite lookup_insert_eq. eexists. split; reflexivity.
    + rewrite lookup_insert_ne in Hl by assumption.
      destruct (Ht _ _ Hl) as (tx & Hb & Hid). exists tx.
      split; [|assumption].
      rewrite lookup_insert_ne; [assumption|]. intros Heq.
      rewrite Heq in Hfresh. congruence.
  - intros t Hin. apply lookup_insert_is_Some'.
    apply elem_of_app in Hin as [Hin|Hin]; [right; apply Hw, Hin|].
    apply list_elem_of_singleton in Hin. subst t. left. reflexivity.
  - intros b tx Hl.
    destruct (decide (fresh (dom (heap st)) = b)) as [Heq|Hne].
    + rewrite <- Heq, lookup_insert_eq in Hl. inversion Hl; subst.
      cbn [preparedTransaction keysLocked status]. split; reflexivity.
    + rewrite lookup_insert_ne in Hl by assumption. apply (Hh b tx Hl).
Qed.

Lemma execPrepare_consistent (st : Cluster) (c : Connection)
    (cmd : CmdLine) :
  readOnlyHooks prepareFuncMap →
  consistent st →
  self (snd (execPrepare prepareFuncMap st c cmd)) = self st ∧
  consistent (snd (execPrepare prepareFuncMap st c cmd)).
Proof.
  intros Hro Hc.
  destruct cmd as [|word [|txID [|name args]]];
    try (split; [reflexivity|exact Hc]).
  rewrite execPrepare_prepared.
  destruct (prepareFuncMap !! ToLower name) as [f|] eqn:Hm.
  - rewrite (Hro _ _ Hm). split; [reflexivity|].
    apply preparedCluster_consistent, Hc.
  - cbn [snd]. split; [reflexivity|].
    apply preparedCluster_consistent, Hc.
Qed.

Lemma step_consistent (st : Cluster) (ev : Event) :
  readOnlyHooks prepareFuncMap →
  consistent st →
  ∃ st',
    step prepareFuncMap st ev = Some st' ∧
    self st' = self st ∧ consistent st'.
Proof.
  intros Hro Hc. destruct ev as [c cmd|c cmd|c cmd|n]; cbn [step].
  - destruct (execPrepare_consistent st c cmd Hro Hc). eauto.
  - destruct (execCommit_consistent st c cmd Hc) as (r & st' & -> & ? & ?).
    exists st'. split; [reflexivity|split; assumption].
  - destruct (execRollback_consistent st c cmd Hc) as (r & st' & -> & ? & ?).
    exists st'. split; [reflexivity|split; assumption].
  - apply fireAt_consistent, Hc.
Qed.

(** Whatever [Prepare], [Commit] and [Rollback] commands the node
    receives and whatever pending jobs the timer wheel runs, in any
    order, and provided the prepare functions change nothing: every step
    finds the transactions it looks for, every entry of the table holds
    a transaction of that id, and a transaction has its keys locked
    exactly when it is Prepared. *)
Theorem run_keeps_consistent (st : Cluster) (evs : list Event) :
  readOnlyHooks prepareFuncMap →
  consistent st →
  ∃ st',
    run prepareFuncMap evs st = Some st' ∧
    self st' = self st ∧ consistent st'.
Proof.
  intros Hro. revert st. induction evs as [|ev evs IH]; intros st Hc.
  - exists st. split; [reflexivity|split; [reflexivity|assumption]].
  - cbn [run].
    destruct (step_consistent st ev Hro Hc) as (st1 & -> & Hself & Hc1).
    destruct (IH st1 Hc1) as (st' & Hrun & Hself' & Hc').
    exists st'. split; [assumption|split; [congruence|assumption]].
Qed.

End MachineFacts.

(* --------------------------------------------------------------------- *)
(** ** The coordinator *)
(* --------------------------------------------------------------------- *)

Section CoordinatorFacts.
Import GoLib cluster.
Context `{EmbedDB}.
Variable answer : list (string * CmdLine) → string → CmdLine → Reply.



Lemma peersOf_without_self (co : Coordinator) (visit : list string) :
  self (local co) ∉ visit → peersOf co visit = visit.
Proof.
  unfold peersOf. induction visit as [|node visit IH]; intros Hnot;
    [reflexivity|].
  apply not_elem_of_cons in Hnot as [Hne Hnot].
  rewrite filter_cons_True by congruence. rewrite IH by assumption.
  reflexivity.
Qed.







End CoordinatorFacts.

(* --------------------------------------------------------------------- *)
(** ** The participant and the coordinator on the small database *)
(* --------------------------------------------------------------------- *)

Section TccMoreExamples.
Import GoLib cluster cluster_fixture.

(** The fixtures are what the functions make. *)
Example preparedNode_is_prepared :
  @execPrepare toy hooks (node ∅) 0 ["prepare"; "7"; "SET"; "k"; "v"]
  = (OkReply, preparedNode) ∧
  @execPrepare toy hooks (node ∅) 0 ["prepare"; "9"; "INCR"; "k"; "1"]
  = (OkReply, failingNode).
Proof. split; reflexivity. Qed.

Lemma hooks_readOnly : @readOnlyHooks toy hooks.
Proof.
  intros name f Hl st c cmd. unfold hooks in Hl.
  apply lookup_singleton_Some in Hl as [_ <-]. unfold prepareSetNX.
  destruct cmd as [|w [|k [|v [|x cmd]]]]; try reflexivity.
  destruct (store (@db toy st) !! k); reflexivity.
Qed.

Lemma unknown_transaction_replies_zero_witness :
  @execCommit toy preparedNode 0 ["commit"; "8"]
  = Some (IntReply 0, preparedNode) ∧
  @execRollback toy preparedNode 0 ["rollback"; "8"]
  = Some (IntReply 0, preparedNode).
Proof.
  apply (@unknown_transaction_replies_zero toy preparedNode 0 "commit" "8").
  reflexivity.
Defined.

Lemma execRollback_undoes_witness :
  @execRollback toy committedNode 0 ["rollback"; "7"]
  = Some (IntReply 1,
          @mkCluster toy "A"
            (@RWUnLocks toy
               (@execUndoLog toy 0 [["DEL"; "k"]]
                  (snd (@lockKeys toy committedTx (@db toy committedNode))))
               0 ["k"] [])
            (<[0%nat := @set_status toy (@set_keysLocked toy committedTx false)
                          rolledBackStatus]> (@heap toy committedNode))
            (@transactions toy committedNode)
            (@timewheel toy committedNode
               ++ [{| delay := waitBeforeCleanTx; key := "";
                      job := CleanJob 0 |}])).
Proof.
  apply (@execRollback_undoes toy committedNode 0 "rollback" "7" 0%nat
           committedTx).
  - reflexivity.
  - reflexivity.
  - discriminate.
Defined.

Lemma execCommit_commits_witness :
  @execCommit toy preparedNode 0 ["commit"; "7"]
  = Some (OkReply,
          @mkCluster toy "A"
            (snd (@unLockKeys toy preparedTx
                    {| store := {[ "k" := "v" ]};
                       held := [(0, ["k"], [])] |}))
            (<[0%nat := @set_status toy (@set_keysLocked toy preparedTx false)
                          committedStatus]> (@heap toy preparedNode))
            (@transactions toy preparedNode)
            (@timewheel toy preparedNode
               ++ [{| delay := waitBeforeCleanTx; key := "";
                      job := CleanJob 0 |}])).
Proof.
  apply (@execCommit_commits toy preparedNode 0 "commit" "7" 0%nat
           preparedTx OkReply
           {| store := {[ "k" := "v" ]}; held := [(0, ["k"], [])] |}).
  - reflexivity.
  - reflexivity.
  - reflexivity.
  - reflexivity.
Defined.

Lemma execCommit_failure_rolls_back_witness :
  ∃ st' tx',
    @execCommit toy failingNode 0 ["commit"; "9"]
    = Some (ErrReply ("err occurs when rollback: <nil>, origin err: "
                        +:+ "ERR unknown command"),
            st') ∧
    @heap toy st' !! 0%nat = Some tx' ∧
    @status toy tx' = rolledBackStatus ∧
    @transactions toy st' = @transactions toy failingNode ∧
    @timewheel toy st' = @timewheel toy failingNode ∧
    (@status toy failingTx ≠ rolledBackStatus →
     @keysLocked toy tx' = false ∧
     @db toy st'
     = @RWUnLocks toy
         (@execUndoLog toy (@conn toy failingTx) (@undoLog toy failingTx)
            (snd (@lockKeys toy failingTx (@db toy failingNode))))
         (@dbIndex toy failingTx) (@writeKeys toy failingTx)
         (@readKeys toy failingTx)).
Proof.
  apply (@execCommit_failure_rolls_back toy failingNode 0 "commit" "9"
           0%nat failingTx "ERR unknown command" (@db toy failingNode)).
  - reflexivity.
  - reflexivity.
  - reflexivity.
Defined.

Lemma abort_job_rolls_back_prepared_witness :
  (@status toy preparedTx = preparedStatus →
   @runJob toy (AbortJob 0) preparedNode
   = Some (@mkCluster toy "A"
             (@RWUnLocks toy
                (@execUndoLog toy 0 [["DEL"; "k"]]
                   (snd (@lockKeys toy preparedTx (@db toy preparedNode))))
                0 ["k"] [])
             (<[0%nat := @set_status toy (@set_keysLocked toy preparedTx false)
                           rolledBackStatus]> (@heap toy preparedNode))
             (@transactions toy preparedNode)
             (@timewheel toy preparedNode))) ∧
  (@status toy committedTx ≠ preparedStatus →
   @runJob toy (AbortJob 0) committedNode = Some committedNode).
Proof.
  split.
  - apply (@abort_job_rolls_back_prepared toy preparedNode 0%nat preparedTx).
    reflexivity.
  - apply (@abort_job_rolls_back_prepared toy committedNode 0%nat committedTx).
    reflexivity.
Defined.

Lemma prepare_then_commit_witness :
  ∃ st2 a tx,
    @execPrepare toy hooks (node ∅) 0 ["prepare"; "7"; "SET"; "k"; "v"]
    = (OkReply, @preparedCluster toy (node ∅) 0 "7" ["SET"; "k"; "v"]) ∧
    @execCommit toy (@preparedCluster toy (node ∅) 0 "7" ["SET"; "k"; "v"])
      0 ["commit"; "7"]
    = Some (OkReply, st2) ∧
    @db toy st2
    = @RWUnLocks toy
        {| store := {[ "k" := "v" ]}; held := [(0, ["k"], [])] |}
        0 ["k"] [] ∧
    @transactions toy st2 !! "7" = Some a ∧
    @heap toy st2 !! a = Some tx ∧
    @status toy tx = committedStatus ∧
    @keysLocked toy tx = false ∧
    @timewheel toy st2
    = @timewheel toy (node ∅)
        ++ [{| delay := maxLockTime; key := "tx:" +:+ "7";
               job := AbortJob a |};
            {| delay := waitBeforeCleanTx; key := ""; job := CleanJob a |}].
Proof.
  apply (@prepare_then_commit toy hooks (node ∅) 0 0 "prepare" "commit" "7"
           "SET" ["k"; "v"] OkReply
           {| store := {[ "k" := "v" ]}; held := [(0, ["k"], [])] |}).
  - reflexivity.
  - reflexivity.
  - reflexivity.
Defined.

Lemma prepare_then_rollback_witness :
  ∃ st2 a tx,
    @execPrepare toy hooks (node {[ "k" := "old" ]}) 0
      ["prepare"; "7"; "SET"; "k"; "v"]
    = (OkReply,
       @preparedCluster toy (node {[ "k" := "old" ]}) 0 "7"
         ["SET"; "k"; "v"]) ∧
    @execRollback toy
      (@preparedCluster toy (node {[ "k" := "old" ]}) 0 "7"
         ["SET"; "k"; "v"])
      0 ["rollback"; "7"]
    = Some (IntReply 1, st2) ∧
    @db toy st2
    = @RWUnLocks toy
        (@execUndoLog toy 0
           (@GetUndoLogs toy
              {| store := {[ "k" := "old" ]}; held := [(0, ["k"], [])] |}
              0 ["SET"; "k"; "v"])
           {| store := {[ "k" := "old" ]}; held := [(0, ["k"], [])] |})
        0 ["k"] [] ∧
    @transactions toy st2 !! "7" = Some a ∧
    @heap toy st2 !! a = Some tx ∧
    @status toy tx = rolledBackStatus ∧
    @keysLocked toy tx = false.
Proof.
  exact (@prepare_then_rollback toy hooks (node {[ "k" := "old" ]}) 0 0
           "prepare" "rollback" "7" "SET" ["k"; "v"] eq_refl).
Defined.

Lemma run_keeps_consistent_witness :
  ∃ st',
    @run toy hooks
      [@EvPrepare toy 0 ["prepare"; "7"; "SET"; "k"; "v"];
       @EvPrepare toy 0 ["prepare"; "8"; "SETNX"; "k"; "w"];
       @EvCommit toy 0 ["commit"; "7"];
       @EvTimer toy 0;
       @EvRollback toy 0 ["rollback"; "8"];
       @EvTimer toy 2;
       @EvCommit toy 0 ["commit"; "8"]]
      (node ∅)
    = Some st' ∧
    @self toy st' = @self toy (node ∅) ∧ @consistent toy st'.
Proof.
  apply (@run_keeps_consistent toy hooks (node ∅)).
  - exact hooks_readOnly.
  - exact (@emptyNode_consistent toy "A" {| store := ∅; held := [] |}).
Defined.



(** The coordinator [A] with the peers [B], which refuses, and [C]:
    [A] commits, [B] gets the [Commit] and refuses, [C] never gets it, and
    the [Rollback] goes to [C] and to [B]. *)
Example requestCommit_refused :
  ∃ co',
    @requestCommit toy refusing coordinatorA 0 7 ["A"; "B"; "C"]
      ["C"; "A"; "B"]
    = Some (None, Some (ErrReply "ERR refused"), co') ∧
    @sent toy co'
    = [("B", ["commit"; "7"]); ("C", ["rollback"; "7"]);
       ("B", ["rollback"; "7"])].
Proof. eexists. split; reflexivity. Qed.

End TccMoreExamples.
